(** * Route feature extraction and similarity scoring ([compare_gpx_routes.py])

    A shallow embedding of the scoring engine of [compare_gpx_routes.py].
    Python's [float] is IEEE 754 binary64, so route samples and features are
    modelled with the primitive binary64 floats of Rocq; their operations are
    the correctly rounded ones ([+], [-], [*], [/], [sqrt]) and they are
    related to the executable specification [SpecFloat] by [FloatAxioms].

    Python exceptions are results of a small error monad.  The functions of
    the C mathematics library that Python's [math] module calls ([sin],
    [cos], [atan2], [pow]) are not correctly rounded and differ between
    platforms: they are parameters of the development, and every theorem
    names the properties of them it relies on. *)

From Stdlib Require Import ZArith Bool List String Floats Lia.
Import ListNotations.

Set Warnings "-inexact-float".
Set Warnings "-notation-for-abbreviation".

Local Open Scope float_scope.

(** ** Exceptions *)

Inductive exn : Set :=
| ValueError
| OverflowError
| ZeroDivisionError
| KeyError.

Inductive result (A : Type) : Type :=
| Ok (a : A)
| Raise (e : exn).

Arguments Ok {A} a.
Arguments Raise {A} e.

Definition bind {A B : Type} (r : result A) (k : A -> result B) : result B :=
  match r with
  | Ok a => k a
  | Raise e => Raise e
  end.

Notation "x <- r ;; k" := (bind r (fun x => k))
  (at level 61, r at next level, right associativity).

(** ** Python built-ins on floats *)

Module Py.

(** [max(a, b)]: the first argument is kept unless the second compares
    strictly greater, so a NaN in first position is returned. *)
Definition max2 (a b : float) : float := if a <? b then b else a.

(** [min(a, b)]: the first argument is kept unless the second compares
    strictly smaller. *)
Definition min2 (a b : float) : float := if b <? a then b else a.

(** [max(xs)] and [min(xs)] of a list; the empty list raises [ValueError]. *)
Definition max_list (xs : list float) : result float :=
  match xs with
  | [] => Raise ValueError
  | x :: rest => Ok (fold_left max2 rest x)
  end.

Definition min_list (xs : list float) : result float :=
  match xs with
  | [] => Raise ValueError
  | x :: rest => Ok (fold_left min2 rest x)
  end.

(** [sum(xs)]: the items are added from left to right, starting from [0]
    (CPython up to 3.11; later versions also carry a compensation term for
    the rounding errors of the additions). *)
Definition sum (xs : list float) : float := fold_left add xs 0.

(** Conversion of a Python [int] to [float]: correctly rounded, and an
    [OverflowError] beyond the range of floats. *)
Definition float_of_int (n : Z) : result float :=
  let r := SF2Prim (binary_normalize prec emax n 0 false) in
  if is_infinity r then Raise OverflowError else Ok r.

(** [x / n] for a float [x] and an int [n]; the converted divisor is zero
    exactly when [n] is. *)
Definition div_int (x : float) (n : Z) : result float :=
  f <- float_of_int n ;;
  if (n =? 0)%Z then Raise ZeroDivisionError else Ok (x / f).

(** [x / y] for floats. *)
Definition div (x y : float) : result float :=
  if y =? 0 then Raise ZeroDivisionError else Ok (x / y).

(** [a / b] for two ints: the exact quotient is rounded once, to the nearest
    float; a quotient beyond the range of floats is an [OverflowError]. *)
Definition int_truediv (a b : Z) : result float :=
  match b with
  | Z0 => Raise ZeroDivisionError
  | _ =>
      match a with
      | Z0 => Ok (if (b <? 0)%Z then - 0 else 0)
      | _ =>
          let r :=
            SF2Prim (SFdiv prec emax
                       (S754_finite (a <? 0)%Z (Z.to_pos (Z.abs a)) 0)
                       (S754_finite (b <? 0)%Z (Z.to_pos (Z.abs b)) 0)) in
          if is_infinity r then Raise OverflowError else Ok r
      end
  end.

(** The integer nearest to [m * 2^e * 10^nd], ties to even. *)
Definition scaled_half_even (m : positive) (e : Z) (nd : nat) : Z :=
  let num := (Zpos m * 10 ^ Z.of_nat nd)%Z in
  match e with
  | Zneg p =>
      let den := (2 ^ Zpos p)%Z in
      let q := (num / den)%Z in
      let r := (num mod den)%Z in
      match (2 * r ?= den)%Z with
      | Lt => q
      | Gt => (q + 1)%Z
      | Eq => if Z.even q then q else (q + 1)%Z
      end
  | _ => (num * 2 ^ e)%Z
  end.

(** [round(x, nd)] for [nd >= 0]: [x] is rounded to [nd] decimals on its
    exact value (ties to even), and the decimal obtained is converted to the
    nearest float. *)
Definition round (x : float) (nd : nat) : float :=
  match Prim2SF x with
  | S754_finite s m e =>
      match scaled_half_even m e nd with
      | Zpos n =>
          SF2Prim (SFdiv prec emax (S754_finite s n 0)
                     (S754_finite false (Z.to_pos (10 ^ Z.of_nat nd)) 0))
      | _ => if s then (-0) else 0
      end
  | _ => x
  end.

(** [x ** 2] on a float ([float_pow] with the exponent [2.0]): the special
    cases are decided before the C library is called on [|x|]; the library
    reports a range error when its result is infinite, which is an
    [OverflowError]. *)
Definition pow2 (c_pow : float -> float -> float) (iv : float) : result float :=
  if is_nan iv then Ok iv
  else if is_infinity iv then Ok (abs iv)
  else if iv =? 0 then Ok 0
  else
    let iv := if iv <? 0 then - iv else iv in
    if iv =? 1 then Ok 1
    else
      let ix := c_pow iv 2 in
      if is_infinity ix then Raise OverflowError else Ok ix.

End Py.

(** ** The [math] module *)

Module Math.

Definition pi : float := 0x1.921fb54442d18p+1.

Definition degToRad : float := Eval vm_compute in (pi / 180).

(** [math.isnan] *)
Definition isnan (x : float) : bool := is_nan x.

(** [math.radians] *)
Definition radians (x : float) : float := x * degToRad.

(** The wrapper [math_1] around a one-argument C function that cannot
    overflow: a NaN produced from a number, or an infinity produced from a
    finite number, is a [ValueError] (math domain error). *)
Definition math_1 (func : float -> float) (x : float) : result float :=
  let r := func x in
  if is_nan r && negb (is_nan x) then Raise ValueError
  else if is_infinity r && is_finite x then Raise ValueError
  else Ok r.

(** [math.sqrt]: the square root of the C library is correctly rounded. *)
Definition sqrt (x : float) : result float := math_1 PrimFloat.sqrt x.

Definition copysign (a y : float) : float :=
  if get_sign y then - (abs a) else abs a.

(** [m_atan2]: the special cases CPython settles itself before calling the
    C library. *)
Definition m_atan2 (c_atan2 : float -> float -> float) (y x : float) : float :=
  if is_nan x || is_nan y then nan
  else if is_infinity y then
    if is_infinity x then
      if get_sign x then copysign (0.75 * pi) y else copysign (0.25 * pi) y
    else copysign (0.5 * pi) y
  else if is_infinity x || (y =? 0) then
    if get_sign x then copysign pi y else copysign 0 y
  else c_atan2 y x.

(** The wrapper [math_2] for [math.atan2]. *)
Definition atan2 (c_atan2 : float -> float -> float) (y x : float) : result float :=
  let r := m_atan2 c_atan2 y x in
  if is_nan r then
    if negb (is_nan y) && negb (is_nan x) then Raise ValueError else Ok r
  else if is_infinity r then
    if is_finite y && is_finite x then Raise OverflowError else Ok r
  else Ok r.

End Math.

(** ** Dictionaries with string keys *)

Definition dict : Type := list (string * float).

Fixpoint dict_get (d : dict) (k : string) : result float :=
  match d with
  | [] => Raise KeyError
  | (k', v) :: rest => if String.eqb k' k then Ok v else dict_get rest k
  end.

(** ** The similarity score *)

(** [similarity_component(a, b, rel_cap)] *)
Definition similarity_component_cap (a b rel_cap : float) : result float :=
  if (a =? 0) && (b =? 0) then Ok 1
  else
    let denom := Py.max2 ((a + b) / 2) 1e-9 in
    rel_diff <- Py.div (abs (a - b)) denom ;;
    let rel_diff := Py.min2 rel_diff rel_cap in
    q <- Py.div rel_diff rel_cap ;;
    let sim := 1 - q in
    Ok (Py.max2 0 (Py.min2 1 sim)).

(** [similarity_component(a, b)] with the default [rel_cap = 2.0]. *)
Definition similarity_component (a b : float) : result float :=
  similarity_component_cap a b 2.

Definition weights : dict :=
  [ ("total_distance_km"%string, 0.25);
    ("total_elev_gain_m"%string, 0.25);
    ("km_effort"%string, 0.15);
    ("elev_range_m"%string, 0.10);
    ("avg_grade"%string, 0.10);
    ("steep10_share"%string, 0.10);
    ("sinuosity"%string, 0.05) ].

(** The loop [for key, w in weights.items()] of [compute_similarity_score],
    entered with the running [total]. *)
Fixpoint score_loop (ws : dict) (f1 f2 : dict) (total : float) : result float :=
  match ws with
  | [] => Ok total
  | (key, w) :: rest =>
      a <- dict_get f1 key ;;
      b <- dict_get f2 key ;;
      sim <- similarity_component a b ;;
      score_loop rest f1 f2 (total + w * sim)
  end.

Definition compute_similarity_score (f1 f2 : dict) : result float :=
  total <- score_loop weights f1 f2 0 ;;
  Ok (Py.round (total * 100) 2).

(** ** Feature extraction *)

(** One row of a [*_route_data.csv] table, after [float(...)] of each cell. *)
Record row : Set := mk_row {
  Distance_km : float;
  Elevation_m : float;
  Grade_percent : float;
  Cumulative_Elevation_Gain_m : float;
  Latitude : float;
  Longitude : float
}.

Section Extractor.

(** The C library behind [math.sin], [math.cos], [math.atan2] and [**]. *)
Variables c_sin c_cos : float -> float.
Variables c_atan2 c_pow : float -> float -> float.

(** [haversine(lat1, lon1, lat2, lon2)], operands evaluated left to right. *)
Definition haversine (lat1 lon1 lat2 lon2 : float) : result float :=
  let R := 6371.0 in
  let phi1 := Math.radians lat1 in
  let phi2 := Math.radians lat2 in
  let dphi := Math.radians (lat2 - lat1) in
  let dlmb := Math.radians (lon2 - lon1) in
  s1 <- Math.math_1 c_sin (dphi / 2) ;;
  p1 <- Py.pow2 c_pow s1 ;;
  c1 <- Math.math_1 c_cos phi1 ;;
  c2 <- Math.math_1 c_cos phi2 ;;
  s2 <- Math.math_1 c_sin (dlmb / 2) ;;
  p2 <- Py.pow2 c_pow s2 ;;
  let a := p1 + c1 * c2 * p2 in
  ra <- Math.sqrt a ;;
  rb <- Math.sqrt (1 - a) ;;
  t <- Math.atan2 c_atan2 ra rb ;;
  let c := 2 * t in
  Ok (R * c).

(** [sum((g - avg_grade) ** 2 for g in g_vals)], entered with the running
    sum [acc]. *)
Fixpoint sum_sq_dev (avg_grade : float) (g_vals : list float) (acc : float)
  : result float :=
  match g_vals with
  | [] => Ok acc
  | g :: rest =>
      p <- Py.pow2 c_pow (g - avg_grade) ;;
      sum_sq_dev avg_grade rest (acc + p)
  end.

Definition len {A : Type} (xs : list A) : Z := Z.of_nat (List.length xs).

(** [extract_features], from the rows the CSV reader yields. *)
Definition extract_features (rows : list row) : result dict :=
  let distances := map Distance_km rows in
  let elevations := map Elevation_m rows in
  let grades := map Grade_percent rows in
  let cum_gains := map Cumulative_Elevation_Gain_m rows in
  let lats := map Latitude rows in
  let lons := map Longitude rows in
  match distances with
  | [] => Raise ValueError
  | _ :: _ =>
      total_distance_km <- Py.max_list distances ;;
      total_elev_gain_m <- Py.max_list cum_gains ;;
      max_elev <- Py.max_list elevations ;;
      min_elev <- Py.min_list elevations ;;
      let elevation_range_m := max_elev - min_elev in
      let g_vals := filter (fun g => negb (Math.isnan g)) grades in
      avg_grade <-
        match g_vals with
        | [] => Ok 0
        | _ :: _ => Py.div_int (Py.sum g_vals) (len g_vals)
        end ;;
      var <-
        (if (0 <? len g_vals)%Z then
           sq <- sum_sq_dev avg_grade g_vals 0 ;;
           Py.div_int sq (len g_vals)
         else Ok 0) ;;
      std_grade <- Math.sqrt var ;;
      let uphill_grades := filter (fun g => 0 <? g) g_vals in
      shares <-
        match uphill_grades with
        | [] => Ok (0, 0)
        | _ :: _ =>
            s10 <- Py.int_truediv (len (filter (fun g => 10 <=? g) uphill_grades))
                     (len uphill_grades) ;;
            s20 <- Py.int_truediv (len (filter (fun g => 20 <=? g) uphill_grades))
                     (len uphill_grades) ;;
            Ok (s10, s20)
        end ;;
      let steep10_share := fst shares in
      let steep20_share := snd shares in
      beeline_km <- haversine (hd 0 lats) (hd 0 lons) (last lats 0) (last lons 0) ;;
      sinuosity <-
        (if 0 <? beeline_km then Py.div total_distance_km beeline_km else Ok 1) ;;
      let km_effort := total_distance_km + total_elev_gain_m / 100 in
      Ok [ ("total_distance_km"%string, total_distance_km);
           ("total_elev_gain_m"%string, total_elev_gain_m);
           ("km_effort"%string, km_effort);
           ("max_elev_m"%string, max_elev);
           ("min_elev_m"%string, min_elev);
           ("elev_range_m"%string, elevation_range_m);
           ("avg_grade"%string, avg_grade);
           ("std_grade"%string, std_grade);
           ("steep10_share"%string, steep10_share);
           ("steep20_share"%string, steep20_share);
           ("sinuosity"%string, sinuosity) ]
  end.

End Extractor.

(** ** A stand-in for the C library

    Small-angle approximations of [sin] and [cos], the quotient for [atan2]
    and the product for a square.  They are crude, and serve only to show
    that what the theorems below assume of the C library can be met. *)

Definition small_sin (x : float) : float := x.
Definition small_cos (x : float) : float := 1.
Definition ratio_atan2 (y x : float) : float := y / x.
Definition square_pow (x y : float) : float := x * x.

(** ** Vocabulary of the specification *)

(** The keys the rubric scores. *)
Definition scored_keys : list string := map fst weights.

Definition is_ok {A : Type} (r : result A) : bool :=
  match r with
  | Ok _ => true
  | Raise _ => false
  end.

(** The feature vector [f] has every key of [ks]. *)
Definition has_keys (ks : list string) (f : dict) : Prop :=
  forallb (fun k => is_ok (dict_get f k)) ks = true.

(** A float within [0, 1]. *)
Definition unit_share (s : float) : Prop :=
  (0 <=? s) = true /\ (s <=? 1) = true.

(** A row whose distance and cumulative gain are not negative and whose
    elevation is a finite number. *)
Definition well_formed (r : row) : bool :=
  (0 <=? Distance_km r) && (0 <=? Cumulative_Elevation_Gain_m r)
  && is_finite (Elevation_m r).

(** The invariant of feature vectors. *)
Definition feature_invariant (f : dict) : Prop :=
  exists td tg ke mx mn er s10 s20,
    dict_get f "total_distance_km" = Ok td /\
    dict_get f "total_elev_gain_m" = Ok tg /\
    dict_get f "km_effort" = Ok ke /\
    dict_get f "max_elev_m" = Ok mx /\
    dict_get f "min_elev_m" = Ok mn /\
    dict_get f "elev_range_m" = Ok er /\
    dict_get f "steep10_share" = Ok s10 /\
    dict_get f "steep20_share" = Ok s20 /\
    er = mx - mn /\ (0 <=? er) = true /\
    unit_share s10 /\ unit_share s20 /\
    (0 <=? td) = true /\ (0 <=? tg) = true /\ (0 <=? ke) = true.

(** The two-point route of scenario A. *)
Definition scenario_A : list row :=
  [ mk_row 0 100 0 0 45.0 9.0; mk_row 1.0 200 10.0 100 45.01 9.0 ].

(** The value [similarity_component] returns. *)
Definition similarity_value (a b : float) : float :=
  if (a =? 0) && (b =? 0) then 1
  else
    let denom := Py.max2 ((a + b) / 2) 1e-9 in
    let rel_diff := Py.min2 (abs (a - b) / denom) 2 in
    Py.max2 0 (Py.min2 1 (1 - rel_diff / 2)).

(** The weights left once distance, gain and effort are scored. *)
Definition profile_weights : dict :=
  [ ("elev_range_m"%string, 0.10);
    ("avg_grade"%string, 0.10);
    ("steep10_share"%string, 0.10);
    ("sinuosity"%string, 0.05) ].

(** ** Values of binary64 floats

    The proofs compare floats through their exact values.  A finite float
    [m * 2^e] has [e >= -1074], so its value is an integer number of units
    of [2^-1074]. *)

Notation fexp := (SpecFloat.fexp prec emax).

(** The value of a float, in units of [2^-1074]; zero for what is no number. *)
Definition SFval (x : spec_float) : Z :=
  match x with
  | S754_finite s m e => cond_Zopp s (Zpos m * 2 ^ (e + 1074))
  | _ => 0
  end.

Definition V (x : float) : Z := SFval (Prim2SF x).

(** Zero or a finite number. *)
Definition is_fin (x : spec_float) : bool :=
  match x with
  | S754_zero _ | S754_finite _ _ _ => true
  | _ => false
  end.

Definition Ffin (x : float) : bool := is_fin (Prim2SF x).

(** Zero or a positive finite number. *)
Definition nonneg_sf (x : spec_float) : bool :=
  match x with
  | S754_zero _ => true
  | S754_finite false _ _ => true
  | _ => false
  end.

Definition F0 (x : float) : bool := nonneg_sf (Prim2SF x).

(** A positive finite number. *)
Definition Fpos (x : float) : bool :=
  match Prim2SF x with
  | S754_finite false _ _ => true
  | _ => false
  end.

(** Zero, a positive number or [+infinity]. *)
Definition not_neg (x : spec_float) : bool :=
  match x with
  | S754_zero _ | S754_finite false _ _ | S754_infinity false => true
  | _ => false
  end.

Definition zero_or_nan (x : spec_float) : bool :=
  match x with
  | S754_zero _ | S754_nan => true
  | _ => false
  end.

(** The float built from a mantissa and an exponent once rounding is done. *)
Definition pack (s : bool) (m e : Z) : spec_float :=
  match m with
  | Z0 => S754_zero s
  | Zpos p => if (e <=? emax - prec)%Z then S754_finite s p e else S754_infinity s
  | Zneg _ => S754_nan
  end.

(** Mantissa and exponent [binary_round_aux] ends with; the sign plays no
    part in them. *)
Definition round_me (m e : Z) (l : location) : Z * Z :=
  let '(mrs', e') := shr_fexp prec emax m e l in
  let '(mrs'', e'') :=
    shr_fexp prec emax (round_nearest_even (shr_m mrs') (loc_of_shr_record mrs'))
      e' loc_Exact in
  (shr_m mrs'', e'').

(** Bits were lost by a right shift. *)
Definition inexact (mrs : shr_record) : bool := shr_r mrs || shr_s mrs.

(** ** Bounds on the weighted sum *)

(** [chain ws G Gs]: starting below [G], adding the weights [ws] one by one
    stays below the successive bounds [Gs], in exact arithmetic. *)
Fixpoint chain (ws : list float) (G : float) (Gs : list float) : bool :=
  match ws, Gs with
  | [], [] => true
  | w :: ws', G' :: Gs' =>
      F0 w && F0 G' && (V G + V w <=? V G')%Z && chain ws' G' Gs'
  | _, _ => false
  end.

(** The last bound of a chain. *)
Definition final_bound (Gs : list float) (G : float) : float :=
  fold_left (fun _ g => g) Gs G.

(** Bounds of the partial sums of the seven weights. *)
Definition unit_bounds : list float :=
  [0.250001; 0.500002; 0.650003; 0.750004; 0.850005; 0.950006; 1.000007].

(** Bounds of the partial sums in scenario C, after the first three terms. *)
Definition mismatch_bounds : list float := [0.11351; 0.21352; 0.31353; 0.36354].

(** The float [round] returns for the decimal [n / 100]. *)
Definition centi (n : positive) : float :=
  SF2Prim (SFdiv prec emax (S754_finite false n 0) (S754_finite false 100 0)).

(** Every [n / 100] with [1 <= n <= B] rounds to a float within [0, U]. *)
Definition centis_within (B : Z) (U : float) : bool :=
  forallb (fun k => let r := centi (Pos.of_nat k) in (0 <=? r) && (r <=? U))
          (seq 1 (Z.to_nat B)).

(** ** Sample data *)

(** Feature vectors of a short flat route and of a long mountain route. *)
Definition short_route : dict :=
  [ ("total_distance_km"%string, 1);
    ("total_elev_gain_m"%string, 0);
    ("km_effort"%string, 1);
    ("max_elev_m"%string, 100);
    ("min_elev_m"%string, 100);
    ("elev_range_m"%string, 0);
    ("avg_grade"%string, 0);
    ("std_grade"%string, 0);
    ("steep10_share"%string, 0);
    ("steep20_share"%string, 0);
    ("sinuosity"%string, 1) ].

Definition long_route : dict :=
  [ ("total_distance_km"%string, 50);
    ("total_elev_gain_m"%string, 3000);
    ("km_effort"%string, 80);
    ("max_elev_m"%string, 3200);
    ("min_elev_m"%string, 200);
    ("elev_range_m"%string, 3000);
    ("avg_grade"%string, 6);
    ("std_grade"%string, 4);
    ("steep10_share"%string, 0.25);
    ("steep20_share"%string, 0.05);
    ("sinuosity"%string, 1.4) ].

(** A route that climbs, descends and ends where it started. *)
Definition loop_route : list row :=
  [ mk_row 0 100 0 0 45.0 9.0;
    mk_row 1.0 200 10.0 100 45.01 9.0;
    mk_row 2.0 100 (-10.0) 100 45.0 9.0 ].

(** ** Further vocabulary *)

(** The keys of a feature vector, in the order [extract_features] writes
    them. *)
Definition feature_keys : list string :=
  [ "total_distance_km"; "total_elev_gain_m"; "km_effort"; "max_elev_m";
    "min_elev_m"; "elev_range_m"; "avg_grade"; "std_grade"; "steep10_share";
    "steep20_share"; "sinuosity" ]%string.

(** The row [r] moved to other coordinates. *)
Definition relocate (r : row) (p : float * float) : row :=
  mk_row (Distance_km r) (Elevation_m r) (Grade_percent r)
         (Cumulative_Elevation_Gain_m r) (fst p) (snd p).

(** The short flat route with its scored features alone. *)
Definition short_route_scored : dict :=
  [ ("sinuosity"%string, 1);
    ("steep10_share"%string, 0);
    ("avg_grade"%string, 0);
    ("elev_range_m"%string, 0);
    ("km_effort"%string, 1);
    ("total_elev_gain_m"%string, 0);
    ("total_distance_km"%string, 1) ].

(** A route whose samples carry no grade. *)
Definition ungraded_route : list row :=
  [ mk_row 0 100 nan 0 45.0 9.0; mk_row 1.0 200 nan 100 45.01 9.0 ].

(** ** Positions of exact values

    [located m l N D]: the fraction [N / D] lies in [[m, m + 1)], at the
    place the location [l] tells: on [m], below the middle, on the middle
    or above it. *)
Definition located (m : Z) (l : location) (N D : Z) : Prop :=
  (m * D <= N < (m + 1) * D)%Z /\
  match l with
  | loc_Exact => N = (m * D)%Z
  | loc_Inexact Lt => (m * D < N /\ 2 * N < (2 * m + 1) * D)%Z
  | loc_Inexact Eq => (2 * N = (2 * m + 1) * D)%Z
  | loc_Inexact Gt => ((2 * m + 1) * D < 2 * N)%Z
  end.

(** * Rounding of binary64 numbers

    What follows relates the result of [binary_round_aux], the rounding step
    shared by the arithmetic operations of [SpecFloat], to the exact value it
    rounds: the result is valid, and it stays on the same side of every
    binary64 number as the exact value. *)

Local Open Scope Z_scope.

(** *** Binary digits *)

Lemma digits2_pos_bounds (p : positive) :
  2 ^ (Zpos (digits2_pos p) - 1) <= Zpos p < 2 ^ Zpos (digits2_pos p).
Proof.
  induction p as [p IH | p IH | ]; cbn [digits2_pos].
  - rewrite Pos2Z.inj_succ.
    replace (Z.succ (Zpos (digits2_pos p)) - 1) with (Z.succ (Zpos (digits2_pos p) - 1)) by lia.
    rewrite !Z.pow_succ_r by lia. lia.
  - rewrite Pos2Z.inj_succ.
    replace (Z.succ (Zpos (digits2_pos p)) - 1) with (Z.succ (Zpos (digits2_pos p) - 1)) by lia.
    rewrite !Z.pow_succ_r by lia. lia.
  - cbn. lia.
Qed.

Lemma Zdigits2_nonneg (m : Z) : 0 <= Zdigits2 m.
Proof. destruct m; cbn; lia. Qed.

Lemma Zdigits2_bounds (m : Z) :
  0 < m -> 2 ^ (Zdigits2 m - 1) <= m < 2 ^ Zdigits2 m.
Proof.
  destruct m as [ | p | p]; try lia. intros _. apply digits2_pos_bounds.
Qed.

Lemma Zdigits2_unique (m k : Z) :
  2 ^ (k - 1) <= m < 2 ^ k -> 0 < m -> Zdigits2 m = k.
Proof.
  intros [Hl Hu] Hm.
  destruct (Zdigits2_bounds m Hm) as [Dl Du].
  pose proof (Zdigits2_nonneg m) as Dn.
  assert (Hk : 0 < k).
  { destruct (Z_lt_le_dec 0 k) as [ | Hk0]; [assumption | ].
    destruct (Z.eq_dec k 0) as [-> | ]; [cbn in Hu; lia | ].
    rewrite Z.pow_neg_r in Hu by lia. lia. }
  destruct (Z.lt_trichotomy (Zdigits2 m) k) as [Hlt | [Heq | Hgt]]; [ | assumption | ].
  - assert (2 ^ Zdigits2 m <= 2 ^ (k - 1)) by (apply Z.pow_le_mono_r; lia). lia.
  - assert (2 ^ k <= 2 ^ (Zdigits2 m - 1)) by (apply Z.pow_le_mono_r; lia). lia.
Qed.

Lemma Zdigits2_le (a b : Z) : 0 <= a <= b -> Zdigits2 a <= Zdigits2 b.
Proof.
  intros [Ha Hab].
  destruct (Z.eq_dec a 0) as [-> | Hne]; [apply Zdigits2_nonneg | ].
  destruct (Zdigits2_bounds a ltac:(lia)) as [Al Au].
  destruct (Zdigits2_bounds b ltac:(lia)) as [Bl Bu].
  destruct (Z_lt_le_dec (Zdigits2 b) (Zdigits2 a)) as [Hlt | ]; [ | assumption].
  assert (2 ^ Zdigits2 b <= 2 ^ (Zdigits2 a - 1)) by (apply Z.pow_le_mono_r; lia). lia.
Qed.

Lemma Zdigits2_lt_pow (m k : Z) : 0 <= m -> 0 <= k -> Zdigits2 m <= k -> m < 2 ^ k.
Proof.
  intros Hm Hk Hd.
  destruct (Z.eq_dec m 0) as [-> | Hne]; [apply Z.pow_pos_nonneg; lia | ].
  destruct (Zdigits2_bounds m ltac:(lia)) as [_ Hu].
  assert (2 ^ Zdigits2 m <= 2 ^ k) by (apply Z.pow_le_mono_r; lia). lia.
Qed.

Lemma Zdigits2_ge_pow (m k : Z) : 0 <= k -> 2 ^ k <= m -> k < Zdigits2 m.
Proof.
  intros Hk Hm.
  assert (0 < 2 ^ k) by (apply Z.pow_pos_nonneg; lia).
  destruct (Zdigits2_bounds m ltac:(lia)) as [_ Hu].
  destruct (Z_lt_le_dec k (Zdigits2 m)) as [ | Hle]; [assumption | ].
  assert (2 ^ Zdigits2 m <= 2 ^ k) by (apply Z.pow_le_mono_r; [lia | lia]). lia.
Qed.

Lemma Zdigits2_div_pow (m n : Z) :
  0 <= m -> 0 <= n -> Zdigits2 (m / 2 ^ n) = Z.max 0 (Zdigits2 m - n).
Proof.
  intros Hm Hn.
  assert (Hp : 0 < 2 ^ n) by (apply Z.pow_pos_nonneg; lia).
  destruct (Z.eq_dec m 0) as [-> | Hne].
  { rewrite Z.div_0_l by lia. cbn. lia. }
  destruct (Zdigits2_bounds m ltac:(lia)) as [Ml Mu].
  pose proof (Zdigits2_nonneg m) as Dn.
  destruct (Z_lt_le_dec n (Zdigits2 m)) as [Hlt | Hge].
  - rewrite Z.max_r by lia.
    apply Zdigits2_unique.
    + replace (Zdigits2 m) with ((Zdigits2 m - n) + n) in Mu by lia.
      replace (Zdigits2 m - 1) with ((Zdigits2 m - n - 1) + n) in Ml by lia.
      rewrite Z.pow_add_r in Mu, Ml by lia.
      split.
      * apply Z.div_le_lower_bound; lia.
      * apply Z.div_lt_upper_bound; lia.
    + apply Z.div_str_pos. split; [assumption | ].
      assert (2 ^ n <= 2 ^ (Zdigits2 m - 1)) by (apply Z.pow_le_mono_r; lia). lia.
  - rewrite Z.max_l by lia.
    rewrite Z.div_small; [reflexivity | ].
    split; [lia | ].
    assert (2 ^ Zdigits2 m <= 2 ^ n) by (apply Z.pow_le_mono_r; lia). lia.
Qed.

(** *** Right shifts *)

Lemma iter_pos_nat {A : Type} (f : A -> A) (p : positive) (x : A) :
  iter_pos f p x = Nat.iter (Pos.to_nat p) f x.
Proof.
  revert x. induction p as [p IH | p IH | ]; intro x; cbn [iter_pos].
  - rewrite !IH, Pos2Nat.inj_xI.
    replace (S (2 * Pos.to_nat p)) with (Pos.to_nat p + (Pos.to_nat p + 1))%nat by lia.
    rewrite !Nat.iter_add. reflexivity.
  - rewrite !IH, Pos2Nat.inj_xO.
    replace (2 * Pos.to_nat p)%nat with (Pos.to_nat p + Pos.to_nat p)%nat by lia.
    rewrite Nat.iter_add. reflexivity.
  - reflexivity.
Qed.

Lemma shr_1_m (mrs : shr_record) : 0 <= shr_m mrs -> shr_m (shr_1 mrs) = shr_m mrs / 2.
Proof.
  destruct mrs as [m r s]. cbn [shr_m]. intro Hm.
  destruct m as [ | [p | p | ] | p]; cbn [shr_1 shr_m]; try lia; try reflexivity.
  - apply Z.div_unique with (r := 1); lia.
  - apply Z.div_unique with (r := 0); lia.
Qed.

Lemma shr_1_inexact (mrs : shr_record) :
  0 <= shr_m mrs ->
  inexact (shr_1 mrs) = true -> inexact mrs = true \/ shr_m mrs mod 2 <> 0.
Proof.
  destruct mrs as [m r s]. unfold inexact. cbn [shr_m shr_r shr_s]. intro Hm.
  destruct m as [ | [p | p | ] | p]; cbn [shr_1 shr_r shr_s];
    try lia; cbn [orb]; auto; intros _; right.
  - rewrite Pos2Z.inj_xI, Z.add_comm, Z.mul_comm, Z_mod_plus_full. cbn. lia.
  - cbn. lia.
Qed.

Lemma shr_iter_spec (k : nat) (mrs : shr_record) :
  0 <= shr_m mrs ->
  shr_m (Nat.iter k shr_1 mrs) = shr_m mrs / 2 ^ Z.of_nat k /\
  (inexact (Nat.iter k shr_1 mrs) = true ->
   inexact mrs = true \/ shr_m mrs mod 2 ^ Z.of_nat k <> 0).
Proof.
  intro Hm. induction k as [ | k [IHm IHi]].
  - change (Nat.iter 0 shr_1 mrs) with mrs.
    change (Z.of_nat 0) with 0. rewrite Z.pow_0_r, Z.div_1_r. auto.
  - change (Nat.iter (S k) shr_1 mrs) with (shr_1 (Nat.iter k shr_1 mrs)).
    assert (Hp : 0 < 2 ^ Z.of_nat k) by (apply Z.pow_pos_nonneg; lia).
    assert (Hq : 0 <= shr_m (Nat.iter k shr_1 mrs)).
    { rewrite IHm. apply Z.div_pos; lia. }
    rewrite Nat2Z.inj_succ, Z.pow_succ_r by lia.
    split.
    + rewrite shr_1_m, IHm by assumption.
      rewrite Z.div_div by lia. f_equal. lia.
    + intro Hi. apply shr_1_inexact in Hi; [ | assumption].
      pose proof (Z.mod_pos_bound (shr_m mrs) (2 ^ Z.of_nat k) Hp).
      pose proof (Z.mod_pos_bound (shr_m mrs / 2 ^ Z.of_nat k) 2 ltac:(lia)).
      rewrite (Z.mul_comm 2), Z.rem_mul_r by lia.
      destruct Hi as [Hi | Hi].
      * destruct (IHi Hi) as [ | Hr]; [auto | ]. right. nia.
      * right. rewrite IHm in Hi. nia.
Qed.

(** [shr] truncates the mantissa and remembers whether bits were lost. *)
Lemma shr_spec (mrs : shr_record) (e n : Z) :
  0 <= shr_m mrs ->
  let n' := Z.max 0 n in
  shr_m (fst (shr mrs e n)) = shr_m mrs / 2 ^ n' /\
  snd (shr mrs e n) = e + n' /\
  (inexact (fst (shr mrs e n)) = true ->
   inexact mrs = true \/ shr_m mrs mod 2 ^ n' <> 0).
Proof.
  intros Hm n'. subst n'. destruct n as [ | p | p]; cbn [shr fst snd].
  - rewrite Z.max_l, Z.pow_0_r, Z.div_1_r, Z.add_0_r by lia. auto.
  - rewrite Z.max_r by lia. rewrite iter_pos_nat.
    destruct (shr_iter_spec (Pos.to_nat p) mrs Hm) as [Hs Hi].
    rewrite positive_nat_Z in Hs, Hi. auto.
  - rewrite Z.max_l, Z.pow_0_r, Z.div_1_r, Z.add_0_r by lia. auto.
Qed.

Lemma round_nearest_even_bounds (m : Z) (l : location) :
  m <= round_nearest_even m l <= m + 1.
Proof.
  destruct l as [ | [ | | ]]; cbn [round_nearest_even]; try lia.
  destruct (Z.even m); lia.
Qed.

Lemma round_nearest_even_exact (mrs : shr_record) :
  inexact mrs = false ->
  round_nearest_even (shr_m mrs) (loc_of_shr_record mrs) = shr_m mrs.
Proof.
  destruct mrs as [m [ | ] [ | ]]; cbn; congruence.
Qed.

Lemma inexact_record_of_loc (m : Z) (l : location) :
  inexact (shr_record_of_loc m l) = true -> l <> loc_Exact.
Proof. destruct l as [ | [ | | ]]; cbn; congruence. Qed.

Lemma shr_m_record_of_loc (m : Z) (l : location) : shr_m (shr_record_of_loc m l) = m.
Proof. destruct l as [ | [ | | ]]; reflexivity. Qed.

(** *** The rounding step [binary_round_aux] *)

Lemma binary_round_aux_cases (s : bool) (m e : Z) (l : location) :
  0 <= m ->
  let n := Z.max 0 (fexp (Zdigits2 m + e) - e) in
  exists m1 : Z,
    m / 2 ^ n <= m1 <= m / 2 ^ n + 1 /\
    (m1 = m / 2 ^ n + 1 -> l <> loc_Exact \/ m mod 2 ^ n <> 0) /\
    let n2 := Z.max 0 (fexp (Zdigits2 m1 + (e + n)) - (e + n)) in
    binary_round_aux prec emax s m e l = pack s (m1 / 2 ^ n2) (e + n + n2).
Proof.
  intros Hm n.
  unfold binary_round_aux, shr_fexp.
  pose proof (shr_spec (shr_record_of_loc m l) e (fexp (Zdigits2 m + e) - e)) as H1.
  rewrite shr_m_record_of_loc in H1. specialize (H1 Hm). cbv zeta in H1.
  fold n in H1.
  destruct (shr (shr_record_of_loc m l) e (fexp (Zdigits2 m + e) - e)) as [mrs' e'].
  cbn [fst snd] in H1. destruct H1 as (Hm' & He' & Hi').
  set (m1 := round_nearest_even (shr_m mrs') (loc_of_shr_record mrs')).
  assert (Hp : 0 < 2 ^ n) by (apply Z.pow_pos_nonneg; lia).
  assert (Hm'0 : 0 <= shr_m mrs') by (rewrite Hm'; apply Z.div_pos; lia).
  pose proof (round_nearest_even_bounds (shr_m mrs') (loc_of_shr_record mrs')) as Hb.
  fold m1 in Hb.
  exists m1. rewrite <- Hm'. split; [exact Hb | ]. split.
  - intro H1. destruct (inexact mrs') eqn:Ei.
    + destruct (Hi' eq_refl) as [Hl | Hr]; [left | right; assumption].
      apply inexact_record_of_loc in Hl. assumption.
    + apply round_nearest_even_exact in Ei. fold m1 in Ei. lia.
  - pose proof (shr_spec (shr_record_of_loc m1 loc_Exact) e' (fexp (Zdigits2 m1 + e') - e')) as H2.
    rewrite shr_m_record_of_loc in H2. specialize (H2 ltac:(lia)). cbv zeta in H2.
    destruct (shr (shr_record_of_loc m1 loc_Exact) e' (fexp (Zdigits2 m1 + e') - e')) as [mrs'' e''].
    cbn [fst snd] in H2. destruct H2 as (Hm'' & He'' & _).
    subst e'. cbv zeta. rewrite Hm'', He''. reflexivity.
Qed.

(** Facts on [fexp] for binary64. *)
Lemma fexp_ge_emin (x : Z) : -1074 <= fexp x.
Proof. unfold SpecFloat.fexp, SpecFloat.emin. cbn. lia. Qed.

Lemma fexp_spec (x : Z) : fexp x = Z.max (x - 53) (-1074).
Proof. reflexivity. Qed.

(** After a shift to the exponent [fexp], the mantissa fits the precision,
    and it is normal above the least exponent. *)
Lemma shifted_digits (m e : Z) :
  0 <= m -> e <= fexp (Zdigits2 m + e) ->
  let n := fexp (Zdigits2 m + e) - e in
  Zdigits2 (m / 2 ^ n) <= 53 /\
  (-1074 < e + n -> 0 < m -> Zdigits2 (m / 2 ^ n) = 53).
Proof.
  intros Hm He n. subst n.
  pose proof (Zdigits2_nonneg m) as Hd.
  rewrite Zdigits2_div_pow by lia.
  rewrite fexp_spec in *. split; lia.
Qed.

Lemma Zdigits2_mul_pow (m k : Z) :
  0 < m -> 0 <= k -> Zdigits2 (m * 2 ^ k) = Zdigits2 m + k.
Proof.
  intros Hm Hk.
  destruct (Zdigits2_bounds m Hm) as [Ml Mu].
  assert (Hp : 0 < 2 ^ k) by (apply Z.pow_pos_nonneg; lia).
  assert (Hd : 0 < Zdigits2 m).
  { destruct m; cbn in *; lia. }
  apply Zdigits2_unique; [ | nia].
  replace (Zdigits2 m + k - 1) with ((Zdigits2 m - 1) + k) by lia.
  rewrite !Z.pow_add_r by lia. nia.
Qed.

(** What [bounded] says of a binary64 mantissa and exponent. *)
Lemma bounded_inv (m : positive) (e : Z) :
  bounded prec emax m e = true ->
  -1074 <= e <= 971 /\ Zdigits2 (Zpos m) <= 53 /\
  (-1074 < e -> Zdigits2 (Zpos m) = 53).
Proof.
  unfold bounded, canonical_mantissa. rewrite andb_true_iff, Z.eqb_eq, Z.leb_le.
  rewrite fexp_spec. cbn [Zdigits2]. change (emax - prec) with 971. lia.
Qed.

Lemma bounded_lt_pow (m : positive) (e : Z) :
  bounded prec emax m e = true -> Zpos m < 2 ^ 53.
Proof.
  intro H. apply bounded_inv in H. apply Zdigits2_lt_pow; lia.
Qed.

Lemma bounded_normal (m : positive) (e : Z) :
  bounded prec emax m e = true -> -1074 < e -> 2 ^ 52 <= Zpos m.
Proof.
  intros H He. apply bounded_inv in H. destruct H as (_ & _ & Hd).
  specialize (Hd He).
  destruct (Zdigits2_bounds (Zpos m) ltac:(lia)) as [Hl _].
  rewrite Hd in Hl. exact Hl.
Qed.

Lemma SFleb_pack (m e : Z) (mg : positive) (eg : Z) :
  0 <= m -> e <= eg -> eg <= 971 -> (e = eg -> m <= Zpos mg) ->
  SFleb (pack false m e) (S754_finite false mg eg) = true /\
  nonneg_sf (pack false m e) = true.
Proof.
  intros Hm He Hg Hmg. unfold pack.
  destruct m as [ | p | p]; [split; reflexivity | | lia].
  change (emax - prec) with 971.
  destruct (Z.leb_spec e 971) as [_ | ]; [ | lia].
  split; [ | reflexivity].
  unfold SFleb, SFcompare.
  destruct (Z.compare_spec e eg) as [Heq | Hlt | Hgt]; [ | reflexivity | lia].
  specialize (Hmg Heq).
  rewrite Pos.compare_cont_spec. cbn [Pos.switch_Eq].
  destruct (Pos.compare_spec p mg); [reflexivity | reflexivity | lia].
Qed.

(** Rounding stays below every binary64 number that bounds the exact value
    [N / D * 2^e] from above.  The mantissa [m] is the integer part of
    [N / D]; the exponents are compared after a shift by [O]. *)
Lemma binary_round_aux_upper (m e : Z) (l : location) (N D O : Z)
    (mg : positive) (eg : Z) :
  0 <= m -> e <= fexp (Zdigits2 m + e) ->
  0 < D -> m * D <= N -> (l <> loc_Exact -> m * D < N) ->
  0 <= e + O -> 0 <= eg + O ->
  bounded prec emax mg eg = true ->
  N * 2 ^ (e + O) <= D * Zpos mg * 2 ^ (eg + O) ->
  SFleb (binary_round_aux prec emax false m e l) (S754_finite false mg eg) = true /\
  nonneg_sf (binary_round_aux prec emax false m e l) = true.
Proof.
  intros Hm Hcan HD HmN Hloc HeO HgO Hb Hle.
  destruct (binary_round_aux_cases false m e l Hm) as (m1 & Hm1 & Hup & Hres).
  cbv zeta in Hres. rewrite Hres. clear Hres.
  set (n := fexp (Zdigits2 m + e) - e) in *.
  rewrite (Z.max_r 0 n) in * by lia.
  assert (Hn : 0 <= n) by lia.
  set (e' := e + n) in *.
  set (m' := m / 2 ^ n) in *.
  assert (Hpn : 0 < 2 ^ n) by (apply Z.pow_pos_nonneg; lia).
  assert (Hu : 0 < 2 ^ (e + O)) by (apply Z.pow_pos_nonneg; lia).
  assert (Hm'0 : 0 <= m') by (apply Z.div_pos; lia).
  assert (Hfl : m' * 2 ^ n <= m).
  { unfold m'. rewrite Z.mul_comm. apply Z.mul_div_le. lia. }
  assert (Hfl' : m mod 2 ^ n <> 0 -> m' * 2 ^ n < m).
  { intro Hr. unfold m'. pose proof (Z.div_mod m (2 ^ n) ltac:(lia)).
    pose proof (Z.mod_pos_bound m (2 ^ n) Hpn). nia. }
  pose proof (bounded_inv mg eg Hb) as (Heg & Hdg & Hng).
  pose proof (bounded_lt_pow mg eg Hb) as Hmg.
  destruct (Z_le_gt_dec e' eg) as [HA | HB].
  - (* the bound is a multiple of the unit of the result *)
    set (K := Zpos mg * 2 ^ (eg - e')).
    assert (HpK : 0 < 2 ^ (eg - e')) by (apply Z.pow_pos_nonneg; lia).
    assert (HN : N <= D * (K * 2 ^ n)).
    { apply (Z.mul_le_mono_pos_r _ _ (2 ^ (e + O))); [assumption | ].
      assert (Hx : 2 ^ (eg + O) = 2 ^ (eg - e') * 2 ^ n * 2 ^ (e + O)).
      { rewrite <- !Z.pow_add_r by lia. f_equal. unfold e'. lia. }
      rewrite Hx in Hle. unfold K. lia. }
    assert (HK : m1 <= K).
    { destruct (Z.eq_dec m1 (m' + 1)) as [H1 | H1].
      - assert (Hs : m' * 2 ^ n * D < N).
        { destruct (Hup H1) as [Hl | Hr].
          - specialize (Hloc Hl). nia.
          - specialize (Hfl' Hr). nia. }
        assert (Hlt : m' * (2 ^ n * D) < K * (2 ^ n * D)).
        { replace (m' * (2 ^ n * D)) with (m' * 2 ^ n * D) by ring.
          replace (K * (2 ^ n * D)) with (D * (K * 2 ^ n)) by ring. lia. }
        apply Z.mul_lt_mono_pos_r in Hlt; [lia | nia].
      - assert (Hle' : m' * (2 ^ n * D) <= K * (2 ^ n * D)).
        { replace (m' * (2 ^ n * D)) with (m' * 2 ^ n * D) by ring.
          replace (K * (2 ^ n * D)) with (D * (K * 2 ^ n)) by ring. nia. }
        apply Z.mul_le_mono_pos_r in Hle'; [lia | nia]. }
    set (n2 := Z.max 0 (fexp (Zdigits2 m1 + e') - e')).
    assert (Hd1 : Zdigits2 m1 <= 53 + (eg - e')).
    { transitivity (Zdigits2 K); [apply Zdigits2_le; lia | ].
      unfold K. rewrite Zdigits2_mul_pow by lia. lia. }
    assert (Hn2 : 0 <= n2 <= eg - e').
    { unfold n2. rewrite fexp_spec. lia. }
    assert (Hpn2 : 0 < 2 ^ n2) by (apply Z.pow_pos_nonneg; lia).
    apply SFleb_pack; try lia.
    + apply Z.div_pos; lia.
    + intro Heq. assert (Hn2' : n2 = eg - e') by lia.
      rewrite Hn2'. apply Z.div_le_upper_bound; [lia | ].
      unfold K in HK. lia.
  - (* the bound has a smaller exponent: it is below the truncated value *)
    exfalso.
    assert (Hmpos : 0 < m).
    { destruct (Z.eq_dec m 0) as [H0 | ]; [ | lia].
      subst m. unfold e', n in HB. cbn [Zdigits2] in *. rewrite fexp_spec in *. lia. }
    destruct (shifted_digits m e Hm Hcan) as [_ Hnorm].
    fold n in Hnorm. fold e' in Hnorm. fold m' in Hnorm.
    specialize (Hnorm ltac:(lia) Hmpos).
    assert (Hm'52 : 2 ^ 52 <= m').
    { assert (0 < m').
      { destruct (Z.eq_dec m' 0) as [H0 | ]; [ | lia]. rewrite H0 in Hnorm. cbn in Hnorm. lia. }
      pose proof (Zdigits2_bounds m' ltac:(lia)) as [Hl _]. rewrite Hnorm in Hl. exact Hl. }
    assert (HpB : 0 < 2 ^ (eg + O)) by (apply Z.pow_pos_nonneg; lia).
    assert (Hexp : 2 ^ (e + O) * 2 ^ n = 2 ^ (e' - eg - 1) * 2 * 2 ^ (eg + O)).
    { rewrite <- Z.pow_add_r by lia.
      replace (e + O + n) with ((e' - eg - 1) + 1 + (eg + O)) by (unfold e'; lia).
      rewrite (Z.pow_add_r 2 (e' - eg - 1 + 1)), (Z.pow_add_r 2 (e' - eg - 1)) by lia.
      reflexivity. }
    assert (Hq : 0 < 2 ^ (e' - eg - 1)) by (apply Z.pow_pos_nonneg; lia).
    assert (H1 : 2 ^ 52 * 2 ^ n * D * 2 ^ (e + O) <= N * 2 ^ (e + O)).
    { apply Z.mul_le_mono_nonneg_r; [lia | ].
      transitivity (m * D); [ | assumption].
      apply Z.mul_le_mono_nonneg_r; [lia | ].
      transitivity (m' * 2 ^ n); [ | assumption].
      apply Z.mul_le_mono_nonneg_r; lia. }
    assert (H2 : D * Zpos mg * 2 ^ (eg + O) < D * 2 ^ 53 * 2 ^ (eg + O)).
    { apply Z.mul_lt_mono_pos_r; [assumption | ].
      apply Z.mul_lt_mono_pos_l; assumption. }
    assert (H3 : D * 2 ^ 53 * 2 ^ (eg + O) <= 2 ^ 52 * 2 ^ n * D * 2 ^ (e + O)).
    { replace (2 ^ 52 * 2 ^ n * D * 2 ^ (e + O)) with (D * 2 ^ 52 * (2 ^ (e + O) * 2 ^ n)) by ring.
      rewrite Hexp. change (2 ^ 53) with (2 ^ 52 * 2).
      replace (D * 2 ^ 52 * (2 ^ (e' - eg - 1) * 2 * 2 ^ (eg + O)))
        with (2 ^ (e' - eg - 1) * (D * (2 ^ 52 * 2) * 2 ^ (eg + O))) by ring.
      assert (0 <= D * (2 ^ 52 * 2) * 2 ^ (eg + O)) by (apply Z.mul_nonneg_nonneg; lia).
      nia. }
    lia.
Qed.

(** *** The value of a binary64 float, in units of [2^-1074] *)

Lemma pos_val_lt (m1 : positive) (e1 : Z) (m2 : positive) (e2 : Z) :
  bounded prec emax m1 e1 = true -> bounded prec emax m2 e2 = true ->
  e1 < e2 -> Zpos m1 * 2 ^ (e1 + 1074) < Zpos m2 * 2 ^ (e2 + 1074).
Proof.
  intros H1 H2 He.
  pose proof (bounded_lt_pow m1 e1 H1) as Hm1.
  pose proof (bounded_inv m1 e1 H1) as (He1 & _).
  pose proof (bounded_normal m2 e2 H2 ltac:(lia)) as Hm2.
  assert (Hx : 2 ^ (e2 + 1074) = 2 ^ (e2 - e1 - 1) * 2 * 2 ^ (e1 + 1074)).
  { replace (e2 + 1074) with ((e2 - e1 - 1) + 1 + (e1 + 1074)) by lia.
    rewrite (Z.pow_add_r 2 (e2 - e1 - 1 + 1)), (Z.pow_add_r 2 (e2 - e1 - 1)) by lia.
    reflexivity. }
  rewrite Hx.
  assert (Hp : 0 < 2 ^ (e1 + 1074)) by (apply Z.pow_pos_nonneg; lia).
  assert (Hq : 0 < 2 ^ (e2 - e1 - 1)) by (apply Z.pow_pos_nonneg; lia).
  change (2 ^ 53) with (2 ^ 52 * 2) in Hm1.
  apply Z.lt_le_trans with (2 ^ 52 * 2 * 2 ^ (e1 + 1074)).
  - apply Z.mul_lt_mono_pos_r; assumption.
  - replace (Zpos m2 * (2 ^ (e2 - e1 - 1) * 2 * 2 ^ (e1 + 1074)))
      with (Zpos m2 * 2 ^ (e2 - e1 - 1) * (2 * 2 ^ (e1 + 1074))) by ring.
    replace (2 ^ 52 * 2 * 2 ^ (e1 + 1074)) with (2 ^ 52 * (2 * 2 ^ (e1 + 1074))) by ring.
    apply Z.mul_le_mono_nonneg_r; [lia | ]. nia.
Qed.

Lemma pos_compare (m1 : positive) (e1 : Z) (m2 : positive) (e2 : Z) :
  bounded prec emax m1 e1 = true -> bounded prec emax m2 e2 = true ->
  match e1 ?= e2 with
  | Lt => Lt
  | Gt => Gt
  | Eq => Pos.compare_cont Eq m1 m2
  end = (Zpos m1 * 2 ^ (e1 + 1074) ?= Zpos m2 * 2 ^ (e2 + 1074)).
Proof.
  intros H1 H2. symmetry.
  destruct (Z.compare_spec e1 e2) as [Heq | Hlt | Hgt].
  - subst e2. pose proof (bounded_inv m1 e1 H1) as (He1 & _).
    assert (Hp : 0 < 2 ^ (e1 + 1074)) by (apply Z.pow_pos_nonneg; lia).
    change (Pos.compare_cont Eq m1 m2) with (Zpos m1 ?= Zpos m2).
    symmetry. apply Zmult_compare_compat_r. lia.
  - apply Z.compare_lt_iff. apply pos_val_lt; assumption.
  - apply Z.compare_gt_iff. apply pos_val_lt; assumption.
Qed.

(** On valid finite floats [SFcompare] is the comparison of the values. *)
Lemma SFcompare_val (x y : spec_float) :
  valid_binary x = true -> valid_binary y = true ->
  is_fin x = true -> is_fin y = true ->
  SFcompare x y = Some (SFval x ?= SFval y).
Proof.
  intros Vx Vy Fx Fy.
  destruct x as [sx | sx | | sx mx ex]; try discriminate;
    destruct y as [sy | sy | | sy my ey]; try discriminate;
    cbn [SFcompare SFval].
  - reflexivity.
  - assert (0 < Zpos my * 2 ^ (ey + 1074)).
    { pose proof (bounded_inv my ey Vy). apply Z.mul_pos_pos; [lia | ].
      apply Z.pow_pos_nonneg; lia. }
    destruct sy; cbn [cond_Zopp]; f_equal; symmetry.
    + apply Z.compare_gt_iff. lia.
    + apply Z.compare_lt_iff. lia.
  - assert (0 < Zpos mx * 2 ^ (ex + 1074)).
    { pose proof (bounded_inv mx ex Vx). apply Z.mul_pos_pos; [lia | ].
      apply Z.pow_pos_nonneg; lia. }
    destruct sx; cbn [cond_Zopp]; f_equal; symmetry.
    + apply Z.compare_lt_iff. lia.
    + apply Z.compare_gt_iff. lia.
  - assert (0 < Zpos mx * 2 ^ (ex + 1074)).
    { pose proof (bounded_inv mx ex Vx). apply Z.mul_pos_pos; [lia | ].
      apply Z.pow_pos_nonneg; lia. }
    assert (0 < Zpos my * 2 ^ (ey + 1074)).
    { pose proof (bounded_inv my ey Vy). apply Z.mul_pos_pos; [lia | ].
      apply Z.pow_pos_nonneg; lia. }
    cbn [valid_binary] in Vx, Vy.
    destruct sx, sy; cbn [cond_Zopp]; f_equal.
    + rewrite Z.compare_opp, <- (pos_compare my ey mx ex Vy Vx).
      rewrite (Z.compare_antisym ex ey), (ZC4 my mx).
      destruct (ex ?= ey); reflexivity.
    + symmetry. apply Z.compare_lt_iff. lia.
    + symmetry. apply Z.compare_gt_iff. lia.
    + apply pos_compare; assumption.
Qed.

(** *** Left alignment *)

Lemma shl_align_spec (m : positive) (e t : Z) :
  snd (shl_align m e t) = Z.min e t /\
  Zpos (fst (shl_align m e t)) = Zpos m * 2 ^ (e - Z.min e t).
Proof.
  unfold shl_align.
  destruct (t - e) as [ | d | d] eqn:Hd; cbn [fst snd].
  - rewrite Z.min_l by lia. rewrite Z.sub_diag. cbn. lia.
  - rewrite Z.min_l by lia. rewrite Z.sub_diag. cbn. lia.
  - rewrite Z.min_r by lia. split; [reflexivity | ].
    change (Pos.iter xO m d) with (shift_pos d m).
    rewrite shift_pos_correct.
    replace (e - t) with (Zpos d) by lia.
    change (Z.pow_pos 2 d) with (2 ^ Zpos d). lia.
Qed.

(** *** Multiplication *)

Lemma Zdigits2_mul_ge (a b : Z) :
  0 < a -> 0 < b -> Zdigits2 a + Zdigits2 b - 1 <= Zdigits2 (a * b).
Proof.
  intros Ha Hb.
  destruct (Zdigits2_bounds a Ha) as [Al _].
  destruct (Zdigits2_bounds b Hb) as [Bl _].
  assert (0 < Zdigits2 a) by (destruct a; cbn in *; lia).
  assert (0 < Zdigits2 b) by (destruct b; cbn in *; lia).
  assert (H2 : 2 ^ (Zdigits2 a - 1 + (Zdigits2 b - 1)) <= a * b).
  { rewrite Z.pow_add_r by lia.
    assert (0 < 2 ^ (Zdigits2 a - 1)) by (apply Z.pow_pos_nonneg; lia).
    assert (0 < 2 ^ (Zdigits2 b - 1)) by (apply Z.pow_pos_nonneg; lia).
    nia. }
  apply Zdigits2_ge_pow in H2; lia.
Qed.

Lemma SFmul_upper (mx : positive) (ex : Z) (my : positive) (ey : Z)
    (mg : positive) (eg : Z) :
  bounded prec emax mx ex = true -> bounded prec emax my ey = true ->
  bounded prec emax mg eg = true ->
  (Zpos mx * 2 ^ (ex + 1074)) * (Zpos my * 2 ^ (ey + 1074))
    <= Zpos mg * 2 ^ (eg + 1074) * 2 ^ 1074 ->
  SFleb (SFmul prec emax (S754_finite false mx ex) (S754_finite false my ey))
        (S754_finite false mg eg) = true /\
  nonneg_sf (SFmul prec emax (S754_finite false mx ex) (S754_finite false my ey)) = true.
Proof.
  intros Hx Hy Hg Hle. cbn [SFmul xorb].
  pose proof (bounded_inv mx ex Hx) as (Hex & Hdx & Hnx).
  pose proof (bounded_inv my ey Hy) as (Hey & Hdy & Hny).
  pose proof (bounded_inv mg eg Hg) as (Heg & _).
  apply binary_round_aux_upper with (N := Zpos (mx * my)) (D := 1) (O := 2148);
    try lia; try assumption.
  - pose proof (Zdigits2_mul_ge (Zpos mx) (Zpos my) ltac:(lia) ltac:(lia)) as Hd.
    assert (0 < Zdigits2 (Zpos mx)) by (cbn; lia).
    assert (0 < Zdigits2 (Zpos my)) by (cbn; lia).
    rewrite fexp_spec. change (Zpos (mx * my)) with (Zpos mx * Zpos my). lia.
  - congruence.
  - replace (ex + ey + 2148) with ((ex + 1074) + (ey + 1074)) by lia.
    replace (eg + 2148) with ((eg + 1074) + 1074) by lia.
    rewrite (Z.pow_add_r 2 (ex + 1074)), (Z.pow_add_r 2 (eg + 1074)) by lia.
    rewrite Pos2Z.inj_mul.
    replace (Zpos mx * Zpos my * (2 ^ (ex + 1074) * 2 ^ (ey + 1074)))
      with (Zpos mx * 2 ^ (ex + 1074) * (Zpos my * 2 ^ (ey + 1074))) by ring.
    replace (1 * Zpos mg * (2 ^ (eg + 1074) * 2 ^ 1074))
      with (Zpos mg * 2 ^ (eg + 1074) * 2 ^ 1074) by ring.
    exact Hle.
Qed.

(** *** Addition *)

Lemma binary_round_upper (m : positive) (e : Z) (mg : positive) (eg : Z) :
  -1074 <= e -> bounded prec emax mg eg = true ->
  Zpos m * 2 ^ (e + 1074) <= Zpos mg * 2 ^ (eg + 1074) ->
  SFleb (binary_round prec emax false m e) (S754_finite false mg eg) = true /\
  nonneg_sf (binary_round prec emax false m e) = true.
Proof.
  intros He Hg Hle. unfold binary_round.
  set (t := fexp (Zpos (digits2_pos m) + e)).
  destruct (shl_align_spec m e t) as [Hs Hf].
  destruct (shl_align m e t) as [mz ez]. cbn [fst snd] in Hs, Hf.
  pose proof (bounded_inv mg eg Hg) as (Heg & _).
  assert (Ht : -1074 <= t) by apply fexp_ge_emin.
  assert (Hdz : Zdigits2 (Zpos mz) + ez = Zpos (digits2_pos m) + e).
  { rewrite Hf, Zdigits2_mul_pow by lia. cbn [Zdigits2]. lia. }
  apply binary_round_aux_upper with (N := Zpos mz) (D := 1) (O := 1074);
    try lia; try assumption.
  - rewrite Hdz. fold t. lia.
  - congruence.
  - rewrite Hf. rewrite <- Z.mul_assoc, <- Z.pow_add_r by lia.
    replace (e - Z.min e t + (ez + 1074)) with (e + 1074) by lia. lia.
Qed.

Lemma SFadd_upper (mx : positive) (ex : Z) (my : positive) (ey : Z)
    (mg : positive) (eg : Z) :
  bounded prec emax mx ex = true -> bounded prec emax my ey = true ->
  bounded prec emax mg eg = true ->
  Zpos mx * 2 ^ (ex + 1074) + Zpos my * 2 ^ (ey + 1074) <= Zpos mg * 2 ^ (eg + 1074) ->
  SFleb (SFadd prec emax (S754_finite false mx ex) (S754_finite false my ey))
        (S754_finite false mg eg) = true /\
  nonneg_sf (SFadd prec emax (S754_finite false mx ex) (S754_finite false my ey)) = true.
Proof.
  intros Hx Hy Hg Hle. cbn [SFadd cond_Zopp].
  pose proof (bounded_inv mx ex Hx) as (Hex & _).
  pose proof (bounded_inv my ey Hy) as (Hey & _).
  set (ez := Z.min ex ey).
  destruct (shl_align_spec mx ex ez) as [_ Hfx].
  destruct (shl_align_spec my ey ez) as [_ Hfy].
  rewrite (Z.min_r ex ez) in Hfx by lia.
  rewrite (Z.min_r ey ez) in Hfy by lia.
  change (Zpos (fst (shl_align mx ex ez)) + Zpos (fst (shl_align my ey ez)))
    with (Zpos (fst (shl_align mx ex ez) + fst (shl_align my ey ez))).
  cbn [binary_normalize].
  apply binary_round_upper; [lia | assumption | ].
  rewrite Pos2Z.inj_add, Hfx, Hfy.
  rewrite Z.mul_add_distr_r, <- !Z.mul_assoc, <- !Z.pow_add_r by lia.
  replace (ex - ez + (ez + 1074)) with (ex + 1074) by lia.
  replace (ey - ez + (ez + 1074)) with (ey + 1074) by lia.
  exact Hle.
Qed.

(** *** The rounded mantissa is canonical *)

Lemma fexp_mono (a b : Z) : a <= b -> fexp a <= fexp b.
Proof. rewrite !fexp_spec. lia. Qed.

Lemma pack_nonneg_cases (s : bool) (m e : Z) :
  0 <= m ->
  pack s m e = S754_zero s \/ pack s m e = S754_infinity s \/
  exists p, m = Zpos p /\ e <= 971 /\ pack s m e = S754_finite s p e.
Proof.
  intro Hm. unfold pack. destruct m as [ | p | p]; [auto | | lia].
  change (emax - prec) with 971.
  destruct (Z.leb_spec e 971); [ | auto].
  right. right. exists p. auto.
Qed.

(** The shape of the result of rounding: mantissa [m2], exponent [e2]. *)
Lemma binary_round_aux_shape (s : bool) (m e : Z) (l : location) :
  0 <= m -> e <= fexp (Zdigits2 m + e) ->
  let n := fexp (Zdigits2 m + e) - e in
  exists m1 m2 e2 : Z,
    m / 2 ^ n <= m1 <= m / 2 ^ n + 1 /\
    (m1 = m / 2 ^ n + 1 -> l <> loc_Exact \/ m mod 2 ^ n <> 0) /\
    binary_round_aux prec emax s m e l = pack s m2 e2 /\
    0 <= m2 /\ e + n <= e2 /\
    m2 * 2 ^ (e2 - (e + n)) <= m1 /\
    m / 2 ^ n <= m2 * 2 ^ (e2 - (e + n)) /\
    Zdigits2 m2 <= 53 /\
    (0 < m2 -> fexp (Zdigits2 m2 + e2) = e2).
Proof.
  intros Hm Hcan n.
  destruct (binary_round_aux_cases s m e l Hm) as (m1 & Hm1 & Hup & Hres).
  cbv zeta in Hres. fold n in Hm1, Hup, Hres.
  rewrite (Z.max_r 0 n) in * by lia.
  assert (Hn : 0 <= n) by lia.
  set (e' := e + n) in *. set (m' := m / 2 ^ n) in *.
  assert (Hpn : 0 < 2 ^ n) by (apply Z.pow_pos_nonneg; lia).
  assert (Hm'0 : 0 <= m') by (apply Z.div_pos; lia).
  assert (He' : e' = fexp (Zdigits2 m + e)) by (unfold e', n; lia).
  assert (He'min : -1074 <= e') by (rewrite He'; apply fexp_ge_emin).
  destruct (shifted_digits m e Hm Hcan) as [Hd' Hnorm]. fold n in Hd', Hnorm.
  fold m' in Hd', Hnorm. fold e' in Hnorm.
  (* the truncated mantissa is canonical *)
  assert (Hcan' : fexp (Zdigits2 m' + e') <= e').
  { rewrite fexp_spec. lia. }
  assert (Hcan'' : 0 < m' -> fexp (Zdigits2 m' + e') = e').
  { intro Hpos. unfold m'. rewrite Zdigits2_div_pow by lia.
    assert (n < Zdigits2 m).
    { destruct (Z_lt_le_dec n (Zdigits2 m)) as [ | Hge]; [assumption | ].
      exfalso. unfold m' in Hpos. rewrite Z.div_small in Hpos; [lia | ].
      split; [lia | ]. apply Zdigits2_lt_pow; lia. }
    rewrite Z.max_r by lia. rewrite He'. f_equal. unfold e'. lia. }
  set (t := fexp (Zdigits2 m1 + e')) in *.
  set (n2 := Z.max 0 (t - e')) in *.
  assert (Hpn2 : 0 < 2 ^ n2) by (apply Z.pow_pos_nonneg; lia).
  pose proof (Zdigits2_nonneg m1) as Hd1n.
  exists m1, (m1 / 2 ^ n2), (e' + n2).
  replace (e' + n2 - e') with n2 by lia.
  split; [exact Hm1 | ]. split; [exact Hup | ]. split; [exact Hres | ].
  split; [apply Z.div_pos; lia | ]. split; [lia | ].
  split; [rewrite Z.mul_comm; apply Z.mul_div_le; lia | ].
  destruct (Z_le_gt_dec t e') as [Hle | Hgt].
  - (* no second shift *)
    assert (Hn2 : n2 = 0) by lia. rewrite Hn2.
    rewrite Z.pow_0_r, Z.div_1_r, Z.mul_1_r, Z.add_0_r.
    split; [lia | ]. split.
    + unfold t in Hle. rewrite fexp_spec in Hle. lia.
    + intro Hpos. apply Z.le_antisymm; [exact Hle | ].
      destruct (Z.eq_dec m' 0) as [H0 | Hne].
      * assert (e' = -1074).
        { assert (Zdigits2 m <= n).
          { destruct (Z_lt_le_dec n (Zdigits2 m)) as [Hlt | ]; [ | assumption].
            exfalso. assert (Hz : Zdigits2 m' = 0) by (rewrite H0; reflexivity).
            unfold m' in Hz. rewrite Zdigits2_div_pow in Hz by lia. lia. }
          rewrite fexp_spec in He'. unfold e' in *. lia. }
        unfold t. rewrite fexp_spec. lia.
      * rewrite <- (Hcan'' ltac:(lia)) at 1. apply fexp_mono.
        assert (Zdigits2 m' <= Zdigits2 m1) by (apply Zdigits2_le; lia). lia.
  - (* the mantissa overflowed the precision *)
    assert (Ht : t = Zdigits2 m1 + e' - 53).
    { unfold t in *. rewrite fexp_spec in *. lia. }
    assert (Hn2 : n2 = Zdigits2 m1 - 53) by lia.
    assert (Hd1 : 53 < Zdigits2 m1) by lia.
    assert (Hm1big : 2 ^ 53 <= m1).
    { assert (0 < m1).
      { destruct (Z.eq_dec m1 0) as [H0 | ]; [ | lia]. rewrite H0 in Hd1. cbn in Hd1. lia. }
      pose proof (Zdigits2_bounds m1 ltac:(lia)) as [Hl _].
      assert (2 ^ 53 <= 2 ^ (Zdigits2 m1 - 1)) by (apply Z.pow_le_mono_r; lia). lia. }
    assert (Hm'lt : m' < 2 ^ 53) by (apply Zdigits2_lt_pow; lia).
    assert (Hm1eq : m1 = 2 ^ 53) by lia.
    assert (Hn21 : n2 = 1) by (rewrite Hn2, Hm1eq; reflexivity).
    rewrite Hn21, Hm1eq.
    change (2 ^ 53 / 2 ^ 1) with (2 ^ 52).
    change (2 ^ 52 * 2 ^ 1) with (2 ^ 53).
    split; [lia | ]. split; [cbn; lia | ].
    intros _. change (Zdigits2 (2 ^ 52)) with 53. rewrite fexp_spec. lia.
Qed.

Lemma pack_valid (s : bool) (m e : Z) :
  0 <= m -> (0 < m -> fexp (Zdigits2 m + e) = e) ->
  valid_binary (pack s m e) = true.
Proof.
  intros Hm Hc. unfold pack. destruct m as [ | p | p]; [reflexivity | | lia].
  destruct (Z.leb_spec e (emax - prec)) as [Hle | ]; [ | reflexivity].
  cbn [valid_binary]. unfold bounded, canonical_mantissa.
  specialize (Hc ltac:(lia)). cbn [Zdigits2] in Hc. rewrite Hc, Z.eqb_refl.
  apply Z.leb_le in Hle. rewrite Hle. reflexivity.
Qed.

Lemma binary_round_aux_valid (s : bool) (m e : Z) (l : location) :
  0 <= m -> e <= fexp (Zdigits2 m + e) ->
  valid_binary (binary_round_aux prec emax s m e l) = true.
Proof.
  intros Hm Hcan.
  destruct (binary_round_aux_shape s m e l Hm Hcan)
    as (m1 & m2 & e2 & _ & _ & Hres & Hm2 & _ & _ & _ & _ & Hc).
  rewrite Hres. apply pack_valid; assumption.
Qed.

(** Rounding stays above every binary64 number that bounds the exact value
    [N / D * 2^e] from below. *)
Lemma binary_round_aux_lower (m e : Z) (l : location) (N D O : Z)
    (mg : positive) (eg : Z) :
  0 <= m -> e <= fexp (Zdigits2 m + e) ->
  0 < D -> m * D <= N < (m + 1) * D ->
  0 <= e + O -> 0 <= eg + O ->
  bounded prec emax mg eg = true ->
  D * Zpos mg * 2 ^ (eg + O) <= N * 2 ^ (e + O) ->
  SFleb (S754_finite false mg eg) (binary_round_aux prec emax false m e l) = true.
Proof.
  intros Hm Hcan HD HmN HeO HgO Hb Hle.
  destruct (binary_round_aux_shape false m e l Hm Hcan)
    as (m1 & m2 & e2 & Hm1 & _ & Hres & Hm2 & He2 & _ & Hlow & Hd2 & Hc2).
  rewrite Hres. clear Hres.
  set (n := fexp (Zdigits2 m + e) - e) in *.
  assert (Hn : 0 <= n) by lia.
  set (e' := e + n) in *. set (m' := m / 2 ^ n) in *.
  assert (Hpn : 0 < 2 ^ n) by (apply Z.pow_pos_nonneg; lia).
  assert (Hu : 0 < 2 ^ (e + O)) by (apply Z.pow_pos_nonneg; lia).
  assert (Hm'0 : 0 <= m') by (apply Z.div_pos; lia).
  assert (He'min : -1074 <= e') by (unfold e', n; pose proof (fexp_ge_emin (Zdigits2 m + e)); lia).
  pose proof (bounded_inv mg eg Hb) as (Heg & Hdg & Hng).
  pose proof (bounded_lt_pow mg eg Hb) as Hmg.
  assert (Hmpos : 0 < m).
  { destruct (Z.eq_dec m 0) as [H0 | ]; [ | lia]. exfalso. subst m.
    assert (0 < D * Zpos mg * 2 ^ (eg + O)).
    { apply Z.mul_pos_pos; [lia | apply Z.pow_pos_nonneg; lia]. }
    assert (N * 2 ^ (e + O) < D * Zpos mg * 2 ^ (eg + O)).
    { assert (HpB : 0 < 2 ^ (eg + O)) by (apply Z.pow_pos_nonneg; lia).
      destruct (Z_le_gt_dec e eg) as [Hc | Hc].
      - assert (2 ^ (e + O) <= 2 ^ (eg + O)) by (apply Z.pow_le_mono_r; lia).
        assert (N * 2 ^ (e + O) < D * 2 ^ (e + O)) by (apply Z.mul_lt_mono_pos_r; lia).
        assert (D * 2 ^ (e + O) <= D * Zpos mg * 2 ^ (eg + O)); [ | lia].
        rewrite <- Z.mul_assoc. apply Z.mul_le_mono_nonneg_l; [lia | ]. nia.
      - exfalso. cbn [Zdigits2] in Hcan. rewrite fexp_spec in Hcan. lia. }
    lia. }
  (* the bound is below the truncated mantissa *)
  assert (Hg : Zpos mg * 2 ^ (eg + O) <= m' * 2 ^ (e' + O)).
  { destruct (Z_le_gt_dec e' eg) as [HA | HB].
    - set (K := Zpos mg * 2 ^ (eg - e')).
      assert (HpK : 0 < 2 ^ (eg - e')) by (apply Z.pow_pos_nonneg; lia).
      assert (Hx : 2 ^ (eg + O) = 2 ^ (eg - e') * 2 ^ n * 2 ^ (e + O)).
      { rewrite <- !Z.pow_add_r by lia. f_equal. unfold e'. lia. }
      assert (Hy : 2 ^ (e' + O) = 2 ^ n * 2 ^ (e + O)).
      { rewrite <- !Z.pow_add_r by lia. f_equal. unfold e'. lia. }
      rewrite Hx, Hy.
      assert (HKm : K * 2 ^ n <= m).
      { assert (HKN : D * (K * 2 ^ n) <= N).
        { apply (Z.mul_le_mono_pos_r _ _ (2 ^ (e + O))); [assumption | ].
          rewrite Hx in Hle. unfold K. lia. }
        assert (D * (K * 2 ^ n) < D * (m + 1)) by lia.
        assert (K * 2 ^ n < m + 1) by (apply (Z.mul_lt_mono_pos_l D); lia). lia. }
      assert (HKm' : K <= m').
      { unfold m'. apply Z.div_le_lower_bound; lia. }
      replace (Zpos mg * (2 ^ (eg - e') * 2 ^ n * 2 ^ (e + O)))
        with (K * (2 ^ n * 2 ^ (e + O))) by (unfold K; ring).
      apply Z.mul_le_mono_nonneg_r; lia.
    - destruct (shifted_digits m e Hm Hcan) as [_ Hnorm].
      fold n in Hnorm. fold e' in Hnorm. fold m' in Hnorm.
      specialize (Hnorm ltac:(lia) Hmpos).
      assert (Hm'52 : 2 ^ 52 <= m').
      { assert (0 < m').
        { destruct (Z.eq_dec m' 0) as [H0 | ]; [ | lia]. rewrite H0 in Hnorm. cbn in Hnorm. lia. }
        pose proof (Zdigits2_bounds m' ltac:(lia)) as [Hl _]. rewrite Hnorm in Hl. exact Hl. }
      assert (HpB : 0 < 2 ^ (eg + O)) by (apply Z.pow_pos_nonneg; lia).
      assert (Hexp : 2 ^ (e' + O) = 2 ^ (e' - eg - 1) * 2 * 2 ^ (eg + O)).
      { replace (e' + O) with ((e' - eg - 1) + 1 + (eg + O)) by lia.
        rewrite (Z.pow_add_r 2 (e' - eg - 1 + 1)), (Z.pow_add_r 2 (e' - eg - 1)) by lia.
        reflexivity. }
      assert (Hq : 0 < 2 ^ (e' - eg - 1)) by (apply Z.pow_pos_nonneg; lia).
      rewrite Hexp.
      transitivity (2 ^ 52 * 2 * 2 ^ (eg + O)).
      + change (2 ^ 52 * 2) with (2 ^ 53). apply Z.mul_le_mono_nonneg_r; lia.
      + replace (m' * (2 ^ (e' - eg - 1) * 2 * 2 ^ (eg + O)))
          with (m' * 2 ^ (e' - eg - 1) * (2 * 2 ^ (eg + O))) by ring.
        replace (2 ^ 52 * 2 * 2 ^ (eg + O)) with (2 ^ 52 * (2 * 2 ^ (eg + O))) by ring.
        apply Z.mul_le_mono_nonneg_r; [lia | nia]. }
  (* hence below the rounded one *)
  assert (Hg2 : Zpos mg * 2 ^ (eg + O) <= m2 * 2 ^ (e2 + O)).
  { transitivity (m' * 2 ^ (e' + O)); [exact Hg | ].
    replace (e2 + O) with ((e2 - e') + (e' + O)) by lia.
    rewrite (Z.pow_add_r 2 (e2 - e') (e' + O)) by lia. rewrite Z.mul_assoc.
    apply Z.mul_le_mono_nonneg_r; [apply Z.pow_nonneg; lia | exact Hlow]. }
  assert (Hm2pos : 0 < m2).
  { destruct (Z.eq_dec m2 0) as [H0 | ]; [ | lia]. exfalso. rewrite H0 in Hg2.
    assert (0 < Zpos mg * 2 ^ (eg + O)) by (apply Z.mul_pos_pos; [lia | apply Z.pow_pos_nonneg; lia]).
    lia. }
  unfold pack. destruct m2 as [ | p2 | p2]; try lia.
  destruct (e2 <=? emax - prec); [ | reflexivity].
  unfold SFleb, SFcompare.
  assert (Hp2 : Zpos p2 < 2 ^ 53) by (apply Zdigits2_lt_pow; lia).
  destruct (Z.compare_spec eg e2) as [Heq | Hlt | Hgt]; [ | reflexivity | ].
  - subst e2. change (Pos.compare_cont Eq mg p2) with (Zpos mg ?= Zpos p2).
    assert (Zpos mg <= Zpos p2).
    { apply (Z.mul_le_mono_pos_r _ _ (2 ^ (eg + O))); [apply Z.pow_pos_nonneg; lia | exact Hg2]. }
    destruct (Z.compare_spec (Zpos mg) (Zpos p2)); [reflexivity | reflexivity | lia].
  - exfalso.
    pose proof (bounded_normal mg eg Hb ltac:(lia)) as Hmg52.
    assert (Hexp : 2 ^ (eg + O) = 2 ^ (eg - e2 - 1) * 2 * 2 ^ (e2 + O)).
    { replace (eg + O) with ((eg - e2 - 1) + 1 + (e2 + O)) by lia.
      rewrite (Z.pow_add_r 2 (eg - e2 - 1 + 1)), (Z.pow_add_r 2 (eg - e2 - 1)) by lia.
      reflexivity. }
    assert (Hq : 0 < 2 ^ (eg - e2 - 1)) by (apply Z.pow_pos_nonneg; lia).
    assert (Hr : 0 < 2 ^ (e2 + O)) by (apply Z.pow_pos_nonneg; lia).
    rewrite Hexp in Hg2.
    assert (Zpos p2 * 2 ^ (e2 + O) < 2 ^ 52 * 2 * 2 ^ (e2 + O)).
    { apply Z.mul_lt_mono_pos_r; [assumption | ]. change (2 ^ 52 * 2) with (2 ^ 53). lia. }
    assert (2 ^ 52 * 2 * 2 ^ (e2 + O) <= Zpos mg * (2 ^ (eg - e2 - 1) * 2 * 2 ^ (e2 + O))).
    { replace (Zpos mg * (2 ^ (eg - e2 - 1) * 2 * 2 ^ (e2 + O)))
        with (Zpos mg * 2 ^ (eg - e2 - 1) * (2 * 2 ^ (e2 + O))) by ring.
      replace (2 ^ 52 * 2 * 2 ^ (e2 + O)) with (2 ^ 52 * (2 * 2 ^ (e2 + O))) by ring.
      apply Z.mul_le_mono_nonneg_r; [lia | nia]. }
    lia.
Qed.

(** *** Division *)

Lemma new_location_exact (nb k : Z) :
  new_location nb k <> loc_Exact -> k <> 0.
Proof.
  unfold new_location, new_location_even, new_location_odd.
  intros H Hk. subst k. apply H. destruct (Z.even nb); reflexivity.
Qed.

(** The quotient mantissa, its exponent and its location, as
    [SFdiv_core_binary] computes them: [q] is the integer part of
    [mx * 2^s / my]. *)
Lemma SFdiv_core_spec (mx my : positive) (ex ey : Z) :
  exists (q e' s : Z) (l : location),
    SFdiv_core_binary prec emax (Zpos mx) ex (Zpos my) ey = (q, e', l) /\
    0 <= s /\ e' + s = ex - ey /\ Z.min (-1074) (ex - ey) <= e' /\
    0 <= q /\
    q * Zpos my <= Zpos mx * 2 ^ s < (q + 1) * Zpos my /\
    (l <> loc_Exact -> q * Zpos my < Zpos mx * 2 ^ s) /\
    e' <= fexp (Zdigits2 q + e').
Proof.
  unfold SFdiv_core_binary.
  set (d1 := Zdigits2 (Zpos mx)). set (d2 := Zdigits2 (Zpos my)).
  set (e' := Z.min (fexp (d1 + ex - (d2 + ey))) (ex - ey)).
  set (s := ex - ey - e').
  assert (Hs : 0 <= s) by (unfold s, e'; lia).
  set (m' := match s with Zpos _ => Z.shiftl (Zpos mx) s | Z0 => Zpos mx | Zneg _ => 0 end).
  assert (Hm' : m' = Zpos mx * 2 ^ s).
  { unfold m'. destruct s as [ | p | p]; [cbn; lia | | lia].
    apply Z.shiftl_mul_pow2. lia. }
  pose proof (Z_div_mod m' (Zpos my) ltac:(lia)) as Hdm.
  destruct (Z.div_eucl m' (Zpos my)) as [q r]. destruct Hdm as [Hdm Hr].
  assert (Hps : 0 < 2 ^ s) by (apply Z.pow_pos_nonneg; lia).
  assert (Hq0 : 0 <= q) by nia.
  exists q, e', s, (new_location (Zpos my) r).
  split; [reflexivity | ]. split; [exact Hs | ]. split; [unfold s; lia | ].
  split; [unfold e'; pose proof (fexp_ge_emin (d1 + ex - (d2 + ey))); lia | ].
  split; [exact Hq0 | ]. rewrite <- Hm'.
  split; [nia | ]. split.
  - intro Hl. apply new_location_exact in Hl. nia.
  - (* the quotient has enough digits *)
    assert (Hdq : d1 + s - d2 <= Zdigits2 q).
    { pose proof (Zdigits2_nonneg q).
      destruct (Z_le_gt_dec (d1 + s - d2) 0) as [ | Hpos]; [lia | ].
      destruct (Zdigits2_bounds (Zpos mx) ltac:(lia)) as [Xl _]. fold d1 in Xl.
      destruct (Zdigits2_bounds (Zpos my) ltac:(lia)) as [_ Yu]. fold d2 in Yu.
      assert (0 < d1) by (unfold d1; cbn; lia).
      assert (0 < d2) by (unfold d2; cbn; lia).
      assert (Hk : 2 ^ (d1 + s - d2 - 1) <= q).
      { assert (Hpow : 2 ^ (d1 + s - d2 - 1) * 2 ^ d2 = 2 ^ (d1 - 1) * 2 ^ s).
        { rewrite <- !Z.pow_add_r by lia. f_equal. lia. }
        assert (0 < 2 ^ (d1 + s - d2 - 1)) by (apply Z.pow_pos_nonneg; lia).
        assert (Hlt1 : 2 ^ (d1 + s - d2 - 1) * Zpos my < (q + 1) * Zpos my).
        { apply Z.lt_le_trans with (2 ^ (d1 + s - d2 - 1) * 2 ^ d2).
          - apply Z.mul_lt_mono_pos_l; lia.
          - rewrite Hpow. transitivity (Zpos mx * 2 ^ s); [ | lia].
            apply Z.mul_le_mono_nonneg_r; lia. }
        apply Z.mul_lt_mono_pos_r in Hlt1; lia. }
      apply Zdigits2_ge_pow in Hk; lia. }
    transitivity (fexp (d1 + ex - (d2 + ey))); [unfold e'; lia | ].
    apply fexp_mono. unfold s in Hdq. lia.
Qed.

Lemma SFdiv_finite_upper (mx : positive) (ex : Z) (my : positive) (ey : Z)
    (mg : positive) (eg O : Z) :
  bounded prec emax mg eg = true ->
  1074 <= O -> 0 <= ex - ey + O ->
  Zpos mx * 2 ^ (ex - ey + O) <= Zpos my * Zpos mg * 2 ^ (eg + O) ->
  SFleb (SFdiv prec emax (S754_finite false mx ex) (S754_finite false my ey))
        (S754_finite false mg eg) = true /\
  nonneg_sf (SFdiv prec emax (S754_finite false mx ex) (S754_finite false my ey)) = true.
Proof.
  intros Hg HO HeO Hle. cbn [SFdiv xorb].
  destruct (SFdiv_core_spec mx my ex ey)
    as (q & e' & s & l & Hcore & Hs & Hes & Hemin & Hq & Hqr & Hloc & Hcan).
  rewrite Hcore.
  pose proof (bounded_inv mg eg Hg) as (Heg & _).
  apply binary_round_aux_upper with (N := Zpos mx * 2 ^ s) (D := Zpos my) (O := O);
    try lia; try assumption.
  rewrite <- (Z.mul_assoc (Zpos mx)), <- Z.pow_add_r by lia.
  replace (s + (e' + O)) with (ex - ey + O) by lia. exact Hle.
Qed.

Lemma SFdiv_finite_lower (mx : positive) (ex : Z) (my : positive) (ey : Z)
    (mg : positive) (eg O : Z) :
  bounded prec emax mg eg = true ->
  1074 <= O -> 0 <= ex - ey + O ->
  Zpos my * Zpos mg * 2 ^ (eg + O) <= Zpos mx * 2 ^ (ex - ey + O) ->
  SFleb (S754_finite false mg eg)
        (SFdiv prec emax (S754_finite false mx ex) (S754_finite false my ey)) = true.
Proof.
  intros Hg HO HeO Hle. cbn [SFdiv xorb].
  destruct (SFdiv_core_spec mx my ex ey)
    as (q & e' & s & l & Hcore & Hs & Hes & Hemin & Hq & Hqr & Hloc & Hcan).
  rewrite Hcore.
  pose proof (bounded_inv mg eg Hg) as (Heg & _).
  apply binary_round_aux_lower with (N := Zpos mx * 2 ^ s) (D := Zpos my) (O := O);
    try lia; try assumption.
  rewrite <- (Z.mul_assoc (Zpos mx)), <- Z.pow_add_r by lia.
  replace (s + (e' + O)) with (ex - ey + O) by lia. exact Hle.
Qed.

Lemma SFdiv_finite_valid (sx : bool) (mx : positive) (ex : Z)
    (sy : bool) (my : positive) (ey : Z) :
  valid_binary (SFdiv prec emax (S754_finite sx mx ex) (S754_finite sy my ey)) = true.
Proof.
  cbn [SFdiv].
  destruct (SFdiv_core_spec mx my ex ey)
    as (q & e' & s & l & Hcore & Hs & Hes & Hemin & Hq & Hqr & Hloc & Hcan).
  rewrite Hcore. apply binary_round_aux_valid; assumption.
Qed.

Lemma SFdiv_finite_sign (sx : bool) (mx : positive) (ex : Z)
    (sy : bool) (my : positive) (ey : Z) :
  exists m2 e2 : Z,
    0 <= m2 /\
    SFdiv prec emax (S754_finite sx mx ex) (S754_finite sy my ey)
    = pack (xorb sx sy) m2 e2.
Proof.
  cbn [SFdiv].
  destruct (SFdiv_core_spec mx my ex ey)
    as (q & e' & s & l & Hcore & Hs & Hes & Hemin & Hq & Hqr & Hloc & Hcan).
  rewrite Hcore.
  destruct (binary_round_aux_shape (xorb sx sy) q e' l Hq Hcan)
    as (m1 & m2 & e2 & _ & _ & Hres & Hm2 & _).
  exists m2, e2. auto.
Qed.

(** *** Values of primitive floats *)

Lemma nonneg_sf_fin (x : spec_float) : nonneg_sf x = true -> is_fin x = true.
Proof. destruct x as [ | | | [ | ] ? ?]; cbn; congruence. Qed.

Lemma nonneg_sf_val (x : spec_float) : nonneg_sf x = true -> 0 <= SFval x.
Proof.
  destruct x as [ | | | [ | ] m e]; cbn [nonneg_sf SFval cond_Zopp];
    try congruence; lia.
Qed.

Lemma F0_V_nonneg (x : float) : F0 x = true -> 0 <= V x.
Proof. apply nonneg_sf_val. Qed.

Lemma SFleb_val (x y : spec_float) :
  valid_binary x = true -> valid_binary y = true ->
  is_fin x = true -> is_fin y = true ->
  SFleb x y = (SFval x <=? SFval y).
Proof.
  intros Vx Vy Fx Fy. unfold SFleb. rewrite (SFcompare_val x y Vx Vy Fx Fy).
  unfold Z.leb. destruct (SFval x ?= SFval y); reflexivity.
Qed.

Lemma SFltb_val (x y : spec_float) :
  valid_binary x = true -> valid_binary y = true ->
  is_fin x = true -> is_fin y = true ->
  SFltb x y = (SFval x <? SFval y).
Proof.
  intros Vx Vy Fx Fy. unfold SFltb. rewrite (SFcompare_val x y Vx Vy Fx Fy).
  unfold Z.ltb. destruct (SFval x ?= SFval y); reflexivity.
Qed.

Lemma SFeqb_val (x y : spec_float) :
  valid_binary x = true -> valid_binary y = true ->
  is_fin x = true -> is_fin y = true ->
  SFeqb x y = (SFval x =? SFval y).
Proof.
  intros Vx Vy Fx Fy. unfold SFeqb. rewrite (SFcompare_val x y Vx Vy Fx Fy).
  unfold Z.eqb. destruct (SFval x ?= SFval y) eqn:E; try reflexivity.
  - apply Z.compare_eq in E. rewrite E. destruct (SFval y); cbn; try reflexivity;
      rewrite Pos.eqb_refl; reflexivity.
  - destruct (SFval x), (SFval y); cbn in *; try reflexivity; try discriminate.
    + destruct (Pos.eqb_spec p p0); [ | reflexivity]. subst. rewrite Pos.compare_refl in E. discriminate.
    + destruct (Pos.eqb_spec p p0); [ | reflexivity]. subst. rewrite Pos.compare_refl in E. discriminate.
  - destruct (SFval x), (SFval y); cbn in *; try reflexivity; try discriminate.
    + destruct (Pos.eqb_spec p p0); [ | reflexivity]. subst. rewrite Pos.compare_refl in E. discriminate.
    + destruct (Pos.eqb_spec p p0); [ | reflexivity]. subst. rewrite Pos.compare_refl in E. discriminate.
Qed.

Lemma leb_V (x y : float) :
  Ffin x = true -> Ffin y = true -> (x <=? y)%float = (V x <=? V y).
Proof.
  intros Fx Fy. rewrite leb_spec. apply SFleb_val; auto using Prim2SF_valid.
Qed.

Lemma ltb_V (x y : float) :
  Ffin x = true -> Ffin y = true -> (x <? y)%float = (V x <? V y).
Proof.
  intros Fx Fy. rewrite ltb_spec. apply SFltb_val; auto using Prim2SF_valid.
Qed.

Lemma F0_Ffin (x : float) : F0 x = true -> Ffin x = true.
Proof. apply nonneg_sf_fin. Qed.

(** *** Upper bounds through [*] and [+] *)

Lemma mul_upper (x y g : float) :
  F0 x = true -> F0 y = true -> F0 g = true ->
  V x * V y <= V g * 2 ^ 1074 ->
  F0 (x * y) = true /\ V (x * y) <= V g.
Proof.
  unfold F0, V. intros Hx Hy Hg Hle.
  pose proof (Prim2SF_valid (x * y)) as Vxy.
  pose proof (Prim2SF_valid x) as Vx. pose proof (Prim2SF_valid y) as Vy.
  pose proof (Prim2SF_valid g) as Vg.
  pose proof (nonneg_sf_val _ Hg) as Hg0.
  rewrite mul_spec in *. unfold SF64mul in *.
  destruct (Prim2SF x) as [sx | | | [ | ] mx ex]; try discriminate;
    destruct (Prim2SF y) as [sy | | | [ | ] my ey]; try discriminate;
    try (cbn [SFmul SFval nonneg_sf]; split; [reflexivity | assumption]).
  cbn [SFval cond_Zopp] in Hle. cbn [valid_binary] in Vx, Vy.
  destruct (Prim2SF g) as [sg | | | [ | ] mg eg]; try discriminate.
  - exfalso. cbn [SFval] in Hle.
    pose proof (bounded_inv mx ex Vx) as (? & _). pose proof (bounded_inv my ey Vy) as (? & _).
    assert (0 < 2 ^ (ex + 1074)) by (apply Z.pow_pos_nonneg; lia).
    assert (0 < 2 ^ (ey + 1074)) by (apply Z.pow_pos_nonneg; lia).
    assert (0 < Zpos mx * 2 ^ (ex + 1074) * (Zpos my * 2 ^ (ey + 1074))) by
      (repeat apply Z.mul_pos_pos; lia).
    lia.
  - cbn [SFval cond_Zopp valid_binary] in *.
    destruct (SFmul_upper mx ex my ey mg eg Vx Vy Vg Hle) as [Hl Hn].
    split; [exact Hn | ].
    rewrite SFleb_val in Hl; auto using nonneg_sf_fin.
    apply Z.leb_le in Hl. exact Hl.
Qed.

Lemma add_upper (x y g : float) :
  F0 x = true -> F0 y = true -> F0 g = true ->
  V x + V y <= V g ->
  F0 (x + y) = true /\ V (x + y) <= V g.
Proof.
  unfold F0, V. intros Hx Hy Hg Hle.
  pose proof (Prim2SF_valid (x + y)) as Vxy.
  pose proof (Prim2SF_valid x) as Vx. pose proof (Prim2SF_valid y) as Vy.
  pose proof (Prim2SF_valid g) as Vg.
  pose proof (nonneg_sf_val _ Hg) as Hg0.
  rewrite add_spec in *. unfold SF64add in *.
  destruct (Prim2SF x) as [sx | | | [ | ] mx ex]; try discriminate;
    destruct (Prim2SF y) as [sy | | | [ | ] my ey]; try discriminate.
  - destruct sx, sy; cbn [SFadd SFval nonneg_sf]; split; reflexivity || assumption.
  - cbn [SFadd SFval nonneg_sf cond_Zopp] in *. split; [reflexivity | lia].
  - cbn [SFadd SFval nonneg_sf cond_Zopp] in *. split; [reflexivity | lia].
  - cbn [SFval cond_Zopp] in Hle. cbn [valid_binary] in Vx, Vy.
    destruct (Prim2SF g) as [sg | | | [ | ] mg eg]; try discriminate.
    + exfalso. cbn [SFval] in Hle.
      pose proof (bounded_inv mx ex Vx) as (? & _). pose proof (bounded_inv my ey Vy) as (? & _).
      assert (0 < 2 ^ (ex + 1074)) by (apply Z.pow_pos_nonneg; lia).
      assert (0 < 2 ^ (ey + 1074)) by (apply Z.pow_pos_nonneg; lia).
      assert (0 < Zpos mx * 2 ^ (ex + 1074)) by (apply Z.mul_pos_pos; lia).
      assert (0 < Zpos my * 2 ^ (ey + 1074)) by (apply Z.mul_pos_pos; lia).
      lia.
    + cbn [SFval cond_Zopp valid_binary] in *.
      destruct (SFadd_upper mx ex my ey mg eg Vx Vy Vg Hle) as [Hl Hn].
      split; [exact Hn | ].
      rewrite SFleb_val in Hl; auto using nonneg_sf_fin.
      apply Z.leb_le in Hl. exact Hl.
Qed.

(** *** Constants *)

Lemma Prim2SF_0 : Prim2SF 0%float = S754_zero false.
Proof. reflexivity. Qed.

Lemma Prim2SF_1 : Prim2SF 1%float = S754_finite false 4503599627370496 (-52).
Proof. reflexivity. Qed.

Lemma Prim2SF_2 : Prim2SF 2%float = S754_finite false 4503599627370496 (-51).
Proof. reflexivity. Qed.

Lemma Prim2SF_1e_9 : Prim2SF 1e-9%float = S754_finite false 4835703278458517 (-82).
Proof. reflexivity. Qed.

Lemma Fpos_F0 (x : float) : Fpos x = true -> F0 x = true.
Proof. unfold Fpos, F0. destruct (Prim2SF x) as [ | | | [ | ] ? ?]; cbn; congruence. Qed.

Lemma Fpos_V (x : float) : Fpos x = true -> 0 < V x.
Proof.
  unfold Fpos, V. pose proof (Prim2SF_valid x) as Vx.
  destruct (Prim2SF x) as [ | | | [ | ] m e]; try discriminate. intros _.
  cbn [SFval cond_Zopp valid_binary] in *.
  pose proof (bounded_inv m e Vx) as (? & _).
  apply Z.mul_pos_pos; [lia | apply Z.pow_pos_nonneg; lia].
Qed.

Lemma F0_pos_Fpos (x : float) : F0 x = true -> 0 < V x -> Fpos x = true.
Proof.
  unfold Fpos, F0, V.
  destruct (Prim2SF x) as [ | | | [ | ] m e]; cbn [nonneg_sf SFval];
    try discriminate; try lia; reflexivity.
Qed.

(** *** Bounds through [/] *)

Lemma div_upper (x y g : float) :
  F0 x = true -> Fpos y = true -> F0 g = true ->
  V x * 2 ^ 1074 <= V g * V y ->
  F0 (x / y) = true /\ V (x / y) <= V g.
Proof.
  intros Hx Hy Hg Hle.
  pose proof (Fpos_V y Hy) as Hy0.
  pose proof (F0_V_nonneg g Hg) as Hg0.
  unfold F0, V, Fpos in *.
  pose proof (Prim2SF_valid (x / y)%float) as Vxy.
  pose proof (Prim2SF_valid x) as Vx. pose proof (Prim2SF_valid y) as Vy.
  pose proof (Prim2SF_valid g) as Vg.
  rewrite div_spec in *. unfold SF64div in *.
  destruct (Prim2SF y) as [ | | | [ | ] my ey]; try discriminate.
  destruct (Prim2SF x) as [sx | | | [ | ] mx ex]; try discriminate.
  - cbn [SFdiv SFval nonneg_sf]. split; [reflexivity | assumption].
  - cbn [SFval cond_Zopp valid_binary] in *.
    pose proof (bounded_inv mx ex Vx) as (Hex & _).
    pose proof (bounded_inv my ey Vy) as (Hey & _).
    assert (Hpx : 0 < Zpos mx * 2 ^ (ex + 1074)).
    { apply Z.mul_pos_pos; [lia | apply Z.pow_pos_nonneg; lia]. }
    assert (Hp : 0 < 2 ^ 1074) by (apply Z.pow_pos_nonneg; lia).
    destruct (Prim2SF g) as [sg | | | [ | ] mg eg]; try discriminate.
    + exfalso. cbn [SFval] in Hle. nia.
    + cbn [SFval cond_Zopp valid_binary] in *.
      destruct (SFdiv_finite_upper mx ex my ey mg eg (ey + 2148) Vg) as [Hl Hn];
        try lia.
      { replace (ex - ey + (ey + 2148)) with ((ex + 1074) + 1074) by lia.
        replace (eg + (ey + 2148)) with ((eg + 1074) + (ey + 1074)) by lia.
        pose proof (bounded_inv mg eg Vg) as (Heg & _).
        rewrite (Z.pow_add_r 2 (ex + 1074) 1074), (Z.pow_add_r 2 (eg + 1074) (ey + 1074)) by lia.
        replace (Zpos my * Zpos mg * (2 ^ (eg + 1074) * 2 ^ (ey + 1074)))
          with (Zpos mg * 2 ^ (eg + 1074) * (Zpos my * 2 ^ (ey + 1074))) by ring.
        rewrite Z.mul_assoc. exact Hle. }
      split; [exact Hn | ].
      rewrite SFleb_val in Hl; auto using nonneg_sf_fin.
      apply Z.leb_le in Hl. exact Hl.
Qed.

Lemma div_lower (x y g : float) :
  Fpos x = true -> Fpos y = true -> Fpos g = true ->
  V g * V y <= V x * 2 ^ 1074 ->
  (g <=? x / y)%float = true.
Proof.
  intros Hx Hy Hg Hle.
  unfold V, Fpos in *.
  pose proof (Prim2SF_valid x) as Vx. pose proof (Prim2SF_valid y) as Vy.
  pose proof (Prim2SF_valid g) as Vg.
  rewrite leb_spec, div_spec. unfold SF64div.
  destruct (Prim2SF y) as [ | | | [ | ] my ey]; try discriminate.
  destruct (Prim2SF x) as [ | | | [ | ] mx ex]; try discriminate.
  destruct (Prim2SF g) as [ | | | [ | ] mg eg]; try discriminate.
  cbn [SFval cond_Zopp valid_binary] in *.
  pose proof (bounded_inv mx ex Vx) as (Hex & _).
  pose proof (bounded_inv my ey Vy) as (Hey & _).
  pose proof (bounded_inv mg eg Vg) as (Heg & _).
  apply (SFdiv_finite_lower mx ex my ey mg eg (ey + 2148) Vg); try lia.
  replace (ex - ey + (ey + 2148)) with ((ex + 1074) + 1074) by lia.
  replace (eg + (ey + 2148)) with ((eg + 1074) + (ey + 1074)) by lia.
  rewrite (Z.pow_add_r 2 (ex + 1074) 1074), (Z.pow_add_r 2 (eg + 1074) (ey + 1074)) by lia.
  replace (Zpos my * Zpos mg * (2 ^ (eg + 1074) * 2 ^ (ey + 1074)))
    with (Zpos mg * 2 ^ (eg + 1074) * (Zpos my * 2 ^ (ey + 1074))) by ring.
  rewrite (Z.mul_assoc (Zpos mx)). exact Hle.
Qed.

(** *** Signs of rounded results *)

Lemma binary_round_aux_pack (s : bool) (m e : Z) (l : location) :
  binary_round_aux prec emax s m e l
  = pack s (fst (round_me m e l)) (snd (round_me m e l)).
Proof.
  unfold binary_round_aux, round_me.
  destruct (shr_fexp prec emax m e l) as [mrs' e'].
  destruct (shr_fexp prec emax _ e' loc_Exact) as [mrs'' e'']. reflexivity.
Qed.

Lemma pack_neg_of_nonneg (m e : Z) :
  nonneg_sf (pack false m e) = true ->
  is_fin (pack true m e) = true /\ SFval (pack true m e) <= 0.
Proof.
  unfold pack. destruct m as [ | p | p]; [cbn; split; [reflexivity | lia] | | discriminate].
  destruct (e <=? emax - prec); [ | discriminate].
  intros _. cbn [is_fin SFval cond_Zopp]. split; [reflexivity | ].
  assert (0 <= 2 ^ (e + 1074)) by (apply Z.pow_nonneg; lia). nia.
Qed.

Lemma binary_round_neg (m : positive) (e : Z) :
  nonneg_sf (binary_round prec emax false m e) = true ->
  is_fin (binary_round prec emax true m e) = true /\
  SFval (binary_round prec emax true m e) <= 0.
Proof.
  unfold binary_round. destruct (shl_align m e _) as [mz ez].
  rewrite !binary_round_aux_pack. apply pack_neg_of_nonneg.
Qed.

Lemma binary_round_nonneg_shape (m : positive) (e : Z) :
  let r := binary_round prec emax false m e in
  r = S754_infinity false \/ nonneg_sf r = true.
Proof.
  unfold binary_round. destruct (shl_align m e _) as [mz ez].
  rewrite binary_round_aux_pack. unfold pack.
  destruct (fst (round_me (Zpos mz) ez loc_Exact)) as [ | p | p] eqn:E.
  - right. reflexivity.
  - destruct (_ <=? _); [right; reflexivity | left; reflexivity].
  - exfalso. 
    destruct (binary_round_aux_cases false (Zpos mz) ez loc_Exact ltac:(lia))
      as (m1 & Hm1 & _ & Hres).
    cbv zeta in Hres. rewrite binary_round_aux_pack, E in Hres.
    assert (0 <= Zpos mz / 2 ^ Z.max 0 (fexp (Zdigits2 (Zpos mz) + ez) - ez)).
    { apply Z.div_pos; [lia | apply Z.pow_pos_nonneg; lia]. }
    set (mm := m1 / 2 ^ _) in Hres.
    assert (0 <= mm). { unfold mm. apply Z.div_pos; [lia | apply Z.pow_pos_nonneg; lia]. }
    unfold pack in Hres. destruct mm as [ | q | q]; try lia; try discriminate.
    destruct (_ <=? _) in Hres; discriminate.
Qed.

(** *** Subtraction of finite numbers *)

Lemma SFsub_finite (sx : bool) (mx : positive) (ex : Z) (sy : bool) (my : positive) (ey : Z) :
  -1074 <= ex -> -1074 <= ey ->
  exists d ez : Z,
    -1074 <= ez /\
    d * 2 ^ (ez + 1074)
    = SFval (S754_finite sx mx ex) - SFval (S754_finite sy my ey) /\
    SFsub prec emax (S754_finite sx mx ex) (S754_finite sy my ey)
    = binary_normalize prec emax d ez false.
Proof.
  intros Hex Hey. cbn [SFsub SFval].
  set (ez := Z.min ex ey).
  destruct (shl_align_spec mx ex ez) as [_ Hfx].
  destruct (shl_align_spec my ey ez) as [_ Hfy].
  rewrite (Z.min_r ex ez) in Hfx by lia.
  rewrite (Z.min_r ey ez) in Hfy by lia.
  eexists _, ez. split; [lia | ]. split; [ | reflexivity].
  rewrite Z.mul_sub_distr_r.
  assert (Hx : Zpos (fst (shl_align mx ex ez)) * 2 ^ (ez + 1074) = Zpos mx * 2 ^ (ex + 1074)).
  { rewrite Hfx, <- Z.mul_assoc, <- Z.pow_add_r by lia. do 2 f_equal. lia. }
  assert (Hy : Zpos (fst (shl_align my ey ez)) * 2 ^ (ez + 1074) = Zpos my * 2 ^ (ey + 1074)).
  { rewrite Hfy, <- Z.mul_assoc, <- Z.pow_add_r by lia. do 2 f_equal. lia. }
  destruct sx, sy; cbn [cond_Zopp]; lia.
Qed.

Lemma sub_sign (x y : float) :
  Ffin x = true -> Ffin y = true ->
  (V y <= V x -> (0 <=? x - y)%float = true) /\
  (V x <= V y -> Ffin (x - y) = true -> (x - y <=? 0)%float = true).
Proof.
  intros Hx Hy. unfold Ffin, V in *.
  pose proof (Prim2SF_valid x) as Vx. pose proof (Prim2SF_valid y) as Vy.
  rewrite !leb_spec, sub_spec, Prim2SF_0. unfold SF64sub.
  destruct (Prim2SF x) as [sx | | | sx mx ex]; try discriminate;
    destruct (Prim2SF y) as [sy | | | sy my ey]; try discriminate.
  - destruct sx, sy; split; reflexivity.
  - cbn [SFsub SFval valid_binary] in *.
    pose proof (bounded_inv my ey Vy) as (? & _).
    assert (0 < Zpos my * 2 ^ (ey + 1074))
      by (apply Z.mul_pos_pos; [lia | apply Z.pow_pos_nonneg; lia]).
    destruct sy; cbn [cond_Zopp negb]; split; intros; try reflexivity; lia.
  - cbn [SFsub SFval valid_binary] in *.
    pose proof (bounded_inv mx ex Vx) as (? & _).
    assert (0 < Zpos mx * 2 ^ (ex + 1074))
      by (apply Z.mul_pos_pos; [lia | apply Z.pow_pos_nonneg; lia]).
    destruct sx; cbn [cond_Zopp negb]; split; intros; try reflexivity; lia.
  - cbn [valid_binary] in Vx, Vy.
    pose proof (bounded_inv mx ex Vx) as (? & _).
    pose proof (bounded_inv my ey Vy) as (? & _).
    destruct (SFsub_finite sx mx ex sy my ey) as (d & ez & Hez & Hd & Hs); try lia.
    rewrite Hs.
    assert (Hp : 0 < 2 ^ (ez + 1074)) by (apply Z.pow_pos_nonneg; lia).
    split.
    + intro Hle. destruct d as [ | p | p]; [reflexivity | | nia].
      cbn [binary_normalize].
      destruct (binary_round_nonneg_shape p ez) as [Hi | Hn]; cbv zeta in *.
      * rewrite Hi. reflexivity.
      * destruct (binary_round prec emax false p ez) as [ | | | [ | ] ? ?];
          try discriminate; reflexivity.
    + intros Hle Hf. destruct d as [ | p | p]; [reflexivity | nia | ].
      cbn [binary_normalize] in *.
      unfold binary_round in *. destruct (shl_align p ez _) as [mz mez].
      rewrite binary_round_aux_pack in *. unfold pack in *.
      destruct (fst (round_me (Zpos mz) mez loc_Exact)); try reflexivity; try discriminate.
      destruct (_ <=? _); [reflexivity | discriminate].
Qed.

Local Close Scope Z_scope.

(** * The similarity score *)
(** *** The similarity component never raises *)

Lemma denom_nonzero (y : float) : (Py.max2 y 1e-9 =? 0) = false.
Proof.
  unfold Py.max2. destruct (y <? 1e-9) eqn:E; [reflexivity | ].
  rewrite ltb_spec, Prim2SF_1e_9 in E. rewrite eqb_spec, Prim2SF_0.
  destruct (Prim2SF y) as [s | [ | ] | | [ | ] m e];
    try reflexivity; discriminate E.
Qed.

Lemma similarity_component_value (a b : float) :
  similarity_component a b = Ok (similarity_value a b).
Proof.
  unfold similarity_component, similarity_component_cap, similarity_value.
  destruct ((a =? 0) && (b =? 0)); [reflexivity | ].
  cbv zeta. unfold Py.div at 1. rewrite denom_nonzero. cbn [bind].
  unfold Py.div. change (2 =? 0) with false. cbn [bind]. reflexivity.
Qed.

(** *** The clamp to [0, 1] *)

Lemma clamp_unit (sim : float) :
  F0 (Py.max2 0 (Py.min2 1 sim)) = true /\
  (V (Py.max2 0 (Py.min2 1 sim)) <= V 1)%Z.
Proof.
  unfold Py.max2, Py.min2.
  destruct (sim <? 1) eqn:E1.
  - destruct (0 <? sim) eqn:E2; [ | split; [reflexivity | vm_compute; discriminate]].
    assert (Hf : F0 sim = true).
    { unfold F0. rewrite ltb_spec, Prim2SF_1 in E1. rewrite ltb_spec, Prim2SF_0 in E2.
      destruct (Prim2SF sim) as [s | [ | ] | | [ | ] m e]; try discriminate; reflexivity. }
    split; [exact Hf | ].
    rewrite ltb_V in E1 by (auto using F0_Ffin). apply Z.ltb_lt in E1. lia.
  - change (0 <? 1) with true. cbv iota. split; [reflexivity | lia].
Qed.

Lemma similarity_value_unit (a b : float) :
  F0 (similarity_value a b) = true /\ (V (similarity_value a b) <= V 1)%Z.
Proof.
  unfold similarity_value.
  destruct ((a =? 0) && (b =? 0)); [split; [reflexivity | lia] | ].
  apply clamp_unit.
Qed.

(** *** Equal arguments *)

Lemma SFsub_diag (x : spec_float) :
  zero_or_nan (SFsub prec emax x x) = true.
Proof.
  destruct x as [[ | ] | [ | ] | | s m e]; try reflexivity.
  cbn [SFsub]. rewrite Z.sub_diag. reflexivity.
Qed.

Lemma SFabs_zero_or_nan (x : spec_float) :
  zero_or_nan x = true -> zero_or_nan (SFabs x) = true.
Proof. destruct x; cbn; congruence. Qed.

Lemma SFdiv_zero_or_nan (x y : spec_float) :
  zero_or_nan x = true -> zero_or_nan (SFdiv prec emax x y) = true.
Proof. destruct x, y; cbn; congruence. Qed.

Lemma similarity_value_refl (x : float) : similarity_value x x = 1.
Proof.
  unfold similarity_value.
  destruct ((x =? 0) && (x =? 0)); [reflexivity | ]. cbv zeta.
  set (denom := Py.max2 ((x + x) / 2) 1e-9).
  set (r := abs (x - x) / denom).
  assert (Hr : zero_or_nan (Prim2SF r) = true).
  { unfold r. rewrite div_spec. apply SFdiv_zero_or_nan.
    rewrite abs_spec. apply SFabs_zero_or_nan.
    rewrite sub_spec. apply SFsub_diag. }
  assert (Hm : Py.min2 r 2 = r).
  { unfold Py.min2. rewrite ltb_spec, Prim2SF_2.
    destruct (Prim2SF r); try discriminate; reflexivity. }
  rewrite Hm.
  assert (Hq : zero_or_nan (Prim2SF (r / 2)) = true).
  { rewrite div_spec. apply SFdiv_zero_or_nan. exact Hr. }
  assert (Hs : Py.min2 1 (1 - r / 2) = 1).
  { unfold Py.min2. rewrite ltb_spec, sub_spec, Prim2SF_1.
    destruct (Prim2SF (r / 2)); try discriminate; reflexivity. }
  rewrite Hs. reflexivity.
Qed.

(** *** Feature vectors holding the scored keys *)

Lemma has_keys_cons (k : string) (ks : list string) (f : dict) :
  has_keys (k :: ks) f -> (exists v, dict_get f k = Ok v) /\ has_keys ks f.
Proof.
  unfold has_keys. cbn [forallb]. intro H. apply andb_prop in H.
  destruct H as [Hk Hks]. split; [ | exact Hks].
  destruct (dict_get f k) as [v | e]; [exists v; reflexivity | discriminate].
Qed.

(** *** Bounding the weighted sum *)

Lemma step_upper (t w s G G' : float) :
  F0 t = true -> (V t <= V G)%Z ->
  F0 w = true -> F0 s = true -> (V s <= V 1)%Z ->
  F0 G' = true -> (V G + V w <= V G')%Z ->
  F0 (t + w * s) = true /\ (V (t + w * s) <= V G')%Z.
Proof.
  intros Ht HtG Hw Hs Hs1 HG' Hsum.
  pose proof (F0_V_nonneg w Hw) as Hw0.
  pose proof (F0_V_nonneg s Hs) as Hs0.
  destruct (mul_upper w s w Hw Hs Hw) as [Hp HpV].
  { change (V 1) with (2 ^ 1074)%Z in Hs1. apply Z.mul_le_mono_nonneg_l; assumption. }
  apply add_upper; try assumption. lia.
Qed.

Lemma score_loop_upper (f1 f2 : dict) (ws : dict) :
  has_keys (map fst ws) f1 -> has_keys (map fst ws) f2 ->
  forall (Gs : list float) (G t : float),
    chain (map snd ws) G Gs = true ->
    F0 t = true -> (V t <= V G)%Z ->
    exists total,
      score_loop ws f1 f2 t = Ok total /\
      F0 total = true /\ (V total <= V (final_bound Gs G))%Z.
Proof.
  induction ws as [ | [key w] ws IH]; intros H1 H2 Gs G t Hc Ht HtG.
  - destruct Gs; [ | discriminate]. exists t. auto.
  - destruct Gs as [ | G' Gs]; [discriminate | ].
    cbn [map snd chain] in Hc.
    apply andb_prop in Hc. destruct Hc as [Hc Hrest].
    apply andb_prop in Hc. destruct Hc as [Hc Hsum].
    apply andb_prop in Hc. destruct Hc as [Hw HG'].
    apply Z.leb_le in Hsum.
    cbn [map fst] in H1, H2. apply has_keys_cons in H1, H2.
    destruct H1 as [[a Ha] H1]. destruct H2 as [[b Hb] H2].
    cbn [score_loop]. rewrite Ha, Hb. cbn [bind].
    rewrite similarity_component_value. cbn [bind].
    destruct (similarity_value_unit a b) as [Hs Hs1].
    destruct (step_upper t w (similarity_value a b) G G' Ht HtG Hw Hs Hs1 HG' Hsum)
      as [Ht' HtG'].
    destruct (IH H1 H2 Gs G' _ Hrest Ht' HtG') as (total & Hl & Hf & Hv).
    exists total. auto.
Qed.

(** *** Rounding to two decimals *)

Lemma scaled_half_even_bound (m : positive) (e : Z) (B : Z) :
  (-1074 <= e)%Z ->
  (200 * (Zpos m * 2 ^ (e + 1074)) < (2 * B + 1) * 2 ^ 1074)%Z ->
  (0 <= Py.scaled_half_even m e 2 <= B)%Z.
Proof.
  intros He Hlt. unfold Py.scaled_half_even.
  change (10 ^ Z.of_nat 2)%Z with 100%Z.
  assert (Hp : (0 < 2 ^ 1074)%Z) by (apply Z.pow_pos_nonneg; lia).
  destruct e as [ | p | p].
  - cbn [Z.add] in Hlt. change (2 ^ 0)%Z with 1%Z. nia.
  - assert (Hq : (0 < 2 ^ Zpos p)%Z) by (apply Z.pow_pos_nonneg; lia).
    rewrite Z.pow_add_r in Hlt by lia. nia.
  - set (den := (2 ^ Zpos p)%Z).
    assert (Hd : (0 < den)%Z) by (apply Z.pow_pos_nonneg; lia).
    assert (Hx : (2 ^ 1074 = 2 ^ (Zneg p + 1074) * den)%Z).
    { unfold den. rewrite <- Z.pow_add_r by lia. f_equal. lia. }
    assert (Hr : (0 < 2 ^ (Zneg p + 1074))%Z) by (apply Z.pow_pos_nonneg; lia).
    rewrite Hx in Hlt.
    assert (Hnum : (2 * (Zpos m * 100) < (2 * B + 1) * den)%Z).
    { apply (Z.mul_lt_mono_pos_r (2 ^ (Zneg p + 1074))); [assumption | ].
      replace (2 * (Zpos m * 100) * 2 ^ (Zneg p + 1074))%Z
        with (200 * (Zpos m * 2 ^ (Zneg p + 1074)))%Z by ring.
      replace ((2 * B + 1) * den * 2 ^ (Zneg p + 1074))%Z
        with ((2 * B + 1) * (2 ^ (Zneg p + 1074) * den))%Z by ring.
      exact Hlt. }
    pose proof (Z.div_mod (Zpos m * 100) den ltac:(lia)) as Hdm.
    pose proof (Z.mod_pos_bound (Zpos m * 100) den Hd) as Hmb.
    assert (Hq0 : (0 <= Zpos m * 100 / den)%Z) by (apply Z.div_pos; lia).
    set (q := (Zpos m * 100 / den)%Z) in *.
    set (r := ((Zpos m * 100) mod den)%Z) in *.
    assert (Hq1 : (q <= B)%Z) by nia.
    destruct (Z.compare_spec (2 * r) den) as [Heq | Hl | Hg].
    + destruct (Z.even q); [lia | ]. assert (q < B)%Z by nia. lia.
    + lia.
    + assert (q < B)%Z by nia. lia.
Qed.

Lemma round_range (x H U : float) (B : Z) :
  F0 x = true -> (V x <= V H)%Z ->
  (200 * V H < (2 * B + 1) * 2 ^ 1074)%Z ->
  (0 <=? U) = true ->
  centis_within B U = true ->
  (0 <=? Py.round x 2) = true /\ (Py.round x 2 <=? U) = true.
Proof.
  intros Hx HxH HB HU Hall. unfold Py.round.
  pose proof (Prim2SF_valid x) as Vx.
  unfold F0 in Hx. unfold V at 1 in HxH.
  destruct (Prim2SF x) as [s | | | [ | ] m e] eqn:E; try discriminate.
  - rewrite !leb_spec, E, Prim2SF_0. rewrite leb_spec, Prim2SF_0 in HU.
    split; [reflexivity | ].
    destruct (Prim2SF U) as [ | [ | ] | | [ | ] ? ?]; try discriminate; reflexivity.
  - cbn [SFval cond_Zopp valid_binary] in *.
    pose proof (bounded_inv m e Vx) as (He & _).
    assert (Hn : (0 <= Py.scaled_half_even m e 2 <= B)%Z).
    { apply scaled_half_even_bound; [lia | ]. lia. }
    destruct (Py.scaled_half_even m e 2) as [ | n | n]; try lia.
    + split; [reflexivity | exact HU].
    + unfold centis_within in Hall. rewrite forallb_forall in Hall.
      specialize (Hall (Pos.to_nat n)).
      rewrite Pos2Nat.id in Hall. cbv zeta in Hall.
      change (Z.to_pos (10 ^ Z.of_nat 2)) with 100%positive.
      fold (centi n).
      apply andb_prop. apply Hall. apply in_seq. lia.
Qed.

(** *** Identical vectors *)

Lemma score_loop_self (f : dict) (ws : dict) :
  has_keys (map fst ws) f ->
  forall t, score_loop ws f f t = Ok (fold_left (fun t kw => t + snd kw * 1) ws t).
Proof.
  induction ws as [ | [key w] ws IH]; intros Hk t; [reflexivity | ].
  cbn [map fst] in Hk. apply has_keys_cons in Hk. destruct Hk as [[a Ha] Hk].
  cbn [score_loop fold_left snd]. rewrite Ha. cbn [bind].
  rewrite similarity_component_value, similarity_value_refl. cbn [bind].
  apply IH. exact Hk.
Qed.

Lemma score_self (f : dict) :
  has_keys scored_keys f -> compute_similarity_score f f = Ok 100.
Proof.
  intro Hk. unfold compute_similarity_score.
  rewrite (score_loop_self f weights Hk). reflexivity.
Qed.

Lemma unit_chain : chain (map snd weights) 0 unit_bounds = true.
Proof. vm_compute. reflexivity. Qed.

Lemma centis_100 : centis_within 10000 100 = true.
Proof. vm_compute. reflexivity. Qed.

(** *** Symmetry *)

Lemma SFadd_comm (x y : spec_float) : SFadd prec emax x y = SFadd prec emax y x.
Proof.
  destruct x as [[ | ] | [ | ] | | sx mx ex], y as [[ | ] | [ | ] | | sy my ey];
    try reflexivity.
  cbn [SFadd]. rewrite (Z.min_comm ey ex), Z.add_comm. reflexivity.
Qed.

Lemma add_comm (a b : float) : a + b = b + a.
Proof. apply Prim2SF_inj. rewrite !add_spec. apply SFadd_comm. Qed.

Lemma SFabs_binary_round_aux (s : bool) (m e : Z) (l : location) :
  SFabs (binary_round_aux prec emax s m e l)
  = SFabs (binary_round_aux prec emax false m e l).
Proof.
  unfold binary_round_aux.
  destruct (shr_fexp prec emax m e l) as [mrs' e'].
  destruct (shr_fexp prec emax _ e' loc_Exact) as [mrs'' e''].
  destruct (shr_m mrs''); try reflexivity.
  destruct (e'' <=? emax - prec)%Z; reflexivity.
Qed.

Lemma SFabs_binary_normalize_opp (z e : Z) :
  SFabs (binary_normalize prec emax (- z) e false)
  = SFabs (binary_normalize prec emax z e false).
Proof.
  destruct z as [ | p | p]; cbn [Z.opp binary_normalize]; try reflexivity;
    unfold binary_round;
    destruct (shl_align p e _) as [mz ez];
    rewrite (SFabs_binary_round_aux true); reflexivity.
Qed.

Lemma SFabs_sub_sym (x y : spec_float) :
  SFabs (SFsub prec emax x y) = SFabs (SFsub prec emax y x).
Proof.
  destruct x as [[ | ] | [ | ] | | sx mx ex], y as [[ | ] | [ | ] | | sy my ey];
    try reflexivity.
  cbn [SFsub]. rewrite (Z.min_comm ey ex).
  rewrite <- SFabs_binary_normalize_opp. f_equal. f_equal. lia.
Qed.

Lemma abs_sub_sym (a b : float) : abs (a - b) = abs (b - a).
Proof. apply Prim2SF_inj. rewrite !abs_spec, !sub_spec. apply SFabs_sub_sym. Qed.

Lemma similarity_value_sym (a b : float) :
  similarity_value a b = similarity_value b a.
Proof.
  unfold similarity_value.
  rewrite (andb_comm (a =? 0)), (add_comm a b), (abs_sub_sym a b). reflexivity.
Qed.

Lemma dict_get_raises (d : dict) (k : string) (e : exn) :
  dict_get d k = Raise e -> e = KeyError.
Proof.
  induction d as [ | [k' v] d IH]; cbn [dict_get].
  - congruence.
  - destruct (String.eqb k' k); [discriminate | exact IH].
Qed.

Lemma score_loop_sym (f1 f2 : dict) (ws : dict) (t : float) :
  score_loop ws f1 f2 t = score_loop ws f2 f1 t.
Proof.
  revert t. induction ws as [ | [key w] ws IH]; intro t; [reflexivity | ].
  cbn [score_loop].
  destruct (dict_get f1 key) as [a | e1] eqn:E1, (dict_get f2 key) as [b | e2] eqn:E2;
    cbn [bind].
  - rewrite !similarity_component_value, (similarity_value_sym a b). cbn [bind].
    apply IH.
  - reflexivity.
  - reflexivity.
  - apply dict_get_raises in E1, E2. congruence.
Qed.

Lemma score_sym (f1 f2 : dict) :
  compute_similarity_score f1 f2 = compute_similarity_score f2 f1.
Proof.
  unfold compute_similarity_score. rewrite score_loop_sym. reflexivity.
Qed.

(** *** Differences and quotients of numbers that are not negative *)

Lemma sub_upper (x y : float) :
  F0 x = true -> F0 y = true ->
  Ffin (x - y) = true /\ (V (x - y) <= V x)%Z.
Proof.
  intros Hx Hy. unfold F0, Ffin, V in *.
  pose proof (Prim2SF_valid x) as Vx. pose proof (Prim2SF_valid y) as Vy.
  pose proof (Prim2SF_valid (x - y)) as Vxy.
  rewrite sub_spec in *. unfold SF64sub in *.
  destruct (Prim2SF x) as [sx | | | [ | ] mx ex]; try discriminate;
    destruct (Prim2SF y) as [sy | | | [ | ] my ey]; try discriminate.
  - destruct sx, sy; split; reflexivity || (cbn; lia).
  - cbn [SFsub SFval negb cond_Zopp is_fin valid_binary] in *.
    split; [reflexivity | ].
    assert (0 <= 2 ^ (ey + 1074))%Z by (apply Z.pow_nonneg; lia). nia.
  - cbn [SFsub SFval cond_Zopp is_fin]. split; [reflexivity | lia].
  - cbn [valid_binary] in Vx, Vy.
    pose proof (bounded_inv mx ex Vx) as (? & _).
    pose proof (bounded_inv my ey Vy) as (? & _).
    destruct (SFsub_finite false mx ex false my ey) as (d & ez & Hez & Hd & Hs); try lia.
    rewrite Hs in *. cbn [SFval cond_Zopp] in *.
    assert (Hpx : (0 < Zpos mx * 2 ^ (ex + 1074))%Z)
      by (apply Z.mul_pos_pos; [lia | apply Z.pow_pos_nonneg; lia]).
    assert (Hpy : (0 < Zpos my * 2 ^ (ey + 1074))%Z)
      by (apply Z.mul_pos_pos; [lia | apply Z.pow_pos_nonneg; lia]).
    destruct d as [ | p | p]; cbn [binary_normalize] in *.
    + split; [reflexivity | cbn [SFval]; lia].
    + destruct (binary_round_upper p ez mx ex Hez Vx) as [Hl Hn]; [lia | ].
      split; [apply nonneg_sf_fin; exact Hn | ].
      rewrite SFleb_val in Hl; auto using nonneg_sf_fin.
      apply Z.leb_le in Hl. exact Hl.
    + destruct (binary_round_upper p ez my ey Hez Vy) as [_ Hn]; [lia | ].
      destruct (binary_round_neg p ez Hn) as [Hf Hv]. split; [exact Hf | lia].
Qed.

(** *** Comparisons with constants *)

Lemma SFcompare_Eq_finite (s : bool) (m : positive) (e : Z) (y : spec_float) :
  SFcompare (S754_finite s m e) y = Some Eq -> y = S754_finite s m e.
Proof.
  destruct y as [sy | sy | | sy my ey]; cbn [SFcompare].
  - destruct s; discriminate.
  - destruct sy; discriminate.
  - discriminate.
  - destruct s, sy; try discriminate;
      destruct (Z.compare_spec e ey) as [-> | | ]; try discriminate;
      intro Hc; injection Hc as Hc.
    + apply (f_equal CompOpp) in Hc. rewrite CompOpp_involutive in Hc. cbn in Hc.
      apply Pcompare_Eq_eq in Hc. subst. reflexivity.
    + apply Pcompare_Eq_eq in Hc. subst. reflexivity.
Qed.

Lemma min2_ge_2 (r : float) : (2 <=? r) = true -> Py.min2 r 2 = 2.
Proof.
  intro H. unfold Py.min2. destruct (2 <? r) eqn:E; [reflexivity | ].
  rewrite leb_spec in H. rewrite ltb_spec in E. unfold SFleb in H. unfold SFltb in E.
  rewrite Prim2SF_2 in *.
  destruct (SFcompare _ (Prim2SF r)) as [[ | | ] | ] eqn:Ec; try discriminate.
  apply SFcompare_Eq_finite in Ec. symmetry. apply Prim2SF_inj.
  rewrite Ec. exact Prim2SF_2.
Qed.

Lemma min2_1_le (sim : float) :
  Ffin sim = true -> (V sim <= V 1)%Z -> Py.min2 1 sim = sim.
Proof.
  intros Hf Hv. unfold Py.min2. destruct (sim <? 1) eqn:E; [reflexivity | ].
  rewrite ltb_V in E by (exact Hf || reflexivity). apply Z.ltb_ge in E.
  assert (Hc : SFcompare (Prim2SF 1) (Prim2SF sim) = Some Eq).
  { rewrite SFcompare_val; auto using Prim2SF_valid.
    f_equal. apply Z.compare_eq_iff. unfold V in *. lia. }
  rewrite Prim2SF_1 in Hc. apply SFcompare_Eq_finite in Hc.
  apply Prim2SF_inj. rewrite Hc. exact Prim2SF_1.
Qed.

Lemma max2_0_nonpos (x : float) : (x <=? 0) = true -> Py.max2 0 x = 0.
Proof.
  intro H. unfold Py.max2. rewrite leb_spec in H. rewrite ltb_spec.
  rewrite Prim2SF_0 in *.
  destruct (Prim2SF x) as [ | [ | ] | | [ | ] ? ?]; try discriminate; reflexivity.
Qed.

(** *** Sums that are not positive *)

Lemma half_nonpos (y : float) : (y <=? 0) = true -> (y / 2 <? 1e-9) = true.
Proof.
  intro H. rewrite leb_spec, Prim2SF_0 in H.
  rewrite ltb_spec, div_spec, Prim2SF_2, Prim2SF_1e_9. unfold SF64div.
  destruct (Prim2SF y) as [s | [ | ] | | [ | ] m e]; try discriminate.
  - reflexivity.
  - reflexivity.
  - destruct (SFdiv_finite_sign true m e false 4503599627370496 (-51))
      as (m2 & e2 & Hm2 & Hs).
    rewrite Hs. cbn [xorb]. unfold pack.
    destruct m2 as [ | p | p]; [reflexivity | | lia].
    destruct (_ <=? _)%Z; reflexivity.
Qed.

Lemma abs_not_neg (x : float) : is_nan x = false -> not_neg (Prim2SF (abs x)) = true.
Proof.
  unfold is_nan. rewrite eqb_spec, abs_spec.
  destruct (Prim2SF x) as [ | | | ? ? ?]; cbn; try reflexivity. discriminate.
Qed.

Lemma div_not_neg (x c : float) :
  not_neg (Prim2SF x) = true -> Fpos c = true -> not_neg (Prim2SF (x / c)) = true.
Proof.
  unfold Fpos. rewrite div_spec. unfold SF64div.
  destruct (Prim2SF c) as [ | | | [ | ] mc ec]; try discriminate.
  destruct (Prim2SF x) as [s | [ | ] | | [ | ] m e]; try discriminate; try reflexivity.
  intros _ _.
  destruct (SFdiv_finite_sign false m e false mc ec) as (m2 & e2 & Hm2 & Hs).
  rewrite Hs. cbn [xorb]. unfold pack.
  destruct m2 as [ | p | p]; [reflexivity | | lia].
  destruct (_ <=? _)%Z; reflexivity.
Qed.

(** *** The cap on the relative difference *)

Lemma not_neg_cases (r : float) :
  not_neg (Prim2SF r) = true ->
  Prim2SF r = S754_infinity false \/ F0 r = true.
Proof.
  unfold F0. destruct (Prim2SF r) as [ | [ | ] | | [ | ] ? ?]; cbn; auto; discriminate.
Qed.

Lemma F0_cases (r : float) : F0 r = true -> V r = 0%Z \/ Fpos r = true.
Proof.
  unfold F0, V, Fpos. destruct (Prim2SF r) as [ | | | [ | ] ? ?]; cbn [nonneg_sf SFval]; auto; discriminate.
Qed.

(** The value of [1 - r / 2] is not positive once [r] exceeds the cap. *)
Lemma over_cap (r : float) :
  not_neg (Prim2SF r) = true -> (2 <? r) = true -> (1 - r / 2 <=? 0) = true.
Proof.
  intros Hr E2. destruct (not_neg_cases r Hr) as [Hi | Hf].
  - rewrite leb_spec, sub_spec, div_spec, Hi. reflexivity.
  - rewrite ltb_V in E2 by (auto using F0_Ffin). apply Z.ltb_lt in E2.
    change (V 2) with (2 * 2 ^ 1074)%Z in E2.
    assert (Hp : (0 < 2 ^ 1074)%Z) by (apply Z.pow_pos_nonneg; lia).
    assert (Hrp : Fpos r = true) by (apply F0_pos_Fpos; [assumption | lia]).
    destruct (div_upper r 2 r Hf eq_refl Hf) as [Hq HqV].
    { change (V 2) with (2 * 2 ^ 1074)%Z. pose proof (F0_V_nonneg r Hf). nia. }
    assert (H1q : (1 <=? r / 2) = true).
    { apply div_lower; try reflexivity; try assumption.
      change (V 1) with (2 ^ 1074)%Z. change (V 2) with (2 * 2 ^ 1074)%Z. nia. }
    rewrite leb_V in H1q by (auto using F0_Ffin). apply Z.leb_le in H1q.
    destruct (sub_upper 1 (r / 2) eq_refl Hq) as [Hsf _].
    destruct (sub_sign 1 (r / 2) eq_refl (F0_Ffin _ Hq)) as [_ Hs].
    apply Hs; assumption.
Qed.

(** Below the cap nothing is clamped from above. *)
Lemma under_cap (r : float) :
  not_neg (Prim2SF r) = true -> (2 <? r) = false ->
  Py.min2 1 (1 - r / 2) = 1 - r / 2.
Proof.
  intros Hr E2. destruct (not_neg_cases r Hr) as [Hi | Hf].
  - rewrite ltb_spec, Hi in E2. discriminate.
  - rewrite ltb_V in E2 by (auto using F0_Ffin). apply Z.ltb_ge in E2.
    change (V 2) with (2 * 2 ^ 1074)%Z in E2.
    assert (Hp : (0 < 2 ^ 1074)%Z) by (apply Z.pow_pos_nonneg; lia).
    destruct (div_upper r 2 1 Hf eq_refl eq_refl) as [Hq HqV].
    { change (V 1) with (2 ^ 1074)%Z. change (V 2) with (2 * 2 ^ 1074)%Z. nia. }
    destruct (sub_upper 1 (r / 2) eq_refl Hq) as [Hsf HsV].
    apply min2_1_le; assumption.
Qed.

Lemma far_apart (x : float) :
  (2e-9 <=? x) = true -> (2 <=? x / 1e-9) = true.
Proof.
  intro H.
  assert (Hx : Prim2SF x = S754_infinity false \/ Fpos x = true).
  { rewrite leb_spec in H. unfold Fpos.
    destruct (Prim2SF x) as [ | [ | ] | | [ | ] ? ?]; try discriminate; auto. }
  destruct Hx as [Hi | Hf].
  - rewrite leb_spec, div_spec, Hi. reflexivity.
  - rewrite leb_V in H by (auto using F0_Ffin, Fpos_F0). apply Z.leb_le in H.
    apply div_lower; try reflexivity; try assumption.
    assert (Hc : (V 2 * V 1e-9 = V 2e-9 * 2 ^ 1074)%Z) by (vm_compute; reflexivity).
    rewrite Hc. apply Z.mul_le_mono_nonneg_r; [apply Z.pow_nonneg; lia | exact H].
Qed.

(** *** The extreme mismatch *)

Lemma between_fin (r U : float) :
  (0 <=? r) = true -> (r <=? U) = true -> Ffin U = true -> Ffin r = true.
Proof.
  unfold Ffin. rewrite !leb_spec, Prim2SF_0.
  destruct (Prim2SF r) as [ | [ | ] | | ? ? ?]; try discriminate; try reflexivity.
  destruct (Prim2SF U) as [ | [ | ] | | [ | ] ? ?]; discriminate.
Qed.

Lemma mismatch_chain :
  chain (map snd profile_weights) 0.013507625272331148 mismatch_bounds = true.
Proof. vm_compute. reflexivity. Qed.

Lemma centis_3635 : centis_within 3635 36.35 = true.
Proof. vm_compute. reflexivity. Qed.

Lemma score_loop_cons (key : string) (w : float) (rest f1 f2 : dict) (t : float) :
  score_loop ((key, w) :: rest) f1 f2 t
  = (a <- dict_get f1 key ;;
     b <- dict_get f2 key ;;
     sim <- similarity_component a b ;;
     score_loop rest f1 f2 (t + w * sim)).
Proof. reflexivity. Qed.

(** * The feature extractor *)

(** *** Finite numbers *)

Lemma SFcompare_refl_finite (s : bool) (m : positive) (e : Z) :
  SFcompare (S754_finite s m e) (S754_finite s m e) = Some Eq.
Proof.
  cbn [SFcompare]. rewrite Z.compare_refl.
  change (Pos.compare_cont Eq m m) with (Pos.compare m m).
  rewrite Pos.compare_refl. destruct s; reflexivity.
Qed.

Lemma is_nan_spec (x : float) :
  is_nan x = match Prim2SF x with S754_nan => true | _ => false end.
Proof.
  unfold is_nan. rewrite eqb_spec. unfold SFeqb.
  destruct (Prim2SF x) as [s | [ | ] | | s m e]; try reflexivity.
  rewrite SFcompare_refl_finite. reflexivity.
Qed.

Lemma is_infinity_spec (x : float) :
  is_infinity x = match Prim2SF x with S754_infinity _ => true | _ => false end.
Proof.
  unfold is_infinity. rewrite eqb_spec, abs_spec.
  change (Prim2SF infinity) with (S754_infinity false).
  destruct (Prim2SF x) as [s | [ | ] | | s m e]; reflexivity.
Qed.

Lemma is_finite_Ffin (x : float) : is_finite x = Ffin x.
Proof.
  unfold is_finite, Ffin. rewrite is_nan_spec, is_infinity_spec.
  destruct (Prim2SF x); reflexivity.
Qed.

Lemma sub_diag_fin (x : float) : Ffin x = true -> x - x = 0.
Proof.
  unfold Ffin. intro H. apply Prim2SF_inj. rewrite sub_spec, Prim2SF_0.
  unfold SF64sub.
  destruct (Prim2SF x) as [[ | ] | | | s m e]; try discriminate; try reflexivity.
  cbn [SFsub]. rewrite Z.sub_diag. reflexivity.
Qed.

(** The magnitude of a product does not depend on the signs. *)
Lemma SFmul_abs (sx : bool) (mx : positive) (ex : Z) (sy : bool) (my : positive) (ey : Z) :
  SFabs (SFmul prec emax (S754_finite sx mx ex) (S754_finite sy my ey))
  = SFmul prec emax (S754_finite false mx ex) (S754_finite false my ey).
Proof.
  cbn [SFmul]. rewrite !binary_round_aux_pack. cbn [xorb]. unfold pack.
  destruct (fst _); try reflexivity. destruct (_ <=? _)%Z; reflexivity.
Qed.

Lemma SFabs_fin (x : spec_float) : is_fin (SFabs x) = is_fin x.
Proof. destruct x; reflexivity. Qed.

Lemma SFabs_val (x : spec_float) : SFval (SFabs x) = Z.abs (SFval x).
Proof.
  destruct x as [ | | | [ | ] m e]; cbn [SFabs SFval cond_Zopp]; try reflexivity.
  - assert (0 <= 2 ^ (e + 1074))%Z by (apply Z.pow_nonneg; lia). nia.
  - assert (0 <= 2 ^ (e + 1074))%Z by (apply Z.pow_nonneg; lia). nia.
Qed.

Lemma abs_F0 (x : float) : Ffin x = true -> F0 (abs x) = true.
Proof.
  unfold Ffin, F0. rewrite abs_spec. destruct (Prim2SF x); cbn; congruence.
Qed.

Lemma abs_V (x : float) : V (abs x) = Z.abs (V x).
Proof. unfold V. rewrite abs_spec. apply SFabs_val. Qed.

Lemma mul_abs (x y : float) : abs (x * y) = abs x * abs y.
Proof.
  apply Prim2SF_inj. rewrite abs_spec, !mul_spec, !abs_spec. unfold SF64mul.
  destruct (Prim2SF x) as [sx | sx | | sx mx ex], (Prim2SF y) as [sy | sy | | sy my ey];
    try reflexivity.
  apply SFmul_abs.
Qed.

(** A product of finite numbers is finite when its magnitude is bounded. *)
Lemma mul_fin (x y g : float) :
  Ffin x = true -> Ffin y = true -> F0 g = true ->
  (Z.abs (V x) * Z.abs (V y) <= V g * 2 ^ 1074)%Z ->
  Ffin (x * y) = true /\ (Z.abs (V (x * y)) <= V g)%Z.
Proof.
  intros Hx Hy Hg Hle.
  destruct (mul_upper (abs x) (abs y) g (abs_F0 x Hx) (abs_F0 y Hy) Hg) as [Hf Hv].
  { rewrite !abs_V. exact Hle. }
  rewrite <- mul_abs in Hf, Hv. rewrite abs_V in Hv. split; [ | exact Hv].
  apply F0_Ffin in Hf. unfold Ffin in *. rewrite abs_spec, SFabs_fin in Hf. exact Hf.
Qed.

Lemma mul_zero_r (x : float) : Ffin x = true -> F0 (x * 0) = true /\ V (x * 0) = 0%Z.
Proof.
  unfold Ffin, F0, V. rewrite mul_spec, Prim2SF_0. unfold SF64mul.
  destruct (Prim2SF x); try discriminate; intros _; split; reflexivity.
Qed.

Lemma add_zero_l (y : float) : F0 y = true -> V y = 0%Z -> 0 + y = 0.
Proof.
  unfold F0, V. intros Hf Hv. apply Prim2SF_inj. rewrite add_spec, Prim2SF_0.
  pose proof (Prim2SF_valid y) as Vy.
  destruct (Prim2SF y) as [[ | ] | | | [ | ] m e]; try discriminate; try reflexivity.
  exfalso. cbn [SFval cond_Zopp valid_binary] in *.
  pose proof (bounded_inv m e Vy) as (? & _).
  assert (0 < Zpos m * 2 ^ (e + 1074))%Z
    by (apply Z.mul_pos_pos; [lia | apply Z.pow_pos_nonneg; lia]).
  lia.
Qed.

(** Bounds in [-1, 1] as values. *)
Lemma unit_range_V (c : float) :
  (-1 <=? c) = true -> (c <=? 1) = true ->
  Ffin c = true /\ (Z.abs (V c) <= 2 ^ 1074)%Z.
Proof.
  intros Hl Hu.
  assert (Hf : Ffin c = true).
  { unfold Ffin. rewrite leb_spec in Hl, Hu.
    change (Prim2SF (-1)) with (S754_finite true 4503599627370496 (-52)) in Hl.
    rewrite Prim2SF_1 in Hu.
    destruct (Prim2SF c) as [ | [ | ] | | ? ? ?]; try discriminate; reflexivity. }
  split; [exact Hf | ].
  rewrite leb_V in Hl, Hu by (exact Hf || reflexivity).
  apply Z.leb_le in Hl, Hu.
  change (V 1) with (2 ^ 1074)%Z in Hu. change (V (-1)) with (- 2 ^ 1074)%Z in Hl. lia.
Qed.

(** *** Opposites *)

Lemma pack_opp (s : bool) (m e : Z) : pack (negb s) m e = SFopp (pack s m e).
Proof.
  unfold pack. destruct m; try reflexivity. destruct (_ <=? _)%Z; reflexivity.
Qed.

Lemma SFsub_swap (x y : spec_float) :
  SFsub prec emax y x = SFopp (SFsub prec emax x y) \/
  (SFsub prec emax x y = S754_zero false /\ SFsub prec emax y x = S754_zero false).
Proof.
  destruct x as [[ | ] | [ | ] | | sx mx ex], y as [[ | ] | [ | ] | | sy my ey];
    cbn [SFsub SFopp negb]; auto;
    try (left; rewrite ?negb_involutive; reflexivity).
  rewrite (Z.min_comm ey ex).
  set (ez := Z.min ex ey).
  set (a := cond_Zopp sx (Zpos (fst (shl_align mx ex ez)))).
  set (b := cond_Zopp sy (Zpos (fst (shl_align my ey ez)))).
  replace (b - a)%Z with (- (a - b))%Z by lia.
  destruct (a - b)%Z as [ | p | p]; cbn [Z.opp binary_normalize]; [auto | | ]; left;
    unfold binary_round; destruct (shl_align p ez _) as [mz mez];
    rewrite !binary_round_aux_pack.
  - apply (pack_opp false).
  - rewrite <- (pack_opp true). reflexivity.
Qed.

Lemma sub_swap (x y : float) : y - x = - (x - y) \/ y - x = x - y.
Proof.
  destruct (SFsub_swap (Prim2SF x) (Prim2SF y)) as [H | [H1 H2]].
  - left. apply Prim2SF_inj. rewrite opp_spec, !sub_spec. exact H.
  - right. apply Prim2SF_inj. rewrite !sub_spec. unfold SF64sub. congruence.
Qed.

Lemma mul_opp_l (x y : float) : (- x) * y = - (x * y).
Proof.
  apply Prim2SF_inj. rewrite opp_spec, !mul_spec, opp_spec. unfold SF64mul.
  destruct (Prim2SF x) as [sx | sx | | sx mx ex], (Prim2SF y) as [sy | sy | | sy my ey];
    cbn [SFmul SFopp]; rewrite <- ?negb_xorb_l; try reflexivity.
  rewrite !binary_round_aux_pack. apply pack_opp.
Qed.

Lemma div_opp_l (x y : float) : (- x) / y = - (x / y).
Proof.
  apply Prim2SF_inj. rewrite opp_spec, !div_spec, opp_spec. unfold SF64div.
  destruct (Prim2SF x) as [sx | sx | | sx mx ex], (Prim2SF y) as [sy | sy | | sy my ey];
    cbn [SFdiv SFopp]; rewrite <- ?negb_xorb_l; try reflexivity.
  destruct (SFdiv_core_binary prec emax (Zpos mx) ex (Zpos my) ey) as [[mz ez] lz].
  rewrite !binary_round_aux_pack. apply pack_opp.
Qed.

Lemma SFmul_comm (x y : spec_float) : SFmul prec emax x y = SFmul prec emax y x.
Proof.
  destruct x as [sx | sx | | sx mx ex], y as [sy | sy | | sy my ey];
    cbn [SFmul]; rewrite ?(xorb_comm sy sx); try reflexivity.
  rewrite (Pos.mul_comm my mx), (Z.add_comm ey ex). reflexivity.
Qed.

Lemma mul_comm (x y : float) : x * y = y * x.
Proof. apply Prim2SF_inj. rewrite !mul_spec. apply SFmul_comm. Qed.

Lemma is_nan_opp (x : float) : is_nan (- x) = is_nan x.
Proof. rewrite !is_nan_spec, opp_spec. destruct (Prim2SF x); reflexivity. Qed.

Lemma is_infinity_opp (x : float) : is_infinity (- x) = is_infinity x.
Proof. rewrite !is_infinity_spec, opp_spec. destruct (Prim2SF x); reflexivity. Qed.

Lemma is_finite_opp (x : float) : is_finite (- x) = is_finite x.
Proof. unfold is_finite. rewrite is_nan_opp, is_infinity_opp. reflexivity. Qed.

Lemma abs_opp (x : float) : abs (- x) = abs x.
Proof.
  apply Prim2SF_inj. rewrite !abs_spec, opp_spec. destruct (Prim2SF x); reflexivity.
Qed.

Lemma opp_nan (x : float) : is_nan x = true -> - x = x.
Proof.
  rewrite is_nan_spec. intro H. apply Prim2SF_inj. rewrite opp_spec.
  destruct (Prim2SF x); try discriminate. reflexivity.
Qed.

Lemma eqb_0_opp (x : float) : (- x =? 0) = (x =? 0).
Proof.
  rewrite !eqb_spec, opp_spec, Prim2SF_0.
  destruct (Prim2SF x) as [[ | ] | [ | ] | | [ | ] ? ?]; reflexivity.
Qed.

(** Away from zero and NaN the base handed to [pow] is the magnitude. *)
Lemma pow_base_abs (x : float) :
  is_nan x = false -> (x =? 0) = false ->
  (if x <? 0 then - x else x) = abs x.
Proof.
  rewrite is_nan_spec, eqb_spec, ltb_spec, Prim2SF_0. intros Hn Hz.
  apply Prim2SF_inj. rewrite abs_spec.
  destruct (Prim2SF x) as [[ | ] | [ | ] | | [ | ] ? ?] eqn:E; try discriminate;
    cbn [SFltb SFcompare]; rewrite ?opp_spec, E; reflexivity.
Qed.

Lemma pow2_opp (c_pow : float -> float -> float) (x : float) :
  Py.pow2 c_pow (- x) = Py.pow2 c_pow x.
Proof.
  unfold Py.pow2. rewrite is_nan_opp, is_infinity_opp, abs_opp, eqb_0_opp.
  destruct (is_nan x) eqn:Hn; [rewrite (opp_nan x Hn); reflexivity | ].
  destruct (is_infinity x); [reflexivity | ].
  destruct (x =? 0) eqn:Hz; [reflexivity | ].
  rewrite (pow_base_abs x Hn Hz).
  rewrite (pow_base_abs (- x)) by (rewrite ?is_nan_opp, ?eqb_0_opp; assumption).
  rewrite abs_opp. reflexivity.
Qed.

Lemma math_1_raises (f : float -> float) (x : float) (e : exn) :
  Math.math_1 f x = Raise e -> e = ValueError.
Proof.
  unfold Math.math_1.
  destruct (is_nan (f x) && negb (is_nan x)); [congruence | ].
  destruct (is_infinity (f x) && is_finite x); congruence.
Qed.

Section Symmetry.

Variables c_sin c_cos : float -> float.
Variables c_atan2 c_pow : float -> float -> float.

(** [sin] is an odd function. *)
Hypothesis sin_odd : forall x, c_sin (- x) = - c_sin x.

Lemma sin_sq_opp (u : float) (k : float -> result float) :
  (s <- Math.math_1 c_sin (- u) ;; p <- Py.pow2 c_pow s ;; k p)
  = (s <- Math.math_1 c_sin u ;; p <- Py.pow2 c_pow s ;; k p).
Proof.
  unfold Math.math_1. rewrite sin_odd, !is_nan_opp, is_infinity_opp, is_finite_opp.
  destruct (is_nan (c_sin u) && negb (is_nan u)); [reflexivity | ].
  destruct (is_infinity (c_sin u) && is_finite u); [reflexivity | ].
  cbn [bind]. rewrite pow2_opp. reflexivity.
Qed.

Lemma sin_sq_swap (x y : float) (k : float -> result float) :
  (s <- Math.math_1 c_sin (Math.radians (x - y) / 2) ;; p <- Py.pow2 c_pow s ;; k p)
  = (s <- Math.math_1 c_sin (Math.radians (y - x) / 2) ;; p <- Py.pow2 c_pow s ;; k p).
Proof.
  destruct (sub_swap y x) as [H | H]; rewrite H; [ | reflexivity].
  unfold Math.radians. rewrite mul_opp_l, div_opp_l. apply sin_sq_opp.
Qed.

Lemma haversine_sym (lat1 lon1 lat2 lon2 : float) :
  haversine c_sin c_cos c_atan2 c_pow lat1 lon1 lat2 lon2
  = haversine c_sin c_cos c_atan2 c_pow lat2 lon2 lat1 lon1.
Proof.
  unfold haversine. cbv zeta.
  rewrite (sin_sq_swap lat2 lat1).
  destruct (Math.math_1 c_sin (Math.radians (lat1 - lat2) / 2)) as [s1 | e]; [ | reflexivity].
  cbn [bind]. destruct (Py.pow2 c_pow s1) as [p1 | e]; [ | reflexivity]. cbn [bind].
  destruct (Math.math_1 c_cos (Math.radians lat1)) as [c1 | e1] eqn:E1,
           (Math.math_1 c_cos (Math.radians lat2)) as [c2 | e2] eqn:E2; cbn [bind];
    try reflexivity.
  - rewrite (sin_sq_swap lon2 lon1), (mul_comm c2 c1). reflexivity.
  - apply math_1_raises in E1, E2. congruence.
Qed.

End Symmetry.

(** *** The distance from a point to itself *)

Section Distance.

Variables c_sin c_cos : float -> float.
Variables c_atan2 c_pow : float -> float -> float.

(** [sin] maps zero to zero, as the C standard requires. *)
Hypothesis sin_zero : c_sin 0 = 0.

(** On finite arguments [cos] stays within [-1, 1]. *)
Hypothesis cos_unit :
  forall x, is_finite x = true -> (-1 <=? c_cos x) = true /\ (c_cos x <=? 1) = true.

Lemma radians_fin (x : float) : Ffin x = true -> Ffin (Math.radians x) = true.
Proof.
  intro Hx. unfold Math.radians.
  destruct (mul_fin x Math.degToRad (abs x) Hx eq_refl (abs_F0 x Hx)) as [Hf _];
    [ | exact Hf].
  rewrite abs_V. apply Z.mul_le_mono_nonneg_l; [lia | ]. vm_compute. discriminate.
Qed.

Lemma cos_ok (x : float) :
  Ffin x = true ->
  Math.math_1 c_cos x = Ok (c_cos x) /\
  Ffin (c_cos x) = true /\ (Z.abs (V (c_cos x)) <= 2 ^ 1074)%Z.
Proof.
  intro Hx. rewrite <- is_finite_Ffin in Hx.
  destruct (cos_unit x Hx) as [Hl Hu].
  destruct (unit_range_V (c_cos x) Hl Hu) as [Hf Hv].
  split; [ | auto].
  unfold Math.math_1. rewrite is_nan_spec, is_infinity_spec.
  unfold Ffin in Hf. destruct (Prim2SF (c_cos x)); try discriminate; reflexivity.
Qed.

Lemma haversine_same (lat lon : float) :
  is_finite lat = true -> is_finite lon = true ->
  haversine c_sin c_cos c_atan2 c_pow lat lon lat lon = Ok 0.
Proof.
  rewrite !is_finite_Ffin. intros Hlat Hlon. unfold haversine.
  rewrite (sub_diag_fin lat Hlat), (sub_diag_fin lon Hlon).
  change (Math.radians 0 / 2) with 0.
  assert (Hs : Math.math_1 c_sin 0 = Ok 0).
  { unfold Math.math_1. rewrite sin_zero. reflexivity. }
  rewrite Hs. cbn [bind]. change (Py.pow2 c_pow 0) with (@Ok float 0). cbn [bind].
  destruct (cos_ok (Math.radians lat) (radians_fin lat Hlat)) as (Hc & Hf & Hv).
  rewrite Hc. cbn [bind].
  set (c := c_cos (Math.radians lat)) in *.
  destruct (mul_fin c c 1 Hf Hf eq_refl) as [Hcc _].
  { change (V 1) with (2 ^ 1074)%Z. apply Z.mul_le_mono_nonneg; lia. }
  destruct (mul_zero_r (c * c) Hcc) as [Hz0 HzV].
  rewrite (add_zero_l _ Hz0 HzV). reflexivity.
Qed.

End Distance.

(** *** Pieces of the extractor *)

Lemma len_cons_pos {A : Type} (x : A) (l : list A) : (0 < len (x :: l))%Z.
Proof. unfold len. cbn [List.length]. lia. Qed.

Lemma len_filter_le {A : Type} (p : A -> bool) (l : list A) :
  (0 <= len (filter p l) <= len l)%Z.
Proof. unfold len. pose proof (filter_length_le p l). lia. Qed.

Lemma div_int_cases (x : float) (n : Z) :
  (0 < n)%Z ->
  (exists v, Py.div_int x n = Ok v) \/ Py.div_int x n = Raise OverflowError.
Proof.
  intro Hn. unfold Py.div_int, Py.float_of_int.
  destruct (is_infinity _); cbn [bind]; [right; reflexivity | left].
  destruct (Z.eqb_spec n 0); [lia | eexists; reflexivity].
Qed.

Lemma div_int_1 (x : float) : Py.div_int x 1 = Ok (x / 1).
Proof. reflexivity. Qed.

Lemma avg_grade_cases (gv : list float) :
  (exists avg,
     match gv with
     | [] => Ok 0
     | _ :: _ => Py.div_int (Py.sum gv) (len gv)
     end = Ok avg) \/
  match gv with
  | [] => Ok 0
  | _ :: _ => Py.div_int (Py.sum gv) (len gv)
  end = Raise OverflowError.
Proof.
  destruct gv as [ | g gv]; [left; eexists; reflexivity | ].
  apply div_int_cases, len_cons_pos.
Qed.

Lemma pow2_raises (c_pow : float -> float -> float) (x : float) (e : exn) :
  Py.pow2 c_pow x = Raise e -> e = OverflowError.
Proof.
  unfold Py.pow2.
  destruct (is_nan x); [discriminate | ].
  destruct (is_infinity x); [discriminate | ].
  destruct (x =? 0); [discriminate | ].
  destruct (_ =? 1); [discriminate | ].
  destruct (is_infinity _); congruence.
Qed.

Lemma sum_sq_dev_raises (c_pow : float -> float -> float) (avg : float)
    (gv : list float) (acc : float) (e : exn) :
  sum_sq_dev c_pow avg gv acc = Raise e -> e = OverflowError.
Proof.
  revert acc. induction gv as [ | g gv IH]; intro acc; cbn [sum_sq_dev].
  - discriminate.
  - destruct (Py.pow2 c_pow (g - avg)) as [p | e'] eqn:Ep; cbn [bind].
    + apply IH.
    + intro H. injection H as <-. apply pow2_raises in Ep. exact Ep.
Qed.

Lemma variance_cases (c_pow : float -> float -> float) (avg : float) (gv : list float) :
  (exists var,
     (if (0 <? len gv)%Z
      then sq <- sum_sq_dev c_pow avg gv 0 ;; Py.div_int sq (len gv)
      else Ok 0) = Ok var) \/
  (if (0 <? len gv)%Z
   then sq <- sum_sq_dev c_pow avg gv 0 ;; Py.div_int sq (len gv)
   else Ok 0) = Raise OverflowError.
Proof.
  destruct (Z.ltb_spec 0 (len gv)) as [Hpos | ]; [ | left; eexists; reflexivity].
  destruct (sum_sq_dev c_pow avg gv 0) as [sq | e] eqn:Es; cbn [bind].
  - apply div_int_cases. assumption.
  - right. apply sum_sq_dev_raises in Es. congruence.
Qed.

Lemma sqrt_cases (x : float) :
  (exists r, Math.sqrt x = Ok r) \/ Math.sqrt x = Raise ValueError.
Proof.
  destruct (Math.sqrt x) as [r | e] eqn:E; [left; eexists; reflexivity | right].
  apply math_1_raises in E. congruence.
Qed.

Lemma int_truediv_unit (a b : Z) :
  (0 <= a <= b)%Z -> (0 < b)%Z ->
  exists v, Py.int_truediv a b = Ok v /\ unit_share v.
Proof.
  intros Ha Hb. unfold Py.int_truediv.
  destruct b as [ | q | q]; try lia.
  destruct a as [ | p | p]; try lia.
  - exists 0. split; [reflexivity | split; reflexivity].
  - change (Zpos p <? 0)%Z with false. change (Zpos q <? 0)%Z with false.
    change (Z.to_pos (Z.abs (Zpos p))) with p.
    change (Z.to_pos (Z.abs (Zpos q))) with q.
    set (out := SFdiv prec emax (S754_finite false p 0) (S754_finite false q 0)).
    assert (Hv : valid_binary out = true) by apply SFdiv_finite_valid.
    destruct (SFdiv_finite_upper p 0 q 0 4503599627370496 (-52) 1074 eq_refl)
      as [Hle Hnn]; try lia.
    fold out in Hle, Hnn. cbv zeta.
    assert (Hinf : is_infinity (SF2Prim out) = false).
    { rewrite is_infinity_spec, (Prim2SF_SF2Prim out Hv).
      destruct out as [ | [ | ] | | [ | ] ? ?]; try discriminate; reflexivity. }
    rewrite Hinf. eexists. split; [reflexivity | ].
    unfold unit_share. rewrite !leb_spec, (Prim2SF_SF2Prim out Hv), Prim2SF_0, Prim2SF_1.
    split; [ | exact Hle].
    destruct out as [ | | | [ | ] ? ?]; try discriminate; reflexivity.
Qed.

Lemma shares_ok (up : list float) :
  exists s10 s20,
    match up with
    | [] => Ok (0, 0)
    | _ :: _ =>
        s10 <- Py.int_truediv (len (filter (fun g => 10 <=? g) up)) (len up) ;;
        s20 <- Py.int_truediv (len (filter (fun g => 20 <=? g) up)) (len up) ;;
        Ok (s10, s20)
    end = Ok (s10, s20) /\ unit_share s10 /\ unit_share s20.
Proof.
  destruct up as [ | g up].
  - exists 0, 0. split; [reflexivity | split; split; reflexivity].
  - set (l := g :: up).
    destruct (int_truediv_unit (len (filter (fun g => 10 <=? g) l)) (len l))
      as (s10 & E10 & U10); [apply len_filter_le | apply len_cons_pos | ].
    destruct (int_truediv_unit (len (filter (fun g => 20 <=? g) l)) (len l))
      as (s20 & E20 & U20); [apply len_filter_le | apply len_cons_pos | ].
    exists s10, s20. rewrite E10, E20. cbn [bind]. auto.
Qed.

Lemma last_map_cons {A : Type} (f : A -> float) (r : A) (rest : list A)
    (d : float) (d' : A) :
  last (f r :: map f rest) d = f (last (r :: rest) d').
Proof.
  revert r. induction rest as [ | x rest IH]; intro r; [reflexivity | ].
  change (last (f r :: map f (x :: rest)) d) with (last (f x :: map f rest) d).
  change (last (r :: x :: rest) d') with (last (x :: rest) d').
  apply IH.
Qed.

(** *** Scenario A *)

Lemma ltb_0_neq (d : float) : (0 <? d) = true -> (d =? 0) = false.
Proof.
  rewrite ltb_spec, eqb_spec, Prim2SF_0.
  destruct (Prim2SF d) as [ | [ | ] | | [ | ] ? ?]; try discriminate; reflexivity.
Qed.

Section ScenarioA.

Variables c_sin c_cos : float -> float.
Variables c_atan2 c_pow : float -> float -> float.

Hypothesis pow_5_2 : c_pow 5 2 = 25.

Lemma scenario_A_extract (d : float) :
  haversine c_sin c_cos c_atan2 c_pow 45 9 45.01 9 = Ok d ->
  exists sinuosity,
    extract_features c_sin c_cos c_atan2 c_pow scenario_A
    = Ok [ ("total_distance_km"%string, 1);
           ("total_elev_gain_m"%string, 100);
           ("km_effort"%string, 2);
           ("max_elev_m"%string, 200);
           ("min_elev_m"%string, 100);
           ("elev_range_m"%string, 100);
           ("avg_grade"%string, 5);
           ("std_grade"%string, 5);
           ("steep10_share"%string, 1);
           ("steep20_share"%string, 0);
           ("sinuosity"%string, sinuosity) ].
Proof.
  intro Hd. unfold extract_features, scenario_A.
  cbn [map Py.max_list Py.min_list bind hd last Latitude Longitude].
  rewrite Hd.
  set (gv := filter _ _).
  assert (Hgv : gv = [0; 10]) by reflexivity. rewrite Hgv. clear gv Hgv.
  change (Py.div_int (Py.sum [0; 10]) (len [0; 10])) with (@Ok float 5). cbn [bind].
  change (0 <? len [0; 10])%Z with true. cbv iota.
  cbn [sum_sq_dev].
  assert (Hp1 : Py.pow2 c_pow (0 - 5) = Ok 25).
  { unfold Py.pow2. change (is_nan (0 - 5)) with false. 
    change (is_infinity (0 - 5)) with false. change (0 - 5 =? 0) with false. cbv iota.
    change (0 - 5 <? 0) with true. cbv iota. change (- (0 - 5)) with 5.
    change (5 =? 1) with false. cbv iota. cbv zeta. rewrite pow_5_2. reflexivity. }
  assert (Hp2 : Py.pow2 c_pow (10 - 5) = Ok 25).
  { unfold Py.pow2. change (10 - 5) with 5. change (is_nan 5) with false. 
    change (is_infinity 5) with false. change (5 =? 0) with false. cbv iota.
    change (5 <? 0) with false. cbv iota.
    change (5 =? 1) with false. cbv iota. cbv zeta. rewrite pow_5_2. reflexivity. }
  rewrite Hp1. cbn [bind]. rewrite Hp2. cbn [bind].
  change (Py.div_int (0 + 25 + 25) (len [0; 10])) with (@Ok float 25). cbn [bind].
  change (Math.sqrt 25) with (@Ok float 5). cbn [bind].
  set (up := filter _ _).
  assert (Hup : up = [10]) by reflexivity. rewrite Hup. clear up Hup.
  change (filter (fun g : float => 10 <=? g) [10]) with [10].
  change (filter (fun g : float => 20 <=? g) [10]) with (@nil float).
  change (Py.int_truediv (len [10]) (len [10])) with (@Ok float 1).
  change (Py.int_truediv (len []) (len [10])) with (@Ok float 0).
  cbn [bind fst snd fold_left].
  change (Py.max2 0 1) with 1. change (Py.max2 0 100) with 100.
  change (Py.max2 100 200) with 200. change (Py.min2 100 200) with 100.
  change (200 - 100) with 100. change (1 + 100 / 100) with 2.
  destruct (0 <? d) eqn:E.
  - unfold Py.div. rewrite (ltb_0_neq d E). cbn [bind]. eexists. reflexivity.
  - cbn [bind]. eexists. reflexivity.
Qed.

End ScenarioA.

(** *** Maxima and minima of lists *)

Lemma leb_0_not_neg (x : float) : (0 <=? x) = not_neg (Prim2SF x).
Proof.
  rewrite leb_spec, Prim2SF_0.
  destruct (Prim2SF x) as [ | [ | ] | | [ | ] ? ?]; reflexivity.
Qed.

Lemma fold_max2_nonneg (l : list float) (x : float) :
  (0 <=? x) = true -> Forall (fun y => (0 <=? y) = true) l ->
  (0 <=? fold_left Py.max2 l x) = true.
Proof.
  revert x. induction l as [ | y l IH]; intros x Hx Hl; [exact Hx | ].
  inversion Hl as [ | ? ? Hy Hl']; subst. cbn [fold_left]. apply IH; [ | exact Hl'].
  unfold Py.max2. destruct (x <? y); assumption.
Qed.

Lemma fold_max2_fin (l : list float) (x : float) :
  Ffin x = true -> Forall (fun y => Ffin y = true) l ->
  Ffin (fold_left Py.max2 l x) = true /\ (V x <= V (fold_left Py.max2 l x))%Z.
Proof.
  revert x. induction l as [ | y l IH]; intros x Hx Hl; [cbn [fold_left]; split; [exact Hx | lia] | ].
  inversion Hl as [ | ? ? Hy Hl']; subst. cbn [fold_left].
  assert (Hm : Ffin (Py.max2 x y) = true /\ (V x <= V (Py.max2 x y))%Z).
  { unfold Py.max2. destruct (x <? y) eqn:E; [ | split; [exact Hx | lia]].
    rewrite ltb_V in E by assumption. apply Z.ltb_lt in E. split; [exact Hy | lia]. }
  destruct Hm as [Hmf Hmv]. destruct (IH _ Hmf Hl') as [Hf Hv]. split; [exact Hf | lia].
Qed.

Lemma fold_min2_fin (l : list float) (x : float) :
  Ffin x = true -> Forall (fun y => Ffin y = true) l ->
  Ffin (fold_left Py.min2 l x) = true /\ (V (fold_left Py.min2 l x) <= V x)%Z.
Proof.
  revert x. induction l as [ | y l IH]; intros x Hx Hl; [cbn [fold_left]; split; [exact Hx | lia] | ].
  inversion Hl as [ | ? ? Hy Hl']; subst. cbn [fold_left].
  assert (Hm : Ffin (Py.min2 x y) = true /\ (V (Py.min2 x y) <= V x)%Z).
  { unfold Py.min2. destruct (y <? x) eqn:E; [ | split; [exact Hx | lia]].
    rewrite ltb_V in E by assumption. apply Z.ltb_lt in E. split; [exact Hy | lia]. }
  destruct Hm as [Hmf Hmv]. destruct (IH _ Hmf Hl') as [Hf Hv]. split; [exact Hf | lia].
Qed.

Lemma SFadd_not_neg (x y : spec_float) :
  not_neg x = true -> not_neg y = true -> not_neg (SFadd prec emax x y) = true.
Proof.
  destruct x as [sx | [ | ] | | [ | ] mx ex]; try discriminate;
    destruct y as [sy | [ | ] | | [ | ] my ey]; try discriminate;
    intros _ _; try reflexivity.
  - destruct sx, sy; reflexivity.
  - cbn [SFadd cond_Zopp].
    change (Zpos ?a + Zpos ?b)%Z with (Zpos (a + b)). cbn [binary_normalize].
    destruct (binary_round_nonneg_shape
                (fst (shl_align mx ex (Z.min ex ey)) + fst (shl_align my ey (Z.min ex ey)))
                (Z.min ex ey)) as [Hi | Hn]; cbv zeta in *.
    + rewrite Hi. reflexivity.
    + destruct (binary_round _ _ _ _ _) as [ | | | [ | ] ? ?]; try discriminate; reflexivity.
Qed.

Lemma km_effort_nonneg (td tg : float) :
  (0 <=? td) = true -> (0 <=? tg) = true -> (0 <=? td + tg / 100) = true.
Proof.
  rewrite !leb_0_not_neg. intros Hd Hg. rewrite add_spec.
  apply SFadd_not_neg; [exact Hd | ]. apply div_not_neg; [exact Hg | reflexivity].
Qed.

Lemma range_nonneg (mx mn : float) :
  Ffin mx = true -> Ffin mn = true -> (V mn <= V mx)%Z -> (0 <=? mx - mn) = true.
Proof.
  intros Hx Hn Hv. destruct (sub_sign mx mn Hx Hn) as [H _]. apply H. exact Hv.
Qed.

Lemma well_formed_spec (r : row) :
  well_formed r = true ->
  (0 <=? Distance_km r) = true /\ (0 <=? Cumulative_Elevation_Gain_m r) = true /\
  is_finite (Elevation_m r) = true.
Proof.
  unfold well_formed. intro H. apply andb_prop in H. destruct H as [H He].
  apply andb_prop in H. destruct H as [Hd Hg]. auto.
Qed.

Section Extraction.

Variables c_sin c_cos : float -> float.
Variables c_atan2 c_pow : float -> float -> float.

(** C7: for rows with a distance and a cumulative gain that are not negative
    and an elevation that is a finite number, a feature vector the extractor
    returns has [elev_range_m = max_elev_m - min_elev_m >= 0], both steep
    shares within [0, 1], and total distance, total gain and effort that are
    not negative. *)
Theorem extracted_invariant (rows : list row) (f : dict) :
  forallb well_formed rows = true ->
  extract_features c_sin c_cos c_atan2 c_pow rows = Ok f ->
  feature_invariant f.
Proof.
  intros Hwf Hf. destruct rows as [ | r rest]; [discriminate | ].
  cbn [forallb] in Hwf. apply andb_prop in Hwf. destruct Hwf as [Hr Hrest].
  apply well_formed_spec in Hr. destruct Hr as (Hd & Hg & He).
  assert (Hall : Forall (fun x => well_formed x = true) rest).
  { apply Forall_forall. apply forallb_forall. exact Hrest. }
  clear Hrest.
  unfold extract_features in Hf.
  cbn [map Py.max_list Py.min_list bind hd] in Hf.
  set (gv := filter _ (_ :: _)) in Hf.
  destruct (avg_grade_cases gv) as [[avg Havg] | Havg]; rewrite Havg in Hf;
    cbn [bind] in Hf; [ | discriminate].
  destruct (variance_cases c_pow avg gv) as [[var Hv] | Hv]; rewrite Hv in Hf;
    cbn [bind] in Hf; [ | discriminate].
  destruct (Math.sqrt var) as [sd | ?]; cbn [bind] in Hf; [ | discriminate].
  destruct (shares_ok (filter (fun g => 0 <? g) gv)) as (s10 & s20 & Hsh & U10 & U20).
  rewrite Hsh in Hf. cbn [bind fst snd] in Hf.
  destruct (haversine _ _ _ _ _ _ _ _) as [bee | ?]; cbn [bind] in Hf; [ | discriminate].
  set (td := fold_left Py.max2 (map Distance_km rest) (Distance_km r)) in *.
  set (tg := fold_left Py.max2 (map Cumulative_Elevation_Gain_m rest)
               (Cumulative_Elevation_Gain_m r)) in *.
  set (mx := fold_left Py.max2 (map Elevation_m rest) (Elevation_m r)) in *.
  set (mn := fold_left Py.min2 (map Elevation_m rest) (Elevation_m r)) in *.
  assert (Htd : (0 <=? td) = true).
  { apply fold_max2_nonneg; [exact Hd | ]. rewrite Forall_map.
    eapply Forall_impl; [ | exact Hall].
    intros x Hx. apply well_formed_spec in Hx. apply Hx. }
  assert (Htg : (0 <=? tg) = true).
  { apply fold_max2_nonneg; [exact Hg | ]. rewrite Forall_map.
    eapply Forall_impl; [ | exact Hall].
    intros x Hx. apply well_formed_spec in Hx. apply Hx. }
  assert (Hfin : Forall (fun y => Ffin y = true) (map Elevation_m rest)).
  { rewrite Forall_map. eapply Forall_impl; [ | exact Hall].
    intros x Hx. apply well_formed_spec in Hx. rewrite <- is_finite_Ffin. apply Hx. }
  rewrite is_finite_Ffin in He.
  destruct (fold_max2_fin _ _ He Hfin) as [Hmxf Hmxv]. fold mx in Hmxf, Hmxv.
  destruct (fold_min2_fin _ _ He Hfin) as [Hmnf Hmnv]. fold mn in Hmnf, Hmnv.
  assert (Hout : exists sinuosity,
             f = [ ("total_distance_km"%string, td);
                   ("total_elev_gain_m"%string, tg);
                   ("km_effort"%string, td + tg / 100);
                   ("max_elev_m"%string, mx);
                   ("min_elev_m"%string, mn);
                   ("elev_range_m"%string, mx - mn);
                   ("avg_grade"%string, avg);
                   ("std_grade"%string, sd);
                   ("steep10_share"%string, s10);
                   ("steep20_share"%string, s20);
                   ("sinuosity"%string, sinuosity) ]).
  { destruct (0 <? bee).
    - unfold Py.div in Hf. destruct (bee =? 0); cbn [bind] in Hf; [discriminate | ].
      injection Hf as <-. eexists; reflexivity.
    - cbn [bind] in Hf. injection Hf as <-. eexists; reflexivity. }
  destruct Hout as [sinuosity ->].
  exists td, tg, (td + tg / 100), mx, mn, (mx - mn), s10, s20.
  repeat (split; [reflexivity | ]).
  split; [apply range_nonneg; try assumption; lia | ].
  split; [exact U10 | ]. split; [exact U20 | ].
  split; [exact Htd | ]. split; [exact Htg | ].
  apply km_effort_nonneg; assumption.
Qed.

(** [sin] maps zero to zero, as the C standard requires. *)
Hypothesis sin_zero : c_sin 0 = 0.

(** On finite arguments [cos] stays within [-1, 1]. *)
Hypothesis cos_unit :
  forall x, is_finite x = true -> (-1 <=? c_cos x) = true /\ (c_cos x <=? 1) = true.

Lemma extract_features_loop (r : row) (rest : list row) :
  Latitude (last (r :: rest) r) = Latitude r ->
  Longitude (last (r :: rest) r) = Longitude r ->
  is_finite (Latitude r) = true -> is_finite (Longitude r) = true ->
  match extract_features c_sin c_cos c_atan2 c_pow (r :: rest) with
  | Ok f => dict_get f "sinuosity" = Ok 1
  | Raise e => e = OverflowError \/ e = ValueError
  end.
Proof.
  intros Hlat Hlon Flat Flon.
  unfold extract_features.
  cbn [map Py.max_list Py.min_list bind hd].
  rewrite (last_map_cons Latitude r rest 0 r), (last_map_cons Longitude r rest 0 r).
  rewrite Hlat, Hlon.
  rewrite (haversine_same c_sin c_cos c_atan2 c_pow sin_zero cos_unit _ _ Flat Flon).
  set (gv := filter _ (_ :: _)).
  destruct (avg_grade_cases gv) as [[avg Havg] | Havg]; rewrite Havg; cbn [bind];
    [ | left; reflexivity].
  destruct (variance_cases c_pow avg gv) as [[var Hv] | Hv]; rewrite Hv;
    cbn [bind]; [ | left; reflexivity].
  destruct (sqrt_cases var) as [[sd Hs] | Hs]; rewrite Hs; cbn [bind];
    [ | right; reflexivity].
  destruct (shares_ok (filter (fun g => 0 <? g) gv)) as (s10 & s20 & Hsh & _).
  rewrite Hsh. cbn [bind]. reflexivity.
Qed.

End Extraction.

(** *** A route of one point *)

Lemma add_0_l_val (g : float) : Ffin g = true -> Ffin (0 + g) = true /\ V (0 + g) = V g.
Proof.
  unfold Ffin, V. rewrite add_spec, Prim2SF_0. unfold SF64add.
  destruct (Prim2SF g) as [[ | ] | | | ? ? ?]; try discriminate; intros _; split; reflexivity.
Qed.

Lemma opp_val (x : float) : V (- x) = (- V x)%Z.
Proof.
  unfold V. rewrite opp_spec.
  destruct (Prim2SF x) as [ | | | [ | ] m e]; cbn [SFopp SFval negb cond_Zopp]; lia.
Qed.

Lemma opp_fin (x : float) : Ffin (- x) = Ffin x.
Proof. unfold Ffin. rewrite opp_spec. destruct (Prim2SF x); reflexivity. Qed.

Lemma opp_involutive (x : float) : - - x = x.
Proof.
  apply Prim2SF_inj. rewrite !opp_spec.
  destruct (Prim2SF x); cbn [SFopp]; rewrite ?negb_involutive; reflexivity.
Qed.

Lemma div_1_pos (x : float) : Fpos x = true -> Ffin (x / 1) = true /\ V (x / 1) = V x.
Proof.
  intro Hx. pose proof (Fpos_F0 x Hx) as H0.
  destruct (div_upper x 1 x H0 eq_refl H0) as [Hf Hu].
  { change (V 1) with (2 ^ 1074)%Z. lia. }
  assert (Hl : (x <=? x / 1) = true).
  { apply div_lower; try assumption; reflexivity. }
  rewrite leb_V in Hl by (auto using F0_Ffin). apply Z.leb_le in Hl.
  split; [apply F0_Ffin; exact Hf | lia].
Qed.

Lemma div_1_val (x : float) : Ffin x = true -> Ffin (x / 1) = true /\ V (x / 1) = V x.
Proof.
  intro Hx.
  assert (Hc : V x = 0%Z /\ Prim2SF (x / 1) = Prim2SF x \/ Fpos x = true \/ Fpos (- x) = true).
  { unfold Ffin, V, Fpos in *. rewrite opp_spec, div_spec, Prim2SF_1. unfold SF64div.
    destruct (Prim2SF x) as [[ | ] | | | [ | ] ? ?]; try discriminate; cbn; auto. }
  destruct Hc as [[Hz He] | [Hp | Hn]].
  - unfold Ffin, V in *. rewrite He. auto.
  - apply div_1_pos. exact Hp.
  - destruct (div_1_pos (- x) Hn) as [Hf Hv].
    rewrite div_opp_l, opp_fin in Hf. rewrite div_opp_l, !opp_val in Hv.
    split; [exact Hf | lia].
Qed.

Lemma sub_same_val (x y : float) :
  Ffin x = true -> Ffin y = true -> V x = V y -> (x - y =? 0) = true.
Proof.
  intros Hx Hy Hv. unfold Ffin, V in *.
  pose proof (Prim2SF_valid x) as Vx. pose proof (Prim2SF_valid y) as Vy.
  rewrite eqb_spec, sub_spec, Prim2SF_0. unfold SF64sub.
  destruct (Prim2SF x) as [sx | | | sx mx ex]; try discriminate;
    destruct (Prim2SF y) as [sy | | | sy my ey]; try discriminate.
  - destruct sx, sy; reflexivity.
  - exfalso. cbn [SFval valid_binary] in *.
    pose proof (bounded_inv my ey Vy) as (? & _).
    assert (0 < Zpos my * 2 ^ (ey + 1074))%Z
      by (apply Z.mul_pos_pos; [lia | apply Z.pow_pos_nonneg; lia]).
    destruct sy; cbn [cond_Zopp] in Hv; lia.
  - exfalso. cbn [SFval valid_binary] in *.
    pose proof (bounded_inv mx ex Vx) as (? & _).
    assert (0 < Zpos mx * 2 ^ (ex + 1074))%Z
      by (apply Z.mul_pos_pos; [lia | apply Z.pow_pos_nonneg; lia]).
    destruct sx; cbn [cond_Zopp] in Hv; lia.
  - cbn [valid_binary] in Vx, Vy.
    pose proof (bounded_inv mx ex Vx) as (? & _).
    pose proof (bounded_inv my ey Vy) as (? & _).
    destruct (SFsub_finite sx mx ex sy my ey) as (d & ez & Hez & Hd & Hs); try lia.
    rewrite Hs.
    assert (Hp : (0 < 2 ^ (ez + 1074))%Z) by (apply Z.pow_pos_nonneg; lia).
    assert (d = 0%Z) by nia. subst d. reflexivity.
Qed.

Lemma pow2_of_zero (c_pow : float -> float -> float) (x : float) :
  (x =? 0) = true -> Py.pow2 c_pow x = Ok 0.
Proof.
  intro Hz. unfold Py.pow2. rewrite is_nan_spec, is_infinity_spec, Hz.
  rewrite eqb_spec, Prim2SF_0 in Hz.
  destruct (Prim2SF x) as [ | [ | ] | | [ | ] ? ?]; try discriminate; reflexivity.
Qed.

(** The deviation of the only grade from the mean is zero, or NaN when the
    grade is infinite: [**] never reaches the C library. *)
Lemma single_grade_stats (c_pow : float -> float -> float) (g : float) :
  is_nan g = false ->
  exists p sd,
    Py.pow2 c_pow (g - (0 + g) / 1) = Ok p /\ Math.sqrt ((0 + p) / 1) = Ok sd.
Proof.
  intro Hn. destruct (Ffin g) eqn:Hf.
  - exists 0. eexists. split; [ | reflexivity].
    apply pow2_of_zero. destruct (add_0_l_val g Hf) as [Hf1 Hv1].
    destruct (div_1_val (0 + g) Hf1) as [Hf2 Hv2].
    apply sub_same_val; try assumption. lia.
  - assert (Hi : exists s, Prim2SF g = S754_infinity s).
    { rewrite is_nan_spec in Hn. unfold Ffin in Hf.
      destruct (Prim2SF g) as [ | s | | ]; try discriminate. eexists; reflexivity. }
    destruct Hi as [s Hi].
    assert (Hx : Prim2SF (g - (0 + g) / 1) = S754_nan).
    { rewrite sub_spec, div_spec, add_spec, Hi, Prim2SF_0, Prim2SF_1.
      destruct s; reflexivity. }
    exists (g - (0 + g) / 1). exists (g - (0 + g) / 1).
    assert (Hnan : is_nan (g - (0 + g) / 1) = true) by (rewrite is_nan_spec, Hx; reflexivity).
    split; [unfold Py.pow2; rewrite Hnan; reflexivity | ].
    set (x := g - (0 + g) / 1) in *.
    assert (Hy : Prim2SF ((0 + x) / 1) = S754_nan).
    { rewrite div_spec, add_spec, Hx. reflexivity. }
    assert (Hxy : (0 + x) / 1 = x) by (apply Prim2SF_inj; congruence).
    rewrite Hxy. unfold Math.sqrt, Math.math_1.
    assert (Hs : PrimFloat.sqrt x = x).
    { apply Prim2SF_inj. rewrite sqrt_spec, Hx. reflexivity. }
    rewrite Hs, Hnan. rewrite is_infinity_spec, Hx. reflexivity.
Qed.

Section SinglePoint.

Variables c_sin c_cos : float -> float.
Variables c_atan2 c_pow : float -> float -> float.
Hypothesis sin_zero : c_sin 0 = 0.
Hypothesis cos_unit :
  forall x, is_finite x = true -> (-1 <=? c_cos x) = true /\ (c_cos x <=? 1) = true.

Lemma extract_features_single (r : row) :
  is_finite (Latitude r) = true -> is_finite (Longitude r) = true ->
  exists f,
    extract_features c_sin c_cos c_atan2 c_pow [r] = Ok f /\
    dict_get f "sinuosity" = Ok 1.
Proof.
  intros Flat Flon.
  pose proof (extract_features_loop c_sin c_cos c_atan2 c_pow sin_zero cos_unit
                r [] eq_refl eq_refl Flat Flon) as Hloop.
  assert (Hok : exists f, extract_features c_sin c_cos c_atan2 c_pow [r] = Ok f).
  { clear Hloop. unfold extract_features.
    cbn [map Py.max_list Py.min_list bind hd last filter].
    rewrite (haversine_same c_sin c_cos c_atan2 c_pow sin_zero cos_unit _ _ Flat Flon).
    unfold Math.isnan. destruct (is_nan (Grade_percent r)) eqn:Hn; cbn [negb].
    - cbn [filter bind]. change (0 <? len (@nil float))%Z with false. cbv iota.
      change (Math.sqrt 0) with (@Ok float 0). cbn [bind]. eexists; reflexivity.
    - set (g := Grade_percent r) in *.
      change (len [g]) with 1%Z. change (0 <? 1)%Z with true. cbv iota.
      rewrite !div_int_1.
      cbn [bind sum_sq_dev]. change (Py.sum [g]) with (0 + g).
      destruct (single_grade_stats c_pow g Hn) as (p & sd & Hp & Hsd).
      rewrite Hp. cbn [bind]. rewrite div_int_1.
      cbn [bind]. rewrite Hsd. cbn [bind].
      destruct (shares_ok (filter (fun g0 => 0 <? g0) [g])) as (s10 & s20 & Hsh & _).
      rewrite Hsh. cbn [bind]. eexists; reflexivity. }
  destruct Hok as [f Hf]. rewrite Hf in Hloop. exists f. auto.
Qed.

End SinglePoint.

(** * Properties of the scoring engine *)

Lemma F0_unit_share (s : float) :
  F0 s = true -> (V s <= V 1)%Z -> unit_share s.
Proof.
  intros Hs Hv. pose proof (F0_V_nonneg s Hs) as H0.
  split; rewrite leb_V by (auto using F0_Ffin); apply Z.leb_le.
  - exact H0.
  - exact Hv.
Qed.

(** C1: a feature vector holding the seven scored keys, scored against
    itself, gives exactly 100.0.  Every component [similarity_component x x]
    is 1.0, for every float [x]; the seven weights, added in the order of the
    loop, give exactly 1.0; and [round(1.0 * 100.0, 2)] is 100.0. *)
Theorem score_identical (f : dict) :
  has_keys scored_keys f ->
  (forall x, similarity_component x x = Ok 1) /\
  fold_left add (map snd weights) 0 = 1 /\
  Py.round (1 * 100) 2 = 100 /\
  compute_similarity_score f f = Ok 100.
Proof.
  intro Hk. split; [ | split; [reflexivity | split; [reflexivity | ]]].
  - intro x. rewrite similarity_component_value, similarity_value_refl. reflexivity.
  - apply score_self. exact Hk.
Qed.

Lemma score_identical_witness :
  (forall x, similarity_component x x = Ok 1) /\
  fold_left add (map snd weights) 0 = 1 /\
  Py.round (1 * 100) 2 = 100 /\
  compute_similarity_score long_route long_route = Ok 100.
Proof. apply (score_identical long_route). reflexivity. Defined.

(** C2: for two feature vectors holding the seven scored keys the score is
    returned and lies within [0, 100].  Every component
    [similarity_component a b] is returned and lies within [0, 1], whatever
    the floats [a] and [b]; the weights are not negative and add up to 1. *)
Theorem score_range (f1 f2 : dict) :
  has_keys scored_keys f1 -> has_keys scored_keys f2 ->
  (forall a b, exists s, similarity_component a b = Ok s /\ unit_share s) /\
  forallb (fun kw => 0 <=? snd kw) weights = true /\
  fold_left add (map snd weights) 0 = 1 /\
  exists r, compute_similarity_score f1 f2 = Ok r /\
            (0 <=? r) = true /\ (r <=? 100) = true.
Proof.
  intros H1 H2.
  split; [ | split; [reflexivity | split; [reflexivity | ]]].
  { intros a b. exists (similarity_value a b).
    split; [apply similarity_component_value | ].
    destruct (similarity_value_unit a b) as [Hs Hv]. apply F0_unit_share; assumption. }
  unfold compute_similarity_score.
  destruct (score_loop_upper f1 f2 weights H1 H2 unit_bounds 0 0 unit_chain
              eq_refl (Z.le_refl _)) as (total & Hl & Hf & Hv).
  rewrite Hl. cbn [bind]. eexists. split; [reflexivity | ].
  destruct (mul_upper total 100 100.001 Hf eq_refl eq_refl) as [Hp HpV].
  { transitivity (V 1.000007 * V 100)%Z.
    - apply Z.mul_le_mono_nonneg_r; [vm_compute; discriminate | exact Hv].
    - vm_compute. discriminate. }
  apply (round_range (total * 100) 100.001 100 10000 Hp HpV).
  - vm_compute. reflexivity.
  - reflexivity.
  - exact centis_100.
Qed.

Lemma score_range_witness :
  (forall a b, exists s, similarity_component a b = Ok s /\ unit_share s) /\
  forallb (fun kw => 0 <=? snd kw) weights = true /\
  fold_left add (map snd weights) 0 = 1 /\
  exists r, compute_similarity_score short_route long_route = Ok r /\
            (0 <=? r) = true /\ (r <=? 100) = true.
Proof. apply (score_range short_route long_route); reflexivity. Defined.

(** C3: on a table without rows the extractor raises [ValueError], the
    exception the code uses for missing data, and returns no feature
    vector. *)
Theorem extract_features_empty (c_sin c_cos : float -> float)
    (c_atan2 c_pow : float -> float -> float) :
  extract_features c_sin c_cos c_atan2 c_pow [] = Raise ValueError.
Proof. reflexivity. Qed.

(** C4, what fails in the claim: 1 km and 50 km differ by 49 / 25.5, about
    192 % of their mean, which is below the cap of 200 %; the distance
    component is about 0.039 and not 0. *)
Lemma distance_component_above_zero :
  similarity_component 1 50 = Ok 0.039215686274509776 /\
  (0 <? 0.039215686274509776) = true /\
  (abs (1 - 50) / Py.max2 ((1 + 50) / 2) 1e-9 <? 2) = true.
Proof. repeat split; reflexivity. Qed.

(** C4, as the code has it: for a route of 1 km without gain (effort 1.0)
    against a route of 50 km with 3000 m of gain (effort 80.0), the gain
    component is 0; the distance component is about 0.039 and the effort
    component about 0.025, the relative differences 192 % and 195 % staying
    below the cap of 200 %; and whatever the other scored features are, the
    score is returned and is at most 36.35, below 40. *)
Theorem extreme_mismatch (f1 f2 : dict) :
  has_keys scored_keys f1 -> has_keys scored_keys f2 ->
  dict_get f1 "total_distance_km" = Ok 1 ->
  dict_get f1 "total_elev_gain_m" = Ok 0 ->
  dict_get f1 "km_effort" = Ok 1 ->
  dict_get f2 "total_distance_km" = Ok 50 ->
  dict_get f2 "total_elev_gain_m" = Ok 3000 ->
  dict_get f2 "km_effort" = Ok 80 ->
  similarity_component 1 50 = Ok 0.039215686274509776 /\
  similarity_component 0 3000 = Ok 0 /\
  similarity_component 1 80 = Ok 0.024691358024691357 /\
  exists r, compute_similarity_score f1 f2 = Ok r /\
            (0 <=? r) = true /\ (r <=? 36.35) = true /\ (r <? 40) = true.
Proof.
  intros H1 H2 Hd1 Hg1 He1 Hd2 Hg2 He2.
  split; [reflexivity | ]. split; [reflexivity | ]. split; [reflexivity | ].
  unfold compute_similarity_score.
  change weights with
    (("total_distance_km"%string, 0.25) :: ("total_elev_gain_m"%string, 0.25)
       :: ("km_effort"%string, 0.15) :: profile_weights).
  rewrite score_loop_cons, Hd1, Hd2. cbn [bind].
  rewrite similarity_component_value. cbn [bind].
  rewrite score_loop_cons, Hg1, Hg2. cbn [bind].
  rewrite similarity_component_value. cbn [bind].
  rewrite score_loop_cons, He1, He2. cbn [bind].
  rewrite similarity_component_value. cbn [bind].
  change (0 + 0.25 * similarity_value 1 50 + 0.25 * similarity_value 0 3000
          + 0.15 * similarity_value 1 80) with 0.013507625272331148.
  assert (K : forall f, has_keys scored_keys f -> has_keys (map fst profile_weights) f).
  { intros f Hf.
    change scored_keys with
      ("total_distance_km"%string :: "total_elev_gain_m"%string :: "km_effort"%string
         :: map fst profile_weights) in Hf.
    do 3 (apply has_keys_cons in Hf; destruct Hf as [_ Hf]). exact Hf. }
  pose proof (K f1 H1) as K1. pose proof (K f2 H2) as K2.
  destruct (score_loop_upper f1 f2 profile_weights K1 K2 mismatch_bounds
              0.013507625272331148 0.013507625272331148 mismatch_chain
              eq_refl (Z.le_refl _)) as (total & Hl & Hf & Hv).
  rewrite Hl. cbn [bind].
  eexists. split; [reflexivity | ].
  destruct (mul_upper total 100 36.3541 Hf eq_refl eq_refl) as [Hp HpV].
  { transitivity (V 0.36354 * V 100)%Z.
    - apply Z.mul_le_mono_nonneg_r; [vm_compute; discriminate | exact Hv].
    - vm_compute. discriminate. }
  destruct (round_range (total * 100) 36.3541 36.35 3635 Hp HpV) as [R0 RU].
  - vm_compute. reflexivity.
  - reflexivity.
  - exact centis_3635.
  - split; [exact R0 | ]. split; [exact RU | ].
    pose proof (between_fin _ _ R0 RU eq_refl) as Hfin.
    rewrite leb_V in RU by (exact Hfin || reflexivity). apply Z.leb_le in RU.
    rewrite ltb_V by (exact Hfin || reflexivity). apply Z.ltb_lt.
    eapply Z.le_lt_trans; [exact RU | ]. vm_compute. reflexivity.
Qed.

Lemma extreme_mismatch_witness :
  similarity_component 1 50 = Ok 0.039215686274509776 /\
  similarity_component 0 3000 = Ok 0 /\
  similarity_component 1 80 = Ok 0.024691358024691357 /\
  exists r, compute_similarity_score short_route long_route = Ok r /\
            (0 <=? r) = true /\ (r <=? 36.35) = true /\ (r <? 40) = true.
Proof. apply (extreme_mismatch short_route long_route); reflexivity. Defined.

(** C5: the extractor turns the two-point route of scenario A into a feature
    vector with total distance 1.0, total gain 100.0, average grade 5.0,
    steep shares 1.0 and 0.0 and effort 2.0, and the score of that vector
    against itself is 100.0.  The C library is asked for [pow(5, 2) = 25],
    and for a distance between the two points. *)
Theorem scenario_A_features (c_sin c_cos : float -> float)
    (c_atan2 c_pow : float -> float -> float) (d : float) :
  c_pow 5 2 = 25 ->
  haversine c_sin c_cos c_atan2 c_pow 45 9 45.01 9 = Ok d ->
  exists f,
    extract_features c_sin c_cos c_atan2 c_pow scenario_A = Ok f /\
    dict_get f "total_distance_km" = Ok 1 /\
    dict_get f "total_elev_gain_m" = Ok 100 /\
    dict_get f "avg_grade" = Ok 5 /\
    dict_get f "steep10_share" = Ok 1 /\
    dict_get f "steep20_share" = Ok 0 /\
    dict_get f "km_effort" = Ok 2 /\
    compute_similarity_score f f = Ok 100.
Proof.
  intros Hp Hd.
  destruct (scenario_A_extract c_sin c_cos c_atan2 c_pow Hp d Hd) as [s Hf].
  eexists. split; [exact Hf | ]. repeat (split; [reflexivity | ]).
  apply score_self. reflexivity.
Qed.

Lemma scenario_A_features_witness :
  exists f,
    extract_features small_sin small_cos ratio_atan2 square_pow scenario_A = Ok f /\
    dict_get f "total_distance_km" = Ok 1 /\
    dict_get f "total_elev_gain_m" = Ok 100 /\
    dict_get f "avg_grade" = Ok 5 /\
    dict_get f "steep10_share" = Ok 1 /\
    dict_get f "steep20_share" = Ok 0 /\
    dict_get f "km_effort" = Ok 2 /\
    compute_similarity_score f f = Ok 100.
Proof.
  apply (scenario_A_features small_sin small_cos ratio_atan2 square_pow
           1.1119492706793552); reflexivity.
Defined.

(** C6: when the last row of a route has the coordinates of the first, and
    these are finite, the beeline distance is 0.0, which is not above zero;
    the quotient is not computed, so the extractor raises no division error
    (the grade statistics alone may raise), and a feature vector it returns
    has sinuosity 1.0.  A route of one point always yields a feature vector,
    with sinuosity 1.0.  The C library is asked for [sin(0) = 0] and for
    cosines within [-1, 1]. *)
Theorem loop_sinuosity (c_sin c_cos : float -> float)
    (c_atan2 c_pow : float -> float -> float) (r : row) (rest : list row) :
  c_sin 0 = 0 ->
  (forall x, is_finite x = true -> (-1 <=? c_cos x) = true /\ (c_cos x <=? 1) = true) ->
  is_finite (Latitude r) = true -> is_finite (Longitude r) = true ->
  Latitude (last (r :: rest) r) = Latitude r ->
  Longitude (last (r :: rest) r) = Longitude r ->
  (exists beeline_km,
     haversine c_sin c_cos c_atan2 c_pow (Latitude r) (Longitude r)
       (Latitude (last (r :: rest) r)) (Longitude (last (r :: rest) r))
     = Ok beeline_km /\
     (0 <? beeline_km) = false) /\
  match extract_features c_sin c_cos c_atan2 c_pow (r :: rest) with
  | Ok f => dict_get f "sinuosity" = Ok 1
  | Raise e => e = OverflowError \/ e = ValueError
  end /\
  exists f,
    extract_features c_sin c_cos c_atan2 c_pow [r] = Ok f /\
    dict_get f "sinuosity" = Ok 1.
Proof.
  intros Hs Hc Flat Flon Hlat Hlon. split; [ | split].
  - exists 0. rewrite Hlat, Hlon. split; [ | reflexivity].
    apply haversine_same; assumption.
  - apply extract_features_loop; assumption.
  - apply extract_features_single; assumption.
Qed.

Lemma loop_sinuosity_witness :
  exists f,
    extract_features small_sin small_cos ratio_atan2 square_pow loop_route = Ok f /\
    dict_get f "sinuosity" = Ok 1.
Proof.
  assert (Hc : forall x, is_finite x = true ->
                 (-1 <=? small_cos x) = true /\ (small_cos x <=? 1) = true)
    by (intros x _; split; reflexivity).
  destruct (loop_sinuosity small_sin small_cos ratio_atan2 square_pow
              (mk_row 0 100 0 0 45.0 9.0)
              [mk_row 1.0 200 10.0 100 45.01 9.0; mk_row 2.0 100 (-10.0) 100 45.0 9.0]
              eq_refl Hc eq_refl eq_refl eq_refl eq_refl) as (_ & Hm & _).
  eexists. split; [vm_compute; reflexivity | exact Hm].
Defined.

(** An instance of C7: the route of scenario A. *)
Lemma extracted_invariant_witness :
  exists f,
    extract_features small_sin small_cos ratio_atan2 square_pow scenario_A = Ok f /\
    feature_invariant f.
Proof.
  eexists. split; [vm_compute; reflexivity | ].
  apply (extracted_invariant small_sin small_cos ratio_atan2 square_pow scenario_A);
    reflexivity.
Defined.

(** C8: the distance from a point with finite coordinates to itself is 0.0,
    and swapping the two points changes neither the distance nor the error
    raised.  The C library is asked for [sin(0) = 0], for cosines within
    [-1, 1] and for an odd [sin]. *)
Theorem haversine_zero_symmetric (c_sin c_cos : float -> float)
    (c_atan2 c_pow : float -> float -> float) :
  c_sin 0 = 0 ->
  (forall x, is_finite x = true -> (-1 <=? c_cos x) = true /\ (c_cos x <=? 1) = true) ->
  (forall x, c_sin (- x) = - c_sin x) ->
  (forall lat lon,
     is_finite lat = true -> is_finite lon = true ->
     haversine c_sin c_cos c_atan2 c_pow lat lon lat lon = Ok 0) /\
  (forall lat1 lon1 lat2 lon2,
     haversine c_sin c_cos c_atan2 c_pow lat1 lon1 lat2 lon2
     = haversine c_sin c_cos c_atan2 c_pow lat2 lon2 lat1 lon1).
Proof.
  intros Hs Hc Ho. split.
  - intros lat lon. apply haversine_same; assumption.
  - intros lat1 lon1 lat2 lon2. apply haversine_sym. exact Ho.
Qed.

Lemma haversine_zero_symmetric_witness :
  (forall lat lon,
     is_finite lat = true -> is_finite lon = true ->
     haversine small_sin small_cos ratio_atan2 square_pow lat lon lat lon = Ok 0) /\
  (forall lat1 lon1 lat2 lon2,
     haversine small_sin small_cos ratio_atan2 square_pow lat1 lon1 lat2 lon2
     = haversine small_sin small_cos ratio_atan2 square_pow lat2 lon2 lat1 lon1).
Proof.
  apply (haversine_zero_symmetric small_sin small_cos ratio_atan2 square_pow).
  - reflexivity.
  - intros x _. split; reflexivity.
  - intro x. reflexivity.
Defined.

(** C9: for two feature vectors holding the seven scored keys, the score of
    the first against the second and the score of the second against the
    first are returned and are the same float; every component is symmetric
    as well. *)
Theorem score_symmetric (f1 f2 : dict) :
  has_keys scored_keys f1 -> has_keys scored_keys f2 ->
  (forall a b, similarity_component a b = similarity_component b a) /\
  exists r, compute_similarity_score f1 f2 = Ok r /\
            compute_similarity_score f2 f1 = Ok r.
Proof.
  intros H1 H2. split.
  - intros a b. rewrite !similarity_component_value, (similarity_value_sym a b).
    reflexivity.
  - destruct (score_loop_upper f1 f2 weights H1 H2 unit_bounds 0 0 unit_chain
                eq_refl (Z.le_refl _)) as (total & Hl & _).
    exists (Py.round (total * 100) 2). rewrite <- (score_sym f1 f2).
    unfold compute_similarity_score. rewrite Hl. split; reflexivity.
Qed.

Lemma score_symmetric_witness :
  (forall a b, similarity_component a b = similarity_component b a) /\
  exists r, compute_similarity_score short_route long_route = Ok r /\
            compute_similarity_score long_route short_route = Ok r.
Proof. apply (score_symmetric short_route long_route); reflexivity. Defined.

(** C10: when [a + b <= 0] and [a], [b] are not both zero, the denominator
    [max((a + b) / 2.0, 1e-9)] is [1e-9]; the component is then
    [max(0.0, 1.0 - abs(a - b) / 1e-9 / 2.0)], provided [a - b] is a number
    (it is not for [a = b = -infinity]); it is 0 as soon as
    [abs(a - b) >= 2e-9]; the grades -5 and 5 have similarity 0. *)
Theorem nonpositive_sum_component (a b : float) :
  (a + b <=? 0) = true -> (a =? 0) && (b =? 0) = false ->
  Py.max2 ((a + b) / 2) 1e-9 = 1e-9 /\
  (is_nan (a - b) = false ->
   similarity_component a b = Ok (Py.max2 0 (1 - abs (a - b) / 1e-9 / 2))) /\
  ((2e-9 <=? abs (a - b)) = true -> similarity_component a b = Ok 0) /\
  similarity_component (-5) 5 = Ok 0.
Proof.
  intros Hs Hz.
  assert (Hd : Py.max2 ((a + b) / 2) 1e-9 = 1e-9).
  { unfold Py.max2. rewrite (half_nonpos _ Hs). reflexivity. }
  split; [exact Hd | ].
  rewrite similarity_component_value. unfold similarity_value.
  rewrite Hz, Hd. cbv zeta.
  set (r := abs (a - b) / 1e-9).
  split; [ | split; [ | reflexivity]].
  - intro Hn. f_equal.
    assert (Hr : not_neg (Prim2SF r) = true).
    { apply div_not_neg; [apply abs_not_neg; exact Hn | reflexivity]. }
    unfold Py.min2 at 2. destruct (2 <? r) eqn:E2.
    + rewrite (max2_0_nonpos _ (over_cap r Hr E2)). reflexivity.
    + rewrite (under_cap r Hr E2). reflexivity.
  - intro Hfar. f_equal. rewrite (min2_ge_2 r (far_apart _ Hfar)). reflexivity.
Qed.

Lemma nonpositive_sum_component_witness :
  Py.max2 ((-5 + 5) / 2) 1e-9 = 1e-9 /\
  (is_nan (-5 - 5) = false ->
   similarity_component (-5) 5 = Ok (Py.max2 0 (1 - abs (-5 - 5) / 1e-9 / 2))) /\
  ((2e-9 <=? abs (-5 - 5)) = true -> similarity_component (-5) 5 = Ok 0) /\
  similarity_component (-5) 5 = Ok 0.
Proof. apply (nonpositive_sum_component (-5) 5); reflexivity. Defined.

(** * Further properties of the scoring engine *)

(** *** Missing keys *)

Lemma has_keys_cons_iff (k : string) (ks : list string) (f : dict) :
  has_keys (k :: ks) f <-> is_ok (dict_get f k) = true /\ has_keys ks f.
Proof. unfold has_keys. cbn [forallb]. apply andb_true_iff. Qed.

Lemma score_loop_outcome (ws f1 f2 : dict) (t : float) :
  match score_loop ws f1 f2 t with
  | Ok _ => has_keys (map fst ws) f1 /\ has_keys (map fst ws) f2
  | Raise e =>
      e = KeyError /\ ~ (has_keys (map fst ws) f1 /\ has_keys (map fst ws) f2)
  end.
Proof.
  revert t. induction ws as [ | [key w] ws IH]; intro t.
  - split; reflexivity.
  - cbn [score_loop map fst].
    pose proof (has_keys_cons_iff key (map fst ws) f1) as K1.
    pose proof (has_keys_cons_iff key (map fst ws) f2) as K2.
    destruct (dict_get f1 key) as [a | e1] eqn:E1; cbn [bind is_ok] in *.
    + destruct (dict_get f2 key) as [b | e2] eqn:E2; cbn [bind is_ok] in *.
      * rewrite similarity_component_value. cbn [bind].
        specialize (IH (t + w * similarity_value a b)).
        destruct (score_loop ws f1 f2 _) as [r | e]; tauto.
      * apply dict_get_raises in E2. split; [exact E2 | ].
        intros [_ H]. apply K2 in H. destruct H. discriminate.
    + apply dict_get_raises in E1. split; [exact E1 | ].
      intros [H _]. apply K1 in H. destruct H. discriminate.
Qed.

(** X1: [compute_similarity_score] returns a score exactly when both feature
    vectors hold the seven scored keys; when a key is missing it raises
    [KeyError], and it raises nothing else. *)
Theorem score_needs_scored_keys (f1 f2 : dict) :
  match compute_similarity_score f1 f2 with
  | Ok _ => has_keys scored_keys f1 /\ has_keys scored_keys f2
  | Raise e =>
      e = KeyError /\ ~ (has_keys scored_keys f1 /\ has_keys scored_keys f2)
  end.
Proof.
  unfold compute_similarity_score.
  pose proof (score_loop_outcome weights f1 f2 0) as H.
  destruct (score_loop weights f1 f2 0) as [total | e]; exact H.
Qed.

(** *** Keys that are not scored *)

Lemma score_loop_ext (ws f1 f2 g1 g2 : dict) :
  (forall k, In k (map fst ws) -> dict_get g1 k = dict_get f1 k) ->
  (forall k, In k (map fst ws) -> dict_get g2 k = dict_get f2 k) ->
  forall t, score_loop ws g1 g2 t = score_loop ws f1 f2 t.
Proof.
  induction ws as [ | [key w] ws IH]; intros H1 H2 t; [reflexivity | ].
  cbn [score_loop].
  rewrite (H1 key (or_introl eq_refl)), (H2 key (or_introl eq_refl)).
  destruct (dict_get f1 key) as [a | ?]; [ | reflexivity].
  destruct (dict_get f2 key) as [b | ?]; [ | reflexivity].
  cbn [bind]. destruct (similarity_component a b) as [s | ?]; [ | reflexivity].
  cbn [bind]. apply IH; intros k Hk; [apply H1 | apply H2]; right; exact Hk.
Qed.

(** X2: the score reads the seven scored keys and nothing else: two pairs
    of feature vectors that agree on those keys get the same score (or the
    same error), whatever their other entries, such as [std_grade] or
    [steep20_share], and whatever the order of their entries. *)
Theorem score_reads_scored_keys (f1 f2 g1 g2 : dict) :
  (forall k, In k scored_keys -> dict_get g1 k = dict_get f1 k) ->
  (forall k, In k scored_keys -> dict_get g2 k = dict_get f2 k) ->
  compute_similarity_score g1 g2 = compute_similarity_score f1 f2.
Proof.
  intros H1 H2. unfold compute_similarity_score.
  rewrite (score_loop_ext weights f1 f2 g1 g2 H1 H2). reflexivity.
Qed.

Lemma score_reads_scored_keys_witness :
  compute_similarity_score short_route_scored long_route
  = compute_similarity_score short_route long_route.
Proof.
  apply (score_reads_scored_keys short_route long_route short_route_scored long_route).
  - intros k Hk. cbn in Hk.
    repeat (destruct Hk as [<- | Hk]; [reflexivity | ]). contradiction.
  - intros k Hk. reflexivity.
Defined.

(** *** Other caps *)

Lemma similarity_component_cap_value (a b cap : float) :
  (cap =? 0) = false ->
  similarity_component_cap a b cap
  = Ok (if (a =? 0) && (b =? 0) then 1
        else
          Py.max2 0
            (Py.min2 1
               (1 - Py.min2 (abs (a - b) / Py.max2 ((a + b) / 2) 1e-9) cap / cap))).
Proof.
  intro Hc. unfold similarity_component_cap.
  destruct ((a =? 0) && (b =? 0)); [reflexivity | ].
  cbv zeta. unfold Py.div at 1. rewrite denom_nonzero. cbn [bind].
  unfold Py.div. rewrite Hc. reflexivity.
Qed.

(** X3: with a cap that is not zero (the default 2.0, but also a negative
    cap, an infinity or NaN), [similarity_component] raises nothing and
    returns a float within [0, 1]; with a cap of zero it raises
    [ZeroDivisionError], unless both values are zero, which gives 1.0
    before the cap is used. *)
Theorem similarity_component_cap_outcome (a b cap : float) :
  if cap =? 0 then
    similarity_component_cap a b cap
    = if (a =? 0) && (b =? 0) then Ok 1 else Raise ZeroDivisionError
  else
    exists s, similarity_component_cap a b cap = Ok s /\ unit_share s.
Proof.
  destruct (cap =? 0) eqn:Hc.
  - unfold similarity_component_cap.
    destruct ((a =? 0) && (b =? 0)); [reflexivity | ].
    cbv zeta. unfold Py.div at 1. rewrite denom_nonzero. cbn [bind].
    unfold Py.div. rewrite Hc. reflexivity.
  - rewrite (similarity_component_cap_value a b cap Hc).
    eexists. split; [reflexivity | ].
    destruct ((a =? 0) && (b =? 0)).
    + split; reflexivity.
    + destruct (clamp_unit
                  (1 - Py.min2 (abs (a - b) / Py.max2 ((a + b) / 2) 1e-9) cap / cap))
        as [H0 H1].
      apply F0_unit_share; assumption.
Qed.

(** *** Values that are no numbers *)

Lemma is_nan_eq (x : float) : is_nan x = true -> x = nan.
Proof.
  rewrite is_nan_spec. intro H. apply Prim2SF_inj.
  destruct (Prim2SF x); try discriminate. reflexivity.
Qed.

Lemma eqb_infinity_eq (x : float) : (x =? infinity) = true -> x = infinity.
Proof.
  rewrite eqb_spec. change (Prim2SF infinity) with (S754_infinity false).
  intro H. apply Prim2SF_inj. change (Prim2SF infinity) with (S754_infinity false).
  destruct (Prim2SF x) as [ | [ | ] | | [ | ] ? ?]; try discriminate; reflexivity.
Qed.

Lemma add_nan_l (b : float) : nan + b = nan.
Proof.
  apply Prim2SF_inj. rewrite add_spec. change (Prim2SF nan) with S754_nan.
  destruct (Prim2SF b); reflexivity.
Qed.

Lemma sub_nan_l (b : float) : nan - b = nan.
Proof.
  apply Prim2SF_inj. rewrite sub_spec. change (Prim2SF nan) with S754_nan.
  destruct (Prim2SF b); reflexivity.
Qed.

Lemma add_infinity_l (b : float) : infinity + b = infinity \/ infinity + b = nan.
Proof.
  assert (H : Prim2SF (infinity + b) = S754_infinity false \/
              Prim2SF (infinity + b) = S754_nan).
  { rewrite add_spec. change (Prim2SF infinity) with (S754_infinity false).
    destruct (Prim2SF b) as [ | [ | ] | | ]; auto. }
  destruct H as [H | H]; [left | right]; apply Prim2SF_inj; exact H.
Qed.

Lemma sub_infinity_l (b : float) : infinity - b = infinity \/ infinity - b = nan.
Proof.
  assert (H : Prim2SF (infinity - b) = S754_infinity false \/
              Prim2SF (infinity - b) = S754_nan).
  { rewrite sub_spec. change (Prim2SF infinity) with (S754_infinity false).
    destruct (Prim2SF b) as [ | [ | ] | | ]; auto. }
  destruct H as [H | H]; [left | right]; apply Prim2SF_inj; exact H.
Qed.

Lemma similarity_value_nan_l (b : float) : similarity_value nan b = 1.
Proof.
  unfold similarity_value. change (nan =? 0) with false. cbn [andb]. cbv zeta.
  rewrite add_nan_l, sub_nan_l. reflexivity.
Qed.

Lemma similarity_value_infinity_l (b : float) : similarity_value infinity b = 1.
Proof.
  unfold similarity_value. change (infinity =? 0) with false. cbn [andb]. cbv zeta.
  destruct (add_infinity_l b) as [-> | ->], (sub_infinity_l b) as [-> | ->];
    reflexivity.
Qed.

(** X4: when one of the two values is NaN or [+infinity], the comparisons
    of [max] and [min] fail on the NaN that results, and
    [similarity_component] returns 1.0, the similarity of equal values. *)
Theorem similarity_component_of_no_number (a b : float) :
  is_nan a || is_nan b || (a =? infinity) || (b =? infinity) = true ->
  similarity_component a b = Ok 1.
Proof.
  intro H. rewrite similarity_component_value. f_equal.
  apply orb_prop in H. destruct H as [H | H].
  - apply orb_prop in H. destruct H as [H | H].
    + apply orb_prop in H. destruct H as [H | H].
      * apply is_nan_eq in H. subst a. apply similarity_value_nan_l.
      * apply is_nan_eq in H. subst b. rewrite similarity_value_sym.
        apply similarity_value_nan_l.
    + apply eqb_infinity_eq in H. subst a. apply similarity_value_infinity_l.
  - apply eqb_infinity_eq in H. subst b. rewrite similarity_value_sym.
    apply similarity_value_infinity_l.
Qed.

Lemma similarity_component_of_no_number_witness :
  similarity_component nan 3000 = Ok 1.
Proof. apply (similarity_component_of_no_number nan 3000). reflexivity. Defined.

(** * Further properties of the feature extractor *)

(** *** What the extractor can raise *)

Lemma atan2_raises (c_atan2 : float -> float -> float) (y x : float) (e : exn) :
  Math.atan2 c_atan2 y x = Raise e -> e = ValueError \/ e = OverflowError.
Proof.
  unfold Math.atan2. cbv zeta.
  destruct (is_nan _).
  - destruct (negb (is_nan y) && negb (is_nan x)); [ | discriminate].
    intro H. injection H as <-. left. reflexivity.
  - destruct (is_infinity _); [ | discriminate].
    destruct (is_finite y && is_finite x); [ | discriminate].
    intro H. injection H as <-. right. reflexivity.
Qed.

Section Outcome.

Variables c_sin c_cos : float -> float.
Variables c_atan2 c_pow : float -> float -> float.

Lemma haversine_raises (lat1 lon1 lat2 lon2 : float) (e : exn) :
  haversine c_sin c_cos c_atan2 c_pow lat1 lon1 lat2 lon2 = Raise e ->
  e = ValueError \/ e = OverflowError.
Proof.
  unfold haversine. cbv zeta.
  repeat
    match goal with
    | |- bind (Math.math_1 ?f ?x) _ = _ -> _ =>
        let E := fresh "E" in
        destruct (Math.math_1 f x) eqn:E; cbn [bind];
        [ | intro H; injection H as <-; apply math_1_raises in E; auto]
    | |- bind (Math.sqrt ?x) _ = _ -> _ =>
        let E := fresh "E" in
        destruct (Math.sqrt x) eqn:E; cbn [bind];
        [ | intro H; injection H as <-; apply math_1_raises in E; auto]
    | |- bind (Py.pow2 ?f ?x) _ = _ -> _ =>
        let E := fresh "E" in
        destruct (Py.pow2 f x) eqn:E; cbn [bind];
        [ | intro H; injection H as <-; apply pow2_raises in E; auto]
    end.
  destruct (Math.atan2 _ _ _) eqn:Ea; cbn [bind]; [discriminate | ].
  intro H. injection H as <-. apply atan2_raises in Ea. exact Ea.
Qed.

Lemma extract_features_shape (rows : list row) :
  match extract_features c_sin c_cos c_atan2 c_pow rows with
  | Ok f =>
      rows <> [] /\
      exists td tg ke mx mn er avg sd s10 s20 sinuosity,
        f = [ ("total_distance_km"%string, td);
              ("total_elev_gain_m"%string, tg);
              ("km_effort"%string, ke);
              ("max_elev_m"%string, mx);
              ("min_elev_m"%string, mn);
              ("elev_range_m"%string, er);
              ("avg_grade"%string, avg);
              ("std_grade"%string, sd);
              ("steep10_share"%string, s10);
              ("steep20_share"%string, s20);
              ("sinuosity"%string, sinuosity) ]
  | Raise e => e = ValueError \/ e = OverflowError
  end.
Proof.
  destruct rows as [ | r rest]; [left; reflexivity | ].
  unfold extract_features.
  cbn [map Py.max_list Py.min_list bind hd].
  set (gv := filter _ (_ :: _)).
  destruct (avg_grade_cases gv) as [[avg Havg] | Havg]; rewrite Havg; cbn [bind];
    [ | right; reflexivity].
  destruct (variance_cases c_pow avg gv) as [[var Hv] | Hv]; rewrite Hv;
    cbn [bind]; [ | right; reflexivity].
  destruct (sqrt_cases var) as [[sd Hs] | Hs]; rewrite Hs; cbn [bind];
    [ | left; reflexivity].
  destruct (shares_ok (filter (fun g => 0 <? g) gv)) as (s10 & s20 & Hsh & _).
  rewrite Hsh. cbn [bind fst snd].
  destruct (haversine _ _ _ _ _ _ _ _) as [bee | e] eqn:Hb; cbn [bind];
    [ | apply haversine_raises in Hb; exact Hb].
  destruct (0 <? bee) eqn:Hpos.
  - unfold Py.div. rewrite (ltb_0_neq bee Hpos). cbn [bind].
    split; [discriminate | ]. repeat eexists.
  - cbn [bind]. split; [discriminate | ]. repeat eexists.
Qed.

End Outcome.

(** X5: whatever the rows and whatever the C library returns,
    [extract_features] raises [ValueError] or [OverflowError] and nothing
    else: both divisions by a count and the division by the beeline distance
    are guarded, so that no [ZeroDivisionError] escapes; and a feature vector
    it returns holds the eleven feature keys, each once, in the order of the
    source. *)
Theorem extract_features_outcome (c_sin c_cos : float -> float)
    (c_atan2 c_pow : float -> float -> float) (rows : list row) :
  match extract_features c_sin c_cos c_atan2 c_pow rows with
  | Ok f => rows <> [] /\ map fst f = feature_keys
  | Raise e => e = ValueError \/ e = OverflowError
  end.
Proof.
  pose proof (extract_features_shape c_sin c_cos c_atan2 c_pow rows) as H.
  destruct (extract_features c_sin c_cos c_atan2 c_pow rows) as [f | e]; [ | exact H].
  destruct H as [Hne (td & tg & ke & mx & mn & er & avg & sd & s10 & s20 & si & ->)].
  split; [exact Hne | reflexivity].
Qed.

(** *** From the extractor to the score *)

Lemma score_bounds (f1 f2 : dict) :
  has_keys scored_keys f1 -> has_keys scored_keys f2 ->
  exists total,
    score_loop weights f1 f2 0 = Ok total /\
    F0 (total * 100) = true /\ (V (total * 100) <= V 100.001)%Z.
Proof.
  intros H1 H2.
  destruct (score_loop_upper f1 f2 weights H1 H2 unit_bounds 0 0 unit_chain
              eq_refl (Z.le_refl _)) as (total & Hl & Hf & Hv).
  exists total. split; [exact Hl | ].
  apply (mul_upper total 100 100.001 Hf eq_refl eq_refl).
  transitivity (V 1.000007 * V 100)%Z.
  - apply Z.mul_le_mono_nonneg_r; [vm_compute; discriminate | exact Hv].
  - vm_compute. discriminate.
Qed.

Lemma extracted_has_keys (c_sin c_cos : float -> float)
    (c_atan2 c_pow : float -> float -> float) (rows : list row) (f : dict) :
  extract_features c_sin c_cos c_atan2 c_pow rows = Ok f -> has_keys scored_keys f.
Proof.
  intro Hf. pose proof (extract_features_shape c_sin c_cos c_atan2 c_pow rows) as H.
  rewrite Hf in H.
  destruct H as [_ (td & tg & ke & mx & mn & er & avg & sd & s10 & s20 & si & ->)].
  reflexivity.
Qed.

(** X6: the two steps of the program compose: the feature vectors the
    extractor returns for any two routes can always be scored, in either
    order, and the score, the same in both orders, lies within [0, 100]. *)
Theorem extracted_vectors_score (c_sin c_cos : float -> float)
    (c_atan2 c_pow : float -> float -> float) (rows1 rows2 : list row)
    (f1 f2 : dict) :
  extract_features c_sin c_cos c_atan2 c_pow rows1 = Ok f1 ->
  extract_features c_sin c_cos c_atan2 c_pow rows2 = Ok f2 ->
  exists r,
    compute_similarity_score f1 f2 = Ok r /\
    compute_similarity_score f2 f1 = Ok r /\
    (0 <=? r) = true /\ (r <=? 100) = true.
Proof.
  intros E1 E2.
  pose proof (extracted_has_keys _ _ _ _ _ _ E1) as K1.
  pose proof (extracted_has_keys _ _ _ _ _ _ E2) as K2.
  destruct (score_bounds f1 f2 K1 K2) as (total & Hl & Hp & HpV).
  exists (Py.round (total * 100) 2).
  rewrite <- (score_sym f1 f2). unfold compute_similarity_score. rewrite Hl.
  split; [reflexivity | ]. split; [reflexivity | ].
  apply (round_range (total * 100) 100.001 100 10000 Hp HpV).
  - vm_compute. reflexivity.
  - reflexivity.
  - exact centis_100.
Qed.

Lemma extracted_vectors_score_witness :
  exists f1 f2 r,
    extract_features small_sin small_cos ratio_atan2 square_pow scenario_A = Ok f1 /\
    extract_features small_sin small_cos ratio_atan2 square_pow loop_route = Ok f2 /\
    compute_similarity_score f1 f2 = Ok r /\
    compute_similarity_score f2 f1 = Ok r /\
    (0 <=? r) = true /\ (r <=? 100) = true.
Proof.
  assert (E1 : exists f1,
             extract_features small_sin small_cos ratio_atan2 square_pow scenario_A
             = Ok f1) by (eexists; vm_compute; reflexivity).
  assert (E2 : exists f2,
             extract_features small_sin small_cos ratio_atan2 square_pow loop_route
             = Ok f2) by (eexists; vm_compute; reflexivity).
  destruct E1 as [f1 E1], E2 as [f2 E2].
  destruct (extracted_vectors_score small_sin small_cos ratio_atan2 square_pow
              scenario_A loop_route f1 f2 E1 E2) as (r & H).
  exists f1, f2, r. auto.
Defined.

(** *** Routes without grade data *)

Lemma filter_all_nan (rows : list row) :
  forallb (fun r => Math.isnan (Grade_percent r)) rows = true ->
  filter (fun g => negb (Math.isnan g)) (map Grade_percent rows) = [].
Proof.
  induction rows as [ | r rows IH]; [reflexivity | ].
  cbn [forallb map filter]. intro H. apply andb_prop in H. destruct H as [Hr Hrows].
  rewrite Hr. cbn [negb]. apply IH. exact Hrows.
Qed.

(** X7: when every grade of a route is NaN, so that no grade is left after
    the filter, neither division by the number of grades is computed: the
    extractor fails only if the distance between the end points does, and
    otherwise returns a feature vector whose average grade, standard
    deviation and two steep shares are all 0.0. *)
Theorem extract_features_without_grades (c_sin c_cos : float -> float)
    (c_atan2 c_pow : float -> float -> float) (r : row) (rest : list row) :
  forallb (fun x => Math.isnan (Grade_percent x)) (r :: rest) = true ->
  match haversine c_sin c_cos c_atan2 c_pow (Latitude r) (Longitude r)
          (Latitude (last (r :: rest) r)) (Longitude (last (r :: rest) r)) with
  | Ok _ =>
      exists f,
        extract_features c_sin c_cos c_atan2 c_pow (r :: rest) = Ok f /\
        dict_get f "avg_grade" = Ok 0 /\
        dict_get f "std_grade" = Ok 0 /\
        dict_get f "steep10_share" = Ok 0 /\
        dict_get f "steep20_share" = Ok 0
  | Raise e => extract_features c_sin c_cos c_atan2 c_pow (r :: rest) = Raise e
  end.
Proof.
  intro Hnan. unfold extract_features.
  rewrite (filter_all_nan (r :: rest) Hnan).
  cbn [map Py.max_list Py.min_list bind hd filter].
  rewrite (last_map_cons Latitude r rest 0 r), (last_map_cons Longitude r rest 0 r).
  change (0 <? len (@nil float))%Z with false. cbv iota.
  change (Math.sqrt 0) with (@Ok float 0). cbn [bind fst snd].
  destruct (haversine _ _ _ _ _ _ _ _) as [bee | e]; cbn [bind]; [ | reflexivity].
  destruct (0 <? bee) eqn:Hpos.
  - unfold Py.div. rewrite (ltb_0_neq bee Hpos). cbn [bind].
    eexists. split; [reflexivity | ]. repeat split; reflexivity.
  - cbn [bind]. eexists. split; [reflexivity | ]. repeat split; reflexivity.
Qed.

Lemma extract_features_without_grades_witness :
  exists f,
    extract_features small_sin small_cos ratio_atan2 square_pow ungraded_route = Ok f /\
    dict_get f "avg_grade" = Ok 0 /\
    dict_get f "std_grade" = Ok 0 /\
    dict_get f "steep10_share" = Ok 0 /\
    dict_get f "steep20_share" = Ok 0.
Proof.
  exact (extract_features_without_grades small_sin small_cos ratio_atan2 square_pow
           (mk_row 0 100 nan 0 45.0 9.0) [mk_row 1.0 200 nan 100 45.01 9.0] eq_refl).
Defined.

(** *** Coordinates between the end points *)

Lemma last_app_one {A : Type} (l : list A) (x d : A) : last (l ++ [x]) d = x.
Proof.
  induction l as [ | y l IH]; [reflexivity | ].
  cbn [app]. destruct (l ++ [x]) eqn:E.
  - destruct l; discriminate.
  - exact IH.
Qed.

(** X8: the extractor reads the coordinates of the first and of the last row
    only: moving the rows in between to any other coordinates changes
    neither the feature vector nor the error raised. *)
Theorem extract_features_end_points (c_sin c_cos : float -> float)
    (c_atan2 c_pow : float -> float -> float) (first final : row) (mid : list row)
    (p : row -> float * float) :
  extract_features c_sin c_cos c_atan2 c_pow
    (first :: map (fun r => relocate r (p r)) mid ++ [final])
  = extract_features c_sin c_cos c_atan2 c_pow (first :: mid ++ [final]).
Proof.
  set (mid' := map (fun r => relocate r (p r)) mid).
  assert (Hd : map Distance_km mid' = map Distance_km mid)
    by (unfold mid'; rewrite map_map; reflexivity).
  assert (He : map Elevation_m mid' = map Elevation_m mid)
    by (unfold mid'; rewrite map_map; reflexivity).
  assert (Hg : map Grade_percent mid' = map Grade_percent mid)
    by (unfold mid'; rewrite map_map; reflexivity).
  assert (Hc : map Cumulative_Elevation_Gain_m mid' = map Cumulative_Elevation_Gain_m mid)
    by (unfold mid'; rewrite map_map; reflexivity).
  unfold extract_features.
  cbn [map hd]. rewrite !map_app, Hd, He, Hg, Hc.
  cbn [map]. rewrite !app_comm_cons, !last_app_one. reflexivity.
Qed.

(** *** The standard deviation *)

Lemma pack_false_not_neg (m e : Z) :
  not_neg (pack false m e) = true \/ pack false m e = S754_nan.
Proof.
  unfold pack. destruct m as [ | q | q]; [left; reflexivity | | right; reflexivity].
  destruct (e <=? emax - prec)%Z; left; reflexivity.
Qed.

Lemma sqrt_not_neg (x : float) :
  not_neg (Prim2SF (PrimFloat.sqrt x)) = true \/ is_nan (PrimFloat.sqrt x) = true.
Proof.
  rewrite is_nan_spec, sqrt_spec. unfold SF64sqrt.
  destruct (Prim2SF x) as [s | [ | ] | | [ | ] m e]; cbn [SFsqrt]; auto.
  destruct (SFsqrt_core_binary prec emax (Zpos m) e) as [[mz ez] lz].
  rewrite binary_round_aux_pack.
  destruct (pack_false_not_neg (fst (round_me mz ez lz)) (snd (round_me mz ez lz)))
    as [H | H]; rewrite H; auto.
Qed.

Section Deviation.

Variables c_sin c_cos : float -> float.
Variables c_atan2 c_pow : float -> float -> float.

(** X9: the standard deviation of a feature vector the extractor returns is
    never negative: it is at least 0.0, or it is NaN. *)
Theorem std_grade_not_negative (rows : list row) (f : dict) :
  extract_features c_sin c_cos c_atan2 c_pow rows = Ok f ->
  exists sd,
    dict_get f "std_grade" = Ok sd /\ ((0 <=? sd) = true \/ is_nan sd = true).
Proof.
  destruct rows as [ | r rest]; [discriminate | ].
  unfold extract_features.
  cbn [map Py.max_list Py.min_list bind hd].
  set (gv := filter _ (_ :: _)).
  destruct (avg_grade_cases gv) as [[avg Havg] | Havg]; rewrite Havg; cbn [bind];
    [ | discriminate].
  destruct (variance_cases c_pow avg gv) as [[var Hv] | Hv]; rewrite Hv;
    cbn [bind]; [ | discriminate].
  destruct (Math.sqrt var) as [sd | ?] eqn:Hs; cbn [bind]; [ | discriminate].
  destruct (shares_ok (filter (fun g => 0 <? g) gv)) as (s10 & s20 & Hsh & _).
  rewrite Hsh. cbn [bind fst snd].
  destruct (haversine _ _ _ _ _ _ _ _) as [bee | ?]; cbn [bind]; [ | discriminate].
  assert (Hsd : (0 <=? sd) = true \/ is_nan sd = true).
  { unfold Math.sqrt, Math.math_1 in Hs. cbv zeta in Hs.
    destruct (_ && _); [discriminate | ]. destruct (_ && _); [discriminate | ].
    injection Hs as <-. rewrite leb_0_not_neg. apply sqrt_not_neg. }
  destruct (0 <? bee).
  - unfold Py.div. destruct (bee =? 0); cbn [bind]; [discriminate | ].
    intro H. injection H as <-. exists sd. split; [reflexivity | exact Hsd].
  - cbn [bind]. intro H. injection H as <-. exists sd. split; [reflexivity | exact Hsd].
Qed.

End Deviation.

Lemma std_grade_not_negative_witness :
  exists f sd,
    extract_features small_sin small_cos ratio_atan2 square_pow loop_route = Ok f /\
    dict_get f "std_grade" = Ok sd /\ ((0 <=? sd) = true \/ is_nan sd = true).
Proof.
  assert (E : exists f,
            extract_features small_sin small_cos ratio_atan2 square_pow loop_route
            = Ok f) by (eexists; vm_compute; reflexivity).
  destruct E as [f E].
  destruct (std_grade_not_negative small_sin small_cos ratio_atan2 square_pow
              loop_route f E) as [sd H].
  exists f, sd. split; [exact E | exact H].
Defined.

(** *** The score has two decimals *)

Lemma leb_0_eqb_refl (r : float) : (0 <=? r) = true -> (r =? r) = true.
Proof.
  rewrite leb_spec, eqb_spec, Prim2SF_0.
  destruct (Prim2SF r) as [ | [ | ] | | s m e]; try discriminate; try reflexivity.
  intros _. unfold SFeqb. rewrite SFcompare_refl_finite. reflexivity.
Qed.

Lemma round_centis (x : float) :
  F0 x = true -> (V x <= V 100.001)%Z ->
  exists k q,
    (0 <= k <= 10000)%Z /\ Py.int_truediv k 100 = Ok q /\ (Py.round x 2 =? q) = true.
Proof.
  intros Hx Hv.
  assert (HB : (200 * V 100.001 < (2 * 10000 + 1) * 2 ^ 1074)%Z)
    by (vm_compute; reflexivity).
  destruct (round_range x 100.001 100 10000 Hx Hv HB eq_refl centis_100) as [R0 RU].
  revert R0 RU. unfold Py.round.
  pose proof (Prim2SF_valid x) as Vx. unfold F0 in Hx. unfold V at 1 in Hv.
  destruct (Prim2SF x) as [s | | | [ | ] m e] eqn:E; try discriminate; intros R0 RU.
  - exists 0%Z, 0. split; [lia | ]. split; [reflexivity | ].
    rewrite eqb_spec, E, Prim2SF_0. destruct s; reflexivity.
  - cbn [SFval cond_Zopp valid_binary] in *.
    pose proof (bounded_inv m e Vx) as (He & _).
    assert (Hn : (0 <= Py.scaled_half_even m e 2 <= 10000)%Z).
    { apply scaled_half_even_bound; [lia | ]. lia. }
    destruct (Py.scaled_half_even m e 2) as [ | n | n]; try lia.
    + exists 0%Z, 0. split; [lia | ]. split; reflexivity.
    + change (Z.to_pos (10 ^ Z.of_nat 2)) with 100%positive in *.
      set (r := SF2Prim (SFdiv prec emax (S754_finite false n 0)
                           (S754_finite false 100 0))) in *.
      assert (Hinf : is_infinity r = false).
      { rewrite is_infinity_spec. rewrite leb_spec, Prim2SF_0 in R0.
        rewrite leb_spec in RU.
        destruct (Prim2SF r) as [ | [ | ] | | ]; try reflexivity; discriminate. }
      exists (Zpos n), r. split; [lia | ]. split.
      * unfold Py.int_truediv.
        change (Zpos n <? 0)%Z with false. change (100 <? 0)%Z with false.
        change (Z.to_pos (Z.abs (Zpos n))) with n.
        change (Z.to_pos (Z.abs 100)) with 100%positive.
        fold r. cbv zeta. rewrite Hinf. reflexivity.
      * apply leb_0_eqb_refl. exact R0.
Qed.

(** X10: a score that [compute_similarity_score] returns has two decimals:
    it compares equal to [k / 100] for an integer [k] from 0 to 10000. *)
Theorem score_two_decimals (f1 f2 : dict) (r : float) :
  compute_similarity_score f1 f2 = Ok r ->
  exists k q,
    (0 <= k <= 10000)%Z /\ Py.int_truediv k 100 = Ok q /\ (r =? q) = true.
Proof.
  intro Hr. unfold compute_similarity_score in Hr.
  pose proof (score_loop_outcome weights f1 f2 0) as Hk.
  destruct (score_loop weights f1 f2 0) as [total | e] eqn:Hl; [ | discriminate].
  destruct Hk as [K1 K2].
  destruct (score_bounds f1 f2 K1 K2) as (total' & Hl' & Hp & HpV).
  rewrite Hl in Hl'. injection Hl' as <-.
  cbn [bind] in Hr. injection Hr as <-.
  apply round_centis; assumption.
Qed.

Lemma score_two_decimals_witness :
  exists r k q,
    compute_similarity_score short_route long_route = Ok r /\
    (0 <= k <= 10000)%Z /\ Py.int_truediv k 100 = Ok q /\ (r =? q) = true.
Proof.
  assert (E : exists r, compute_similarity_score short_route long_route = Ok r)
    by (eexists; vm_compute; reflexivity).
  destruct E as [r E].
  destruct (score_two_decimals short_route long_route r E) as (k & q & H).
  exists r, k, q. split; [exact E | exact H].
Defined.

(** *** A value against zero *)

Lemma Fpos_spec (a : float) :
  Fpos a = true -> exists m e, Prim2SF a = S754_finite false m e.
Proof.
  unfold Fpos. destruct (Prim2SF a) as [ | | | [ | ] m e]; try discriminate.
  intros _. exists m, e. reflexivity.
Qed.

Lemma add_zero_r_pos (a : float) : Fpos a = true -> a + 0 = a.
Proof.
  intro H. destruct (Fpos_spec a H) as (m & e & E).
  apply Prim2SF_inj. rewrite add_spec, E, Prim2SF_0. reflexivity.
Qed.

Lemma sub_zero_r_pos (a : float) : Fpos a = true -> a - 0 = a.
Proof.
  intro H. destruct (Fpos_spec a H) as (m & e & E).
  apply Prim2SF_inj. rewrite sub_spec, E, Prim2SF_0. reflexivity.
Qed.

Lemma abs_pos (a : float) : Fpos a = true -> abs a = a.
Proof.
  intro H. destruct (Fpos_spec a H) as (m & e & E).
  apply Prim2SF_inj. rewrite abs_spec, E. reflexivity.
Qed.

Lemma V_eq_pos (x y : float) :
  Fpos x = true -> F0 y = true -> V x = V y -> x = y.
Proof.
  intros Hx Hy Hv.
  assert (Hc : SFcompare (Prim2SF x) (Prim2SF y) = Some Eq).
  { rewrite SFcompare_val; auto using Prim2SF_valid, F0_Ffin, Fpos_F0.
    - f_equal. apply Z.compare_eq_iff. exact Hv.
    - apply F0_Ffin, Fpos_F0, Hx.
    - apply F0_Ffin, Hy. }
  destruct (Fpos_spec x Hx) as (m & e & E). rewrite E in Hc.
  apply SFcompare_Eq_finite in Hc. apply Prim2SF_inj. congruence.
Qed.

(** Halving a float that is not tiny is exact. *)
Lemma half_exact (a : float) :
  Fpos a = true -> (V 2e-9 <= V a)%Z ->
  Fpos (a / 2) = true /\ (2 * V (a / 2) = V a)%Z.
Proof.
  intros Ha Hv. destruct (Fpos_spec a Ha) as (m & e & E).
  pose proof (Prim2SF_valid a) as Va. rewrite E in Va. cbn [valid_binary] in Va.
  pose proof (bounded_inv m e Va) as (He & _ & Hn).
  pose proof (bounded_lt_pow m e Va) as Hm.
  assert (HVa : V a = (Zpos m * 2 ^ (e + 1074))%Z) by (unfold V; rewrite E; reflexivity).
  assert (Hc : (2 ^ 53 < V 2e-9)%Z) by (vm_compute; reflexivity).
  assert (He1 : (-1074 < e)%Z).
  { destruct (Z.eq_dec e (-1074)) as [-> | ]; [ | lia].
    change (2 ^ (-1074 + 1074))%Z with 1%Z in HVa. lia. }
  specialize (Hn He1).
  set (g := SF2Prim (S754_finite false m (e - 1))).
  assert (Vg : valid_binary (S754_finite false m (e - 1)) = true).
  { pose proof (pack_valid false (Zpos m) (e - 1)) as Hp.
    unfold pack in Hp. change (emax - prec)%Z with 971%Z in Hp.
    destruct (Z.leb_spec (e - 1) 971); [ | lia].
    apply Hp; [lia | ]. intros _. rewrite Hn, fexp_spec. lia. }
  assert (Eg : Prim2SF g = S754_finite false m (e - 1))
    by (apply Prim2SF_SF2Prim; exact Vg).
  assert (HVg : V g = (Zpos m * 2 ^ (e - 1 + 1074))%Z) by (unfold V; rewrite Eg; reflexivity).
  assert (Hpow : (2 ^ (e + 1074) = 2 * 2 ^ (e - 1 + 1074))%Z).
  { replace (e + 1074)%Z with (Z.succ (e - 1 + 1074)) by lia.
    apply Z.pow_succ_r. lia. }
  assert (Hq : (0 < 2 ^ (e - 1 + 1074))%Z) by (apply Z.pow_pos_nonneg; lia).
  assert (Hgpos : Fpos g = true) by (unfold Fpos; rewrite Eg; reflexivity).
  assert (H2 : V 2 = (2 * 2 ^ 1074)%Z) by reflexivity.
  assert (Heq : (V a * 2 ^ 1074 = V g * V 2)%Z).
  { rewrite HVa, HVg, H2, Hpow. ring. }
  destruct (div_upper a 2 g (Fpos_F0 a Ha) eq_refl (Fpos_F0 g Hgpos)) as [Hh HhV].
  { rewrite Heq. apply Z.le_refl. }
  pose proof (div_lower a 2 g Ha eq_refl Hgpos) as Hlow.
  rewrite leb_V in Hlow by (apply F0_Ffin; auto using Fpos_F0).
  specialize (Hlow ltac:(rewrite Heq; apply Z.le_refl)). apply Z.leb_le in Hlow.
  assert (Hv2 : V (a / 2) = V g) by lia.
  split.
  - apply F0_pos_Fpos; [exact Hh | ]. rewrite Hv2, HVg. lia.
  - rewrite Hv2, HVa, HVg, Hpow. ring.
Qed.

Lemma quotient_two (a h : float) :
  Fpos a = true -> Fpos h = true -> (2 * V h = V a)%Z -> a / h = 2.
Proof.
  intros Ha Hh Hv.
  assert (H2 : V 2 = (2 * 2 ^ 1074)%Z) by reflexivity.
  assert (Heq : (V a * 2 ^ 1074 = V 2 * V h)%Z) by (rewrite H2, <- Hv; ring).
  destruct (div_upper a h 2 (Fpos_F0 a Ha) Hh eq_refl) as [Hq HqV].
  { rewrite Heq. apply Z.le_refl. }
  pose proof (div_lower a h 2 Ha Hh eq_refl) as Hlow.
  rewrite leb_V in Hlow by (apply F0_Ffin; auto).
  specialize (Hlow ltac:(rewrite Heq; apply Z.le_refl)). apply Z.leb_le in Hlow.
  symmetry. apply V_eq_pos; [reflexivity | exact Hq | lia].
Qed.

Lemma similarity_value_zero_r (a : float) :
  Fpos a = true -> (V 2e-9 <= V a)%Z -> similarity_value a 0 = 0.
Proof.
  intros Ha Hv. unfold similarity_value.
  assert (Hz : (a =? 0) = false).
  { destruct (Fpos_spec a Ha) as (m & e & E). rewrite eqb_spec, E. reflexivity. }
  rewrite Hz. cbn [andb]. cbv zeta.
  rewrite (add_zero_r_pos a Ha), (sub_zero_r_pos a Ha), (abs_pos a Ha).
  destruct (half_exact a Ha Hv) as [Hh HhV].
  assert (Hmax : Py.max2 (a / 2) 1e-9 = a / 2).
  { unfold Py.max2. rewrite ltb_V by (apply F0_Ffin; auto using Fpos_F0).
    assert (Hc : (V 2e-9 = 2 * V 1e-9)%Z) by (vm_compute; reflexivity).
    destruct (Z.ltb_spec (V (a / 2)) (V 1e-9)); [lia | reflexivity]. }
  rewrite Hmax, (quotient_two a (a / 2) Ha Hh HhV). reflexivity.
Qed.

(** X11: any finite value of at least [2e-9] has similarity 0.0 with zero:
    the mean of the two is half the value, so that the relative difference
    is exactly the cap 2.0.  A route without gain thus scores nothing on
    gain against a route with any gain. *)
Theorem similarity_component_against_zero (a : float) :
  (2e-9 <=? a) = true -> is_finite a = true ->
  similarity_component a 0 = Ok 0 /\ similarity_component 0 a = Ok 0.
Proof.
  intros Hle Hfin. rewrite is_finite_Ffin in Hfin.
  rewrite leb_V in Hle by (exact Hfin || reflexivity). apply Z.leb_le in Hle.
  assert (Ha : Fpos a = true).
  { assert (Hc : (0 < V 2e-9)%Z) by (vm_compute; reflexivity).
    unfold Fpos. unfold Ffin in Hfin. unfold V at 2 in Hle.
    destruct (Prim2SF a) as [ | | | [ | ] m e]; try discriminate;
      cbn [SFval cond_Zopp] in Hle; try lia; reflexivity. }
  rewrite !similarity_component_value, (similarity_value_sym 0 a).
  rewrite (similarity_value_zero_r a Ha Hle). split; reflexivity.
Qed.

Lemma similarity_component_against_zero_witness :
  similarity_component 0.5 0 = Ok 0 /\ similarity_component 0 0.5 = Ok 0.
Proof. apply (similarity_component_against_zero 0.5); reflexivity. Defined.

(** * Lower bounds through [+] *)

Local Open Scope Z_scope.

Lemma binary_round_lower (m : positive) (e : Z) (mg : positive) (eg : Z) :
  -1074 <= e -> bounded prec emax mg eg = true ->
  Zpos mg * 2 ^ (eg + 1074) <= Zpos m * 2 ^ (e + 1074) ->
  SFleb (S754_finite false mg eg) (binary_round prec emax false m e) = true.
Proof.
  intros He Hg Hle. unfold binary_round.
  set (t := fexp (Zpos (digits2_pos m) + e)).
  destruct (shl_align_spec m e t) as [Hs Hf].
  destruct (shl_align m e t) as [mz ez]. cbn [fst snd] in Hs, Hf.
  pose proof (bounded_inv mg eg Hg) as (Heg & _).
  assert (Ht : -1074 <= t) by apply fexp_ge_emin.
  assert (Hdz : Zdigits2 (Zpos mz) + ez = Zpos (digits2_pos m) + e).
  { rewrite Hf, Zdigits2_mul_pow by lia. cbn [Zdigits2]. lia. }
  apply binary_round_aux_lower with (N := Zpos mz) (D := 1) (O := 1074);
    try lia; try assumption.
  - rewrite Hdz. fold t. lia.
  - assert (Hv : Zpos mz * 2 ^ (ez + 1074) = Zpos m * 2 ^ (e + 1074)).
    { rewrite Hf, <- Z.mul_assoc, <- Z.pow_add_r by lia.
      replace (e - Z.min e t + (ez + 1074)) with (e + 1074) by lia. reflexivity. }
    rewrite Hv. lia.
Qed.

Lemma SFadd_lower (mx : positive) (ex : Z) (my : positive) (ey : Z)
    (mg : positive) (eg : Z) :
  bounded prec emax mx ex = true -> bounded prec emax my ey = true ->
  bounded prec emax mg eg = true ->
  Zpos mg * 2 ^ (eg + 1074) <= Zpos mx * 2 ^ (ex + 1074) + Zpos my * 2 ^ (ey + 1074) ->
  SFleb (S754_finite false mg eg)
        (SFadd prec emax (S754_finite false mx ex) (S754_finite false my ey)) = true.
Proof.
  intros Hx Hy Hg Hle. cbn [SFadd cond_Zopp].
  pose proof (bounded_inv mx ex Hx) as (Hex & _).
  pose proof (bounded_inv my ey Hy) as (Hey & _).
  set (ez := Z.min ex ey).
  destruct (shl_align_spec mx ex ez) as [_ Hfx].
  destruct (shl_align_spec my ey ez) as [_ Hfy].
  rewrite (Z.min_r ex ez) in Hfx by lia.
  rewrite (Z.min_r ey ez) in Hfy by lia.
  change (Zpos (fst (shl_align mx ex ez)) + Zpos (fst (shl_align my ey ez)))
    with (Zpos (fst (shl_align mx ex ez) + fst (shl_align my ey ez))).
  cbn [binary_normalize].
  apply binary_round_lower; [lia | assumption | ].
  rewrite Pos2Z.inj_add, Hfx, Hfy.
  rewrite Z.mul_add_distr_r, <- !Z.mul_assoc, <- !Z.pow_add_r by lia.
  replace (ex - ez + (ez + 1074)) with (ex + 1074) by lia.
  replace (ey - ez + (ez + 1074)) with (ey + 1074) by lia.
  exact Hle.
Qed.

Local Close Scope Z_scope.

(** Adding a number that is not negative does not decrease a number that is
    not negative. *)
Lemma add_not_below (x y : float) :
  not_neg (Prim2SF x) = true -> not_neg (Prim2SF y) = true ->
  (x <=? x + y) = true.
Proof.
  rewrite leb_spec, add_spec. unfold SF64add.
  pose proof (Prim2SF_valid x) as Vx. pose proof (Prim2SF_valid y) as Vy.
  destruct (Prim2SF x) as [sx | [ | ] | | [ | ] mx ex]; try discriminate;
    destruct (Prim2SF y) as [sy | [ | ] | | [ | ] my ey]; try discriminate;
    intros _ _; try reflexivity.
  - destruct sx, sy; reflexivity.
  - cbn [SFadd]. unfold SFleb. rewrite SFcompare_refl_finite. reflexivity.
  - cbn [valid_binary] in Vx, Vy. apply SFadd_lower; try assumption.
    pose proof (bounded_inv my ey Vy) as (? & _).
    assert (0 < 2 ^ (ey + 1074))%Z by (apply Z.pow_pos_nonneg; lia).
    assert (0 < Zpos my * 2 ^ (ey + 1074))%Z by (apply Z.mul_pos_pos; lia).
    lia.
Qed.

(** *** The fields of an extracted vector *)

Section Fields.

Variables c_sin c_cos : float -> float.
Variables c_atan2 c_pow : float -> float -> float.

Lemma extract_features_fields (r : row) (rest : list row) (f : dict) :
  extract_features c_sin c_cos c_atan2 c_pow (r :: rest) = Ok f ->
  let td := fold_left Py.max2 (map Distance_km rest) (Distance_km r) in
  let tg := fold_left Py.max2 (map Cumulative_Elevation_Gain_m rest)
              (Cumulative_Elevation_Gain_m r) in
  let mx := fold_left Py.max2 (map Elevation_m rest) (Elevation_m r) in
  let mn := fold_left Py.min2 (map Elevation_m rest) (Elevation_m r) in
  exists avg sd s10 s20 bee,
    haversine c_sin c_cos c_atan2 c_pow (Latitude r) (Longitude r)
      (Latitude (last (r :: rest) r)) (Longitude (last (r :: rest) r)) = Ok bee /\
    f = [ ("total_distance_km"%string, td);
          ("total_elev_gain_m"%string, tg);
          ("km_effort"%string, td + tg / 100);
          ("max_elev_m"%string, mx);
          ("min_elev_m"%string, mn);
          ("elev_range_m"%string, mx - mn);
          ("avg_grade"%string, avg);
          ("std_grade"%string, sd);
          ("steep10_share"%string, s10);
          ("steep20_share"%string, s20);
          ("sinuosity"%string, if 0 <? bee then td / bee else 1) ].
Proof.
  unfold extract_features.
  cbn [map Py.max_list Py.min_list bind hd].
  rewrite (last_map_cons Latitude r rest 0 r), (last_map_cons Longitude r rest 0 r).
  set (gv := filter _ (_ :: _)).
  destruct (avg_grade_cases gv) as [[avg Havg] | Havg]; rewrite Havg; cbn [bind];
    [ | discriminate].
  destruct (variance_cases c_pow avg gv) as [[var Hv] | Hv]; rewrite Hv;
    cbn [bind]; [ | discriminate].
  destruct (Math.sqrt var) as [sd | ?]; cbn [bind]; [ | discriminate].
  destruct (shares_ok (filter (fun g => 0 <? g) gv)) as (s10 & s20 & Hsh & _).
  rewrite Hsh. cbn [bind fst snd].
  destruct (haversine _ _ _ _ _ _ _ _) as [bee | ?]; cbn [bind]; [ | discriminate].
  intro Hf. cbv zeta. exists avg, sd, s10, s20, bee. split; [reflexivity | ].
  destruct (0 <? bee) eqn:Hpos.
  - unfold Py.div in Hf. rewrite (ltb_0_neq bee Hpos) in Hf. cbn [bind] in Hf.
    injection Hf as <-. reflexivity.
  - cbn [bind] in Hf. injection Hf as <-. reflexivity.
Qed.

Lemma well_formed_totals (r : row) (rest : list row) :
  forallb well_formed (r :: rest) = true ->
  (0 <=? fold_left Py.max2 (map Distance_km rest) (Distance_km r)) = true /\
  (0 <=? fold_left Py.max2 (map Cumulative_Elevation_Gain_m rest)
           (Cumulative_Elevation_Gain_m r)) = true.
Proof.
  intro Hwf. cbn [forallb] in Hwf. apply andb_prop in Hwf. destruct Hwf as [Hr Hrest].
  apply well_formed_spec in Hr. destruct Hr as (Hd & Hg & _).
  assert (Hall : Forall (fun x => well_formed x = true) rest).
  { apply Forall_forall. apply forallb_forall. exact Hrest. }
  split; (apply fold_max2_nonneg; [assumption | ]); rewrite Forall_map;
    (eapply Forall_impl; [ | exact Hall]);
    intros x Hx; apply well_formed_spec in Hx; apply Hx.
Qed.

(** X12: for rows whose distance and cumulative gain are not negative, the
    effort of a feature vector the extractor returns is at least its total
    distance: adding the gain, rounded as it is, never takes the sum below
    the distance. *)
Theorem km_effort_not_below_distance (rows : list row) (f : dict) :
  forallb well_formed rows = true ->
  extract_features c_sin c_cos c_atan2 c_pow rows = Ok f ->
  exists td ke,
    dict_get f "total_distance_km" = Ok td /\
    dict_get f "km_effort" = Ok ke /\
    (td <=? ke) = true.
Proof.
  intros Hwf Hf. destruct rows as [ | r rest]; [discriminate | ].
  destruct (extract_features_fields r rest f Hf) as (avg & sd & s10 & s20 & bee & _ & ->).
  destruct (well_formed_totals r rest Hwf) as [Htd Htg].
  eexists. eexists. split; [reflexivity | ]. split; [reflexivity | ].
  rewrite leb_0_not_neg in Htd, Htg.
  apply add_not_below; [exact Htd | ]. apply div_not_neg; [exact Htg | reflexivity].
Qed.

Lemma quotient_not_neg (x y : float) :
  not_neg (Prim2SF x) = true -> (0 <? y) = true ->
  not_neg (Prim2SF (x / y)) = true \/ is_nan (x / y) = true.
Proof.
  intros Hx Hy.
  assert (Hc : Fpos y = true \/ Prim2SF y = S754_infinity false).
  { unfold Fpos. rewrite ltb_spec, Prim2SF_0 in Hy.
    destruct (Prim2SF y) as [ | [ | ] | | [ | ] ? ?]; try discriminate; auto. }
  destruct Hc as [Hc | Hc].
  - left. apply div_not_neg; assumption.
  - rewrite is_nan_spec, div_spec, Hc. unfold SF64div.
    destruct (Prim2SF x) as [s | [ | ] | | [ | ] m e]; try discriminate; auto.
Qed.

(** X13: for rows whose distance is not negative, the sinuosity of a
    feature vector the extractor returns is never negative: it is at least
    0.0, or NaN (an infinite distance over an infinite beeline). *)
Theorem sinuosity_not_negative (rows : list row) (f : dict) :
  forallb well_formed rows = true ->
  extract_features c_sin c_cos c_atan2 c_pow rows = Ok f ->
  exists s,
    dict_get f "sinuosity" = Ok s /\ ((0 <=? s) = true \/ is_nan s = true).
Proof.
  intros Hwf Hf. destruct rows as [ | r rest]; [discriminate | ].
  destruct (extract_features_fields r rest f Hf) as (avg & sd & s10 & s20 & bee & _ & ->).
  destruct (well_formed_totals r rest Hwf) as [Htd _].
  eexists. split; [reflexivity | ].
  destruct (0 <? bee) eqn:Hpos; [ | left; reflexivity].
  rewrite leb_0_not_neg in *. apply quotient_not_neg; assumption.
Qed.

End Fields.

Lemma km_effort_not_below_distance_witness :
  exists f td ke,
    extract_features small_sin small_cos ratio_atan2 square_pow scenario_A = Ok f /\
    dict_get f "total_distance_km" = Ok td /\
    dict_get f "km_effort" = Ok ke /\
    (td <=? ke) = true.
Proof.
  assert (E : exists f,
            extract_features small_sin small_cos ratio_atan2 square_pow scenario_A
            = Ok f) by (eexists; vm_compute; reflexivity).
  destruct E as [f E].
  destruct (km_effort_not_below_distance small_sin small_cos ratio_atan2 square_pow
              scenario_A f eq_refl E) as (td & ke & H).
  exists f, td, ke. split; [exact E | exact H].
Defined.

Lemma sinuosity_not_negative_witness :
  exists f s,
    extract_features small_sin small_cos ratio_atan2 square_pow scenario_A = Ok f /\
    dict_get f "sinuosity" = Ok s /\ ((0 <=? s) = true \/ is_nan s = true).
Proof.
  assert (E : exists f,
            extract_features small_sin small_cos ratio_atan2 square_pow scenario_A
            = Ok f) by (eexists; vm_compute; reflexivity).
  destruct E as [f E].
  destruct (sinuosity_not_negative small_sin small_cos ratio_atan2 square_pow
              scenario_A f eq_refl E) as (s & H).
  exists f, s. split; [exact E | exact H].
Defined.

(** * Rounding to nearest is monotone *)

Local Open Scope Z_scope.

(** *** Locations through right shifts *)

Lemma shr_1_located (mrs : shr_record) (N D : Z) :
  0 <= shr_m mrs -> 0 < D ->
  located (shr_m mrs) (loc_of_shr_record mrs) N D ->
  located (shr_m (shr_1 mrs)) (loc_of_shr_record (shr_1 mrs)) N (2 * D).
Proof.
  destruct mrs as [m r s]. cbn [shr_m]. intros Hm HD [Hb Hl].
  destruct m as [ | [p | p | ] | p]; try lia;
    destruct r, s; cbn [shr_1 orb loc_of_shr_record shr_m] in *;
    unfold located;
    (split; lia).
Qed.

Lemma shr_iter_located (k : nat) (mrs : shr_record) (N D : Z) :
  0 <= shr_m mrs -> 0 < D ->
  located (shr_m mrs) (loc_of_shr_record mrs) N D ->
  located (shr_m (Nat.iter k shr_1 mrs)) (loc_of_shr_record (Nat.iter k shr_1 mrs))
    N (2 ^ Z.of_nat k * D).
Proof.
  intros Hm HD Hl. induction k as [ | k IH].
  - cbn [Nat.iter]. change (2 ^ Z.of_nat 0) with 1. rewrite Z.mul_1_l. exact Hl.
  - change (Nat.iter (S k) shr_1 mrs) with (shr_1 (Nat.iter k shr_1 mrs)).
    replace (2 ^ Z.of_nat (S k) * D) with (2 * (2 ^ Z.of_nat k * D)).
    + apply shr_1_located; [ | | exact IH].
      * destruct (shr_iter_spec k mrs Hm) as [-> _]. apply Z.div_pos; [lia | ].
        apply Z.pow_pos_nonneg; lia.
      * apply Z.mul_pos_pos; [apply Z.pow_pos_nonneg; lia | lia].
    + rewrite Nat2Z.inj_succ, Z.pow_succ_r by lia. ring.
Qed.

Lemma shr_located (mrs : shr_record) (e n : Z) (N D : Z) :
  0 <= shr_m mrs -> 0 < D ->
  located (shr_m mrs) (loc_of_shr_record mrs) N D ->
  located (shr_m (fst (shr mrs e n))) (loc_of_shr_record (fst (shr mrs e n)))
    N (2 ^ Z.max 0 n * D).
Proof.
  intros Hm HD Hl. unfold shr. destruct n as [ | p | p]; cbn [fst].
  - change (2 ^ Z.max 0 0) with 1. rewrite Z.mul_1_l. exact Hl.
  - rewrite iter_pos_nat. rewrite Z.max_r by lia.
    rewrite <- (positive_nat_Z p). apply shr_iter_located; assumption.
  - rewrite Z.max_l by lia. change (2 ^ 0) with 1. rewrite Z.mul_1_l. exact Hl.
Qed.

Lemma located_record_of_loc (m : Z) (l : location) (N D : Z) :
  located m l N D ->
  located m (loc_of_shr_record (shr_record_of_loc m l)) N D.
Proof. destruct l as [ | [ | | ]]; exact (fun H => H). Qed.

(** *** The location of a remainder *)

Lemma new_location_located (nb k : Z) :
  0 < nb -> 0 <= k < nb -> located 0 (new_location nb k) k nb.
Proof.
  intros Hnb Hk. unfold new_location, new_location_even, new_location_odd, located.
  split; [lia | ].
  destruct (Z.even nb) eqn:Ev; destruct (Z.eqb_spec k 0) as [-> | Hk0]; try reflexivity.
  - destruct (Z.compare_spec (2 * k) nb); lia.
  - assert (Ho : Z.odd nb = true) by (rewrite <- Z.negb_even, Ev; reflexivity).
    apply Z.odd_spec in Ho. destruct Ho as [j Hj].
    destruct (Z.compare_spec (2 * k + 1) nb); lia.
Qed.

Lemma located_shift (q : Z) (l : location) (k nb : Z) :
  located 0 l k nb -> located q l (q * nb + k) nb.
Proof.
  unfold located. intros [Hb Hl]. split; [lia | ].
  destruct l as [ | [ | | ]]; lia.
Qed.

Lemma SFdiv_core_located (mx my : positive) (ex ey : Z) (q e' : Z) (l : location) :
  SFdiv_core_binary prec emax (Zpos mx) ex (Zpos my) ey = (q, e', l) ->
  0 <= ex - ey - e' /\ located q l (Zpos mx * 2 ^ (ex - ey - e')) (Zpos my).
Proof.
  unfold SFdiv_core_binary.
  set (d1 := Zdigits2 (Zpos mx)). set (d2 := Zdigits2 (Zpos my)).
  set (e0 := Z.min (fexp (d1 + ex - (d2 + ey))) (ex - ey)).
  set (s := ex - ey - e0).
  assert (Hs : 0 <= s) by (unfold s, e0; lia).
  set (m' := match s with Zpos _ => Z.shiftl (Zpos mx) s | Z0 => Zpos mx | Zneg _ => 0 end).
  assert (Hm' : m' = Zpos mx * 2 ^ s).
  { unfold m'. destruct s as [ | p | p]; [cbn; lia | | lia].
    apply Z.shiftl_mul_pow2. lia. }
  pose proof (Z_div_mod m' (Zpos my) ltac:(lia)) as Hdm.
  destruct (Z.div_eucl m' (Zpos my)) as [q0 r]. destruct Hdm as [Hdm Hr].
  intro H. injection H as <- <- <-. fold s. split; [exact Hs | ].
  rewrite <- Hm', Hdm, (Z.mul_comm (Zpos my) q0).
  apply located_shift, new_location_located; lia.
Qed.

(** *** The rounding step, with its location *)

Lemma located_below (k : Z) (l : location) (N D : Z) :
  0 < D -> located k l N D ->
  match l with
  | loc_Exact | loc_Inexact Lt => 2 * N < (2 * k + 1) * D
  | loc_Inexact Eq => 2 * N = (2 * k + 1) * D
  | loc_Inexact Gt => (2 * k + 1) * D < 2 * N
  end.
Proof. intros HD [Hb Hl]. destruct l as [ | [ | | ]]; lia. Qed.

Lemma round_nearest_even_le (k : Z) (lx ly : location) (Nx Dx Ny Dy : Z) :
  0 < Dx -> 0 < Dy ->
  located k lx Nx Dx -> located k ly Ny Dy ->
  Nx * Dy <= Ny * Dx ->
  round_nearest_even k lx <= round_nearest_even k ly.
Proof.
  intros HDx HDy Hx Hy Hle.
  pose proof (located_below k lx Nx Dx HDx Hx) as Ax.
  pose proof (located_below k ly Ny Dy HDy Hy) as Ay.
  set (c := (2 * k + 1) * (Dx * Dy)).
  assert (Hcx : (2 * k + 1) * Dx * Dy = c) by (unfold c; ring).
  assert (Hcy : (2 * k + 1) * Dy * Dx = c) by (unfold c; ring).
  assert (Bx : match lx with
               | loc_Exact | loc_Inexact Lt => 2 * Nx * Dy < c
               | loc_Inexact Eq => 2 * Nx * Dy = c
               | loc_Inexact Gt => c < 2 * Nx * Dy
               end).
  { rewrite <- Hcx. destruct lx as [ | [ | | ]];
      try (apply Z.mul_lt_mono_pos_r; assumption). rewrite Ax. reflexivity. }
  assert (By : match ly with
               | loc_Exact | loc_Inexact Lt => 2 * Ny * Dx < c
               | loc_Inexact Eq => 2 * Ny * Dx = c
               | loc_Inexact Gt => c < 2 * Ny * Dx
               end).
  { rewrite <- Hcy. destruct ly as [ | [ | | ]];
      try (apply Z.mul_lt_mono_pos_r; assumption). rewrite Ay. reflexivity. }
  clear Hx Hy Ax Ay Hcx Hcy. clearbody c.
  destruct lx as [ | [ | | ]], ly as [ | [ | | ]]; cbn [round_nearest_even];
    try (destruct (Z.even k)); lia.
Qed.

Lemma binary_round_aux_located (m e : Z) (l : location) (N D : Z) :
  0 <= m -> 0 < D -> located m l N D ->
  let n := Z.max 0 (fexp (Zdigits2 m + e) - e) in
  exists l',
    located (m / 2 ^ n) l' N (2 ^ n * D) /\
    let m1 := round_nearest_even (m / 2 ^ n) l' in
    let n2 := Z.max 0 (fexp (Zdigits2 m1 + (e + n)) - (e + n)) in
    binary_round_aux prec emax false m e l = pack false (m1 / 2 ^ n2) (e + n + n2).
Proof.
  intros Hm HD Hl n.
  unfold binary_round_aux, shr_fexp.
  pose proof (shr_spec (shr_record_of_loc m l) e (fexp (Zdigits2 m + e) - e)) as H1.
  rewrite shr_m_record_of_loc in H1. specialize (H1 Hm). cbv zeta in H1.
  fold n in H1.
  pose proof (shr_located (shr_record_of_loc m l) e (fexp (Zdigits2 m + e) - e) N D) as HL.
  rewrite shr_m_record_of_loc in HL.
  specialize (HL Hm HD (located_record_of_loc m l N D Hl)). fold n in HL.
  destruct (shr (shr_record_of_loc m l) e (fexp (Zdigits2 m + e) - e)) as [mrs' e'].
  cbn [fst snd] in H1, HL. destruct H1 as (Hm' & He' & _).
  exists (loc_of_shr_record mrs'). rewrite <- Hm'. split; [exact HL | ].
  set (m1 := round_nearest_even (shr_m mrs') (loc_of_shr_record mrs')).
  assert (Hp : 0 < 2 ^ n) by (apply Z.pow_pos_nonneg; lia).
  assert (Hm'0 : 0 <= shr_m mrs') by (rewrite Hm'; apply Z.div_pos; lia).
  pose proof (round_nearest_even_bounds (shr_m mrs') (loc_of_shr_record mrs')) as Hb.
  fold m1 in Hb.
  pose proof (shr_spec (shr_record_of_loc m1 loc_Exact) e' (fexp (Zdigits2 m1 + e') - e')) as H2.
  rewrite shr_m_record_of_loc in H2. specialize (H2 ltac:(lia)). cbv zeta in H2.
  destruct (shr (shr_record_of_loc m1 loc_Exact) e' (fexp (Zdigits2 m1 + e') - e')) as [mrs'' e''].
  cbn [fst snd] in H2. destruct H2 as (Hm'' & He'' & _).
  subst e'. cbv zeta. rewrite Hm'', He''. reflexivity.
Qed.

Lemma located_floor_le (kx ky : Z) (lx ly : location) (Nx Dx Ny Dy : Z) :
  0 < Dx -> 0 < Dy ->
  located kx lx Nx Dx -> located ky ly Ny Dy ->
  Nx * Dy <= Ny * Dx -> kx <= ky.
Proof.
  intros HDx HDy [Hx _] [Hy _] Hle.
  assert (HD : 0 < Dx * Dy) by (apply Z.mul_pos_pos; assumption).
  assert (H1 : kx * (Dx * Dy) <= Nx * Dy).
  { replace (kx * (Dx * Dy)) with (kx * Dx * Dy) by ring.
    apply Z.mul_le_mono_nonneg_r; lia. }
  assert (H2 : Ny * Dx < (ky + 1) * (Dx * Dy)).
  { replace ((ky + 1) * (Dx * Dy)) with ((ky + 1) * Dy * Dx) by ring.
    apply Z.mul_lt_mono_pos_r; lia. }
  assert (H3 : kx * (Dx * Dy) < (ky + 1) * (Dx * Dy)) by lia.
  apply Z.mul_lt_mono_pos_r in H3; lia.
Qed.

(** *** Results on one grid *)

Lemma second_shift (u m1 : Z) :
  -1074 <= u -> 0 < m1 ->
  let n2 := Z.max 0 (fexp (Zdigits2 m1 + u) - u) in
  0 <= n2 /\ 0 < m1 / 2 ^ n2.
Proof.
  intros Hu Hm n2. split; [lia | ].
  destruct (Zdigits2_bounds m1 Hm) as [Hlow _].
  pose proof (Zdigits2_nonneg m1) as Hd.
  assert (Hd1 : 1 <= Zdigits2 m1).
  { destruct (Z_le_gt_dec 1 (Zdigits2 m1)); [assumption | ].
    assert (Zdigits2 m1 = 0) by lia. destruct m1; cbn in *; lia. }
  assert (Hn2 : n2 <= Zdigits2 m1 - 1) by (unfold n2; rewrite fexp_spec; lia).
  apply Z.div_str_pos. split; [apply Z.pow_pos_nonneg; lia | ].
  transitivity (2 ^ (Zdigits2 m1 - 1)); [ | exact Hlow].
  apply Z.pow_le_mono_r; lia.
Qed.

Lemma pack_round_mono (u m1x m1y : Z) :
  -1074 <= u -> 0 <= m1x <= m1y ->
  let nx := Z.max 0 (fexp (Zdigits2 m1x + u) - u) in
  let ny := Z.max 0 (fexp (Zdigits2 m1y + u) - u) in
  SFleb (pack false (m1x / 2 ^ nx) (u + nx)) (pack false (m1y / 2 ^ ny) (u + ny)) = true.
Proof.
  intros Hu Hm nx ny.
  assert (Hn : nx <= ny).
  { unfold nx, ny. pose proof (Zdigits2_le m1x m1y Hm).
    pose proof (fexp_mono (Zdigits2 m1x + u) (Zdigits2 m1y + u)). lia. }
  assert (Hpx : 0 < 2 ^ nx) by (apply Z.pow_pos_nonneg; lia).
  assert (Hx0 : 0 <= m1x / 2 ^ nx) by (apply Z.div_pos; lia).
  destruct (Z.eq_dec m1y 0) as [Hy0 | Hy0].
  - assert (m1x = 0) by lia. subst m1x m1y. reflexivity.
  - destruct (second_shift u m1y Hu ltac:(lia)) as [_ Hpos]. fold ny in Hpos.
    unfold pack at 2. destruct (m1y / 2 ^ ny) as [ | q | q] eqn:Eq; try lia.
    change (emax - prec) with 971.
    destruct (Z.leb_spec (u + ny) 971) as [Hle | Hgt].
    + apply SFleb_pack; try lia.
      intro He. assert (nx = ny) by lia. rewrite <- Eq.
      replace nx with ny by lia. apply Z.div_le_mono; [apply Z.pow_pos_nonneg; lia | lia].
    + unfold pack. destruct (m1x / 2 ^ nx) as [ | p | p]; try lia; try reflexivity.
      destruct (_ <=? _); reflexivity.
Qed.

Lemma SFleb_through (x y : spec_float) (mg : positive) (eg : Z) :
  valid_binary x = true -> valid_binary y = true ->
  bounded prec emax mg eg = true ->
  nonneg_sf x = true ->
  SFleb x (S754_finite false mg eg) = true ->
  SFleb (S754_finite false mg eg) y = true ->
  SFleb x y = true.
Proof.
  intros Vx Vy Vg Hx Hxg Hgy.
  pose proof (nonneg_sf_fin x Hx) as Fx.
  destruct y as [sy | [ | ] | | sy my ey]; try discriminate.
  - destruct x as [ | | | [ | ] ? ?]; try discriminate; reflexivity.
  - rewrite SFleb_val in *; try assumption; try reflexivity.
    apply Z.leb_le in Hxg, Hgy. apply Z.leb_le. lia.
Qed.

(** *** Magnitudes *)

Lemma mag_upper (m e N D O : Z) :
  0 <= m -> 0 < D -> N < (m + 1) * D -> 0 <= e + O ->
  N * 2 ^ (e + O) < D * 2 ^ (Zdigits2 m + e + O).
Proof.
  intros Hm HD HN HO.
  pose proof (Zdigits2_nonneg m) as Hd.
  assert (Hm1 : m + 1 <= 2 ^ Zdigits2 m).
  { destruct (Z.eq_dec m 0) as [-> | ]; [cbn; lia | ].
    destruct (Zdigits2_bounds m ltac:(lia)). lia. }
  assert (Hp : 0 < 2 ^ (e + O)) by (apply Z.pow_pos_nonneg; lia).
  replace (Zdigits2 m + e + O) with (Zdigits2 m + (e + O)) by lia.
  rewrite (Z.pow_add_r 2 (Zdigits2 m) (e + O)) by lia.
  apply Z.lt_le_trans with ((m + 1) * D * 2 ^ (e + O)).
  - apply Z.mul_lt_mono_pos_r; assumption.
  - replace (D * (2 ^ Zdigits2 m * 2 ^ (e + O)))
      with (2 ^ Zdigits2 m * D * 2 ^ (e + O)) by ring.
    apply Z.mul_le_mono_nonneg_r; [lia | ].
    apply Z.mul_le_mono_nonneg_r; lia.
Qed.

Lemma mag_lower (m e N D O : Z) :
  0 < m -> 0 < D -> m * D <= N -> 0 <= e + O ->
  D * 2 ^ (Zdigits2 m - 1 + e + O) <= N * 2 ^ (e + O).
Proof.
  intros Hm HD HN HO.
  destruct (Zdigits2_bounds m Hm) as [Hlow _].
  assert (Hd1 : 1 <= Zdigits2 m).
  { pose proof (Zdigits2_nonneg m).
    destruct (Z_le_gt_dec 1 (Zdigits2 m)); [assumption | ].
    assert (Zdigits2 m = 0) by lia. destruct m; cbn in *; lia. }
  assert (Hp : 0 < 2 ^ (e + O)) by (apply Z.pow_pos_nonneg; lia).
  replace (Zdigits2 m - 1 + e + O) with (Zdigits2 m - 1 + (e + O)) by lia.
  rewrite (Z.pow_add_r 2 (Zdigits2 m - 1) (e + O)) by lia.
  apply Z.le_trans with (m * D * 2 ^ (e + O)).
  - replace (D * (2 ^ (Zdigits2 m - 1) * 2 ^ (e + O)))
      with (2 ^ (Zdigits2 m - 1) * D * 2 ^ (e + O)) by ring.
    apply Z.mul_le_mono_nonneg_r; [lia | ].
    apply Z.mul_le_mono_nonneg_r; lia.
  - apply Z.mul_le_mono_nonneg_r; lia.
Qed.

Lemma bounded_pow52 (u : Z) :
  -1074 <= u <= 971 -> bounded prec emax 4503599627370496 u = true.
Proof.
  intro Hu. unfold bounded, canonical_mantissa.
  rewrite andb_true_iff, Z.eqb_eq, Z.leb_le, fexp_spec.
  change (Zpos (digits2_pos 4503599627370496)) with 53.
  change (emax - prec) with 971. lia.
Qed.

(** No mantissa, no exponent above the least. *)
Lemma zero_mantissa_grid (e : Z) : e <= fexp (Zdigits2 0 + e) -> fexp (Zdigits2 0 + e) = -1074.
Proof. cbn [Zdigits2]. rewrite fexp_spec. lia. Qed.

(** *** Monotony *)

Lemma binary_round_aux_mono (mx ex : Z) (lx : location) (Nx Dx : Z)
    (my ey : Z) (ly : location) (Ny Dy : Z) (O : Z) :
  0 <= mx -> ex <= fexp (Zdigits2 mx + ex) -> 0 < Dx -> located mx lx Nx Dx ->
  0 <= my -> ey <= fexp (Zdigits2 my + ey) -> 0 < Dy -> located my ly Ny Dy ->
  0 <= ex + O -> 0 <= ey + O ->
  Nx * Dy * 2 ^ (ex + O) <= Ny * Dx * 2 ^ (ey + O) ->
  fexp (Zdigits2 my + ey) <= 971 ->
  SFleb (binary_round_aux prec emax false mx ex lx)
        (binary_round_aux prec emax false my ey ly) = true.
Proof.
  intros Hmx Hcx HDx Hlx Hmy Hcy HDy Hly HOx HOy Hle Hmax.
  set (ux := fexp (Zdigits2 mx + ex)) in *.
  set (uy := fexp (Zdigits2 my + ey)) in *.
  assert (Hux : -1074 <= ux) by apply fexp_ge_emin.
  assert (Huy : -1074 <= uy) by apply fexp_ge_emin.
  assert (HD : 0 < Dx * Dy) by (apply Z.mul_pos_pos; assumption).
  pose proof Hlx as [Hbx _]. pose proof Hly as [Hby _].
  destruct (Z.lt_trichotomy ux uy) as [Hlt | [Heq | Hgt]].
  - (* the second value lies in a higher binade *)
    assert (Hmy0 : 0 < my).
    { destruct (Z.eq_dec my 0) as [E | ]; [ | lia]. exfalso. subst my.
      pose proof (zero_mantissa_grid ey Hcy). unfold uy in *. lia. }
    assert (Hdy : uy = Zdigits2 my + ey - 53) by (unfold uy in *; rewrite fexp_spec in *; lia).
    assert (Hdx : Zdigits2 mx + ex <= uy + 52) by (unfold ux in *; rewrite fexp_spec in *; lia).
    pose proof (bounded_pow52 uy ltac:(lia)) as Hb.
    assert (Hpow : forall k, 0 <= k -> Zpos 4503599627370496 * 2 ^ k = 2 ^ (52 + k)).
    { intros k Hk. rewrite Z.pow_add_r by lia. reflexivity. }
    destruct (binary_round_aux_upper mx ex lx Nx Dx O 4503599627370496 uy)
      as [Hxb Hxn]; try assumption; try lia.
    + destruct Hlx as [_ Hl]. destruct lx as [ | [ | | ]]; try congruence; intros _; lia.
    + rewrite <- Z.mul_assoc, (Hpow (uy + O)) by lia.
      pose proof (mag_upper mx ex Nx Dx O Hmx HDx ltac:(lia) HOx) as Hu.
      apply Z.lt_le_incl. eapply Z.lt_le_trans; [exact Hu | ].
      apply Z.mul_le_mono_nonneg_l; [lia | ]. apply Z.pow_le_mono_r; lia.
    + pose proof (binary_round_aux_lower my ey ly Ny Dy O 4503599627370496 uy) as Hyb.
      specialize (Hyb Hmy Hcy HDy Hby HOy ltac:(lia) Hb).
      assert (Hlow : Dy * Zpos 4503599627370496 * 2 ^ (uy + O) <= Ny * 2 ^ (ey + O)).
      { rewrite <- Z.mul_assoc, (Hpow (uy + O)) by lia.
        pose proof (mag_lower my ey Ny Dy O Hmy0 HDy ltac:(lia) HOy) as Hl.
        replace (52 + (uy + O)) with (Zdigits2 my - 1 + ey + O) by lia. exact Hl. }
      specialize (Hyb Hlow).
      apply (SFleb_through _ _ 4503599627370496 uy); try assumption.
      * apply binary_round_aux_valid; assumption.
      * apply binary_round_aux_valid; assumption.
  - (* both values lie on one grid *)
    set (u := uy) in *.
    destruct (binary_round_aux_located mx ex lx Nx Dx Hmx HDx Hlx) as (lx' & Lx & Rx).
    destruct (binary_round_aux_located my ey ly Ny Dy Hmy HDy Hly) as (ly' & Ly & Ry).
    fold ux in Lx, Rx. fold uy in Ly, Ry. fold u in Ly, Ry. rewrite Heq in Lx, Rx.
    set (nx := Z.max 0 (u - ex)) in *. set (ny := Z.max 0 (u - ey)) in *.
    assert (Hnx : ex + nx = u) by (unfold nx, u, uy in *; lia).
    assert (Hny : ey + ny = u) by (unfold ny, u, uy in *; lia).
    cbv zeta in Rx, Ry. rewrite Rx, Ry, Hnx, Hny. clear Rx Ry.
    set (kx := mx / 2 ^ nx) in *. set (ky := my / 2 ^ ny) in *.
    assert (Hpx : 0 < 2 ^ nx) by (apply Z.pow_pos_nonneg; lia).
    assert (Hpy : 0 < 2 ^ ny) by (apply Z.pow_pos_nonneg; lia).
    assert (Hcross : Nx * (2 ^ ny * Dy) <= Ny * (2 ^ nx * Dx)).
    { set (P := 2 ^ (u + O)).
      assert (HP : 0 < P) by (apply Z.pow_pos_nonneg; lia).
      assert (Ha : P = 2 ^ (ex + O) * 2 ^ nx).
      { unfold P. rewrite <- Z.pow_add_r by lia. f_equal. lia. }
      assert (Hb : P = 2 ^ (ey + O) * 2 ^ ny).
      { unfold P. rewrite <- Z.pow_add_r by lia. f_equal. lia. }
      apply (Z.mul_le_mono_pos_r _ _ P HP).
      replace (Nx * (2 ^ ny * Dy) * P)
        with (Nx * Dy * 2 ^ (ex + O) * (2 ^ nx * 2 ^ ny)) by (rewrite Ha; ring).
      replace (Ny * (2 ^ nx * Dx) * P)
        with (Ny * Dx * 2 ^ (ey + O) * (2 ^ nx * 2 ^ ny)) by (rewrite Hb; ring).
      apply Z.mul_le_mono_nonneg_r; [ | exact Hle].
      apply Z.mul_nonneg_nonneg; lia. }
    assert (HDx' : 0 < 2 ^ nx * Dx) by (apply Z.mul_pos_pos; assumption).
    assert (HDy' : 0 < 2 ^ ny * Dy) by (apply Z.mul_pos_pos; assumption).
    pose proof (located_floor_le kx ky lx' ly' _ _ _ _ HDx' HDy' Lx Ly Hcross) as Hk.
    assert (Hkx0 : 0 <= kx) by (apply Z.div_pos; lia).
    pose proof (round_nearest_even_bounds kx lx') as Bx.
    pose proof (round_nearest_even_bounds ky ly') as By.
    assert (Hm1 : round_nearest_even kx lx' <= round_nearest_even ky ly').
    { destruct (Z.eq_dec kx ky) as [E | ]; [ | lia].
      rewrite E in *. apply (round_nearest_even_le ky lx' ly' _ _ _ _ HDx' HDy' Lx Ly Hcross). }
    apply pack_round_mono; lia.
  - (* the first value cannot lie in a higher binade *)
    exfalso.
    assert (Hmx0 : 0 < mx).
    { destruct (Z.eq_dec mx 0) as [E | ]; [ | lia]. exfalso. subst mx.
      pose proof (zero_mantissa_grid ex Hcx). unfold ux in *. lia. }
    assert (Hdx : ux = Zdigits2 mx + ex - 53) by (unfold ux in *; rewrite fexp_spec in *; lia).
    assert (Hdy : Zdigits2 my + ey <= ux + 52) by (unfold uy in *; rewrite fexp_spec in *; lia).
    pose proof (mag_lower mx ex Nx Dx O Hmx0 HDx ltac:(lia) HOx) as Hl.
    pose proof (mag_upper my ey Ny Dy O Hmy HDy ltac:(lia) HOy) as Hu.
    assert (Hp : 2 ^ (Zdigits2 my + ey + O) <= 2 ^ (Zdigits2 mx - 1 + ex + O))
      by (apply Z.pow_le_mono_r; lia).
    assert (H1 : Dy * (Dx * 2 ^ (Zdigits2 mx - 1 + ex + O)) <= Dy * (Nx * 2 ^ (ex + O)))
      by (apply Z.mul_le_mono_nonneg_l; lia).
    assert (H2 : Dx * (Ny * 2 ^ (ey + O)) < Dx * (Dy * 2 ^ (Zdigits2 my + ey + O)))
      by (apply Z.mul_lt_mono_pos_l; lia).
    assert (H3 : Dx * Dy * 2 ^ (Zdigits2 my + ey + O)
                 <= Dx * Dy * 2 ^ (Zdigits2 mx - 1 + ex + O))
      by (apply Z.mul_le_mono_nonneg_l; lia).
    lia.
Qed.

(** *** Quotients of integers *)

Lemma SFdiv_num_mono (a b c : positive) :
  Zpos a <= Zpos b -> Zpos b <= Zpos c ->
  SFleb (SFdiv prec emax (S754_finite false a 0) (S754_finite false c 0))
        (SFdiv prec emax (S754_finite false b 0) (S754_finite false c 0)) = true.
Proof.
  intros Hab Hbc. cbn [SFdiv xorb].
  destruct (SFdiv_core_spec a c 0 0)
    as (qx & ex & sx & lx & Ex & Hsx & Hex & Hminx & Hqx & Hbx & _ & Hcx).
  destruct (SFdiv_core_spec b c 0 0)
    as (qy & ey & sy & ly & Ey & Hsy & Hey & Hminy & Hqy & Hby & _ & Hcy).
  destruct (SFdiv_core_located a c 0 0 qx ex lx Ex) as [_ Lx].
  destruct (SFdiv_core_located b c 0 0 qy ey ly Ey) as [_ Ly].
  rewrite Ex, Ey.
  replace (0 - 0 - ex) with sx in Lx by lia.
  replace (0 - 0 - ey) with sy in Ly by lia.
  assert (Hpx : 0 < 2 ^ sx) by (apply Z.pow_pos_nonneg; lia).
  assert (Hpy : 0 < 2 ^ sy) by (apply Z.pow_pos_nonneg; lia).
  apply (binary_round_aux_mono qx ex lx (Zpos a * 2 ^ sx) (Zpos c)
           qy ey ly (Zpos b * 2 ^ sy) (Zpos c) 1074);
    try assumption; try lia.
  - assert (Ea : 2 ^ sx * 2 ^ (ex + 1074) = 2 ^ 1074).
    { rewrite <- Z.pow_add_r by lia. f_equal. lia. }
    assert (Eb : 2 ^ sy * 2 ^ (ey + 1074) = 2 ^ 1074).
    { rewrite <- Z.pow_add_r by lia. f_equal. lia. }
    replace (Zpos a * 2 ^ sx * Zpos c * 2 ^ (ex + 1074))
      with (Zpos a * Zpos c * (2 ^ sx * 2 ^ (ex + 1074))) by ring.
    replace (Zpos b * 2 ^ sy * Zpos c * 2 ^ (ey + 1074))
      with (Zpos b * Zpos c * (2 ^ sy * 2 ^ (ey + 1074))) by ring.
    rewrite Ea, Eb. apply Z.mul_le_mono_nonneg_r; [apply Z.pow_nonneg; lia | ].
    apply Z.mul_le_mono_nonneg_r; lia.
  - assert (Hq : qy <= 2 ^ sy).
    { assert (H1 : qy * Zpos c <= 2 ^ sy * Zpos c).
      { transitivity (Zpos b * 2 ^ sy); [lia | ].
        rewrite (Z.mul_comm (2 ^ sy)). apply Z.mul_le_mono_nonneg_r; lia. }
      apply Z.mul_le_mono_pos_r in H1; lia. }
    pose proof (Zdigits2_le qy (2 ^ sy) ltac:(lia)) as Hd.
    assert (Hd2 : Zdigits2 (2 ^ sy) = 1 + sy).
    { rewrite <- (Z.mul_1_l (2 ^ sy)). rewrite Zdigits2_mul_pow by lia. reflexivity. }
    rewrite fexp_spec. lia.
Qed.

Local Close Scope Z_scope.

Lemma int_truediv_mono (a b c : Z) (x y : float) :
  (0 <= a <= b)%Z -> (b <= c)%Z -> (0 < c)%Z ->
  Py.int_truediv a c = Ok x -> Py.int_truediv b c = Ok y ->
  (x <=? y) = true.
Proof.
  intros Hab Hbc Hc Hx Hy.
  destruct c as [ | r | r]; try lia.
  destruct a as [ | p | p]; try lia.
  - cbn in Hx. injection Hx as <-.
    destruct (int_truediv_unit b (Zpos r) ltac:(lia) ltac:(lia)) as (v & Hv & Hu & _).
    rewrite Hv in Hy. injection Hy as <-. exact Hu.
  - destruct b as [ | q | q]; try lia.
    unfold Py.int_truediv in Hx, Hy.
    change (Zpos p <? 0)%Z with false in Hx. change (Zpos q <? 0)%Z with false in Hy.
    change (Zpos r <? 0)%Z with false in Hx, Hy.
    change (Z.to_pos (Z.abs (Zpos p))) with p in Hx.
    change (Z.to_pos (Z.abs (Zpos q))) with q in Hy.
    change (Z.to_pos (Z.abs (Zpos r))) with r in Hx, Hy.
    cbv zeta in Hx, Hy.
    destruct (is_infinity _) in Hx; [discriminate | ]. injection Hx as <-.
    destruct (is_infinity _) in Hy; [discriminate | ]. injection Hy as <-.
    change ((SF2Prim (SFdiv prec emax (S754_finite false p 0) (S754_finite false r 0))
             <=? SF2Prim (SFdiv prec emax (S754_finite false q 0) (S754_finite false r 0)))
            = true).
    rewrite leb_spec, !Prim2SF_SF2Prim by apply SFdiv_finite_valid.
    apply SFdiv_num_mono; lia.
Qed.

(** *** The steeper share is the smaller *)

Lemma filter_length_impl {A : Type} (p q : A -> bool) (l : list A) :
  (forall x, p x = true -> q x = true) ->
  (len (filter p l) <= len (filter q l))%Z.
Proof.
  intro H. unfold len. apply inj_le.
  induction l as [ | x l IH]; [apply Nat.le_refl | ].
  cbn [filter]. destruct (p x) eqn:Ep.
  - rewrite (H x Ep). cbn [List.length]. apply le_n_S. exact IH.
  - destruct (q x); cbn [List.length]; [apply Nat.le_trans with (1 := IH) | exact IH].
    apply Nat.le_succ_diag_r.
Qed.

Lemma leb_20_10 (g : float) : (20 <=? g) = true -> (10 <=? g) = true.
Proof.
  rewrite !leb_spec. pose proof (Prim2SF_valid g) as Vg.
  destruct (Prim2SF g) as [ | [ | ] | | s m e] eqn:E; try discriminate; try reflexivity.
  intro H. rewrite SFleb_val in H |- *;
    try assumption; try reflexivity; try apply Prim2SF_valid.
  apply Z.leb_le in H. apply Z.leb_le.
  assert (Hc : (SFval (Prim2SF 10) <= SFval (Prim2SF 20))%Z) by (vm_compute; discriminate).
  lia.
Qed.

Lemma shares_ordered (up : list float) (s10 s20 : float) :
  match up with
  | [] => Ok (0, 0)
  | _ :: _ =>
      s10 <- Py.int_truediv (len (filter (fun g => 10 <=? g) up)) (len up) ;;
      s20 <- Py.int_truediv (len (filter (fun g => 20 <=? g) up)) (len up) ;;
      Ok (s10, s20)
  end = Ok (s10, s20) ->
  (s20 <=? s10) = true.
Proof.
  destruct up as [ | g up].
  - intro H. injection H as <- <-. reflexivity.
  - set (l := g :: up).
    destruct (Py.int_truediv (len (filter (fun g => 10 <=? g) l)) (len l))
      as [x | ] eqn:E10; cbn [bind]; [ | discriminate].
    destruct (Py.int_truediv (len (filter (fun g => 20 <=? g) l)) (len l))
      as [y | ] eqn:E20; cbn [bind]; [ | discriminate].
    intro H. injection H as <- <-.
    apply (int_truediv_mono _ _ _ _ _ (conj (proj1 (len_filter_le _ l))
             (filter_length_impl _ _ l leb_20_10))
             (proj2 (len_filter_le _ l)) (len_cons_pos g up) E20 E10).
Qed.

Section Shares.

Variables c_sin c_cos : float -> float.
Variables c_atan2 c_pow : float -> float -> float.

(** X14: in a feature vector the extractor returns, the share of uphill
    grades of at least 20 % is never above the share of uphill grades of at
    least 10 %: the two counts are ordered, and the division by the number
    of uphill grades, rounded to the nearest float, keeps the order. *)
Theorem steep_shares_ordered (rows : list row) (f : dict) :
  extract_features c_sin c_cos c_atan2 c_pow rows = Ok f ->
  exists s10 s20,
    dict_get f "steep10_share" = Ok s10 /\
    dict_get f "steep20_share" = Ok s20 /\
    (s20 <=? s10) = true.
Proof.
  destruct rows as [ | r rest]; [discriminate | ].
  unfold extract_features.
  cbn [map Py.max_list Py.min_list bind hd].
  set (gv := filter _ (_ :: _)).
  destruct (avg_grade_cases gv) as [[avg Havg] | Havg]; rewrite Havg; cbn [bind];
    [ | discriminate].
  destruct (variance_cases c_pow avg gv) as [[var Hv] | Hv]; rewrite Hv;
    cbn [bind]; [ | discriminate].
  destruct (Math.sqrt var) as [sd | ?]; cbn [bind]; [ | discriminate].
  pose proof (shares_ordered (filter (fun g => 0 <? g) gv)) as Hord.
  destruct (match filter (fun g => 0 <? g) gv with
            | [] => Ok (0, 0)
            | _ :: _ => _
            end) as [[s10 s20] | ?]; cbn [bind fst snd]; [ | discriminate].
  specialize (Hord s10 s20 eq_refl).
  destruct (haversine _ _ _ _ _ _ _ _) as [bee | ?]; cbn [bind]; [ | discriminate].
  destruct (0 <? bee).
  - unfold Py.div. destruct (bee =? 0); cbn [bind]; [discriminate | ].
    intro H. injection H as <-. exists s10, s20. repeat split; assumption.
  - cbn [bind]. intro H. injection H as <-. exists s10, s20. repeat split; assumption.
Qed.

End Shares.

Lemma steep_shares_ordered_witness :
  exists f s10 s20,
    extract_features small_sin small_cos ratio_atan2 square_pow loop_route = Ok f /\
    dict_get f "steep10_share" = Ok s10 /\
    dict_get f "steep20_share" = Ok s20 /\
    (s20 <=? s10) = true.
Proof.
  assert (E : exists f,
            extract_features small_sin small_cos ratio_atan2 square_pow loop_route
            = Ok f) by (eexists; vm_compute; reflexivity).
  destruct E as [f E].
  destruct (steep_shares_ordered small_sin small_cos ratio_atan2 square_pow
              loop_route f E) as (s10 & s20 & H).
  exists f, s10, s20. split; [exact E | exact H].
Defined.
